(** * PocketVMs: the VM manager (src/plugins/PocketVMs/vmmanager.cpp)

    A shallow embedding of [VMManager] and of the parts of Qt it calls,
    followed by the properties of the record codec, of the VM store and of
    the capability prober.

    Conventions.  A [QString] and a [QByteArray] are both a [string] (a
    [QString] is identified with its UTF-8 bytes).  A [QJsonObject] and a
    [QVariantMap] are finite maps keyed by strings.  The file system, the
    log written through [qDebug]/[qWarning] and the emitted signals are
    explicit state. *)

From Stdlib Require Import ZArith String Ascii List Lia DecimalString DecimalZ DecimalPos.
From stdpp Require Import base option gmap strings list sorting.

Set Warnings "-register-all".
#[local] Open Scope string_scope.
#[local] Open Scope Z_scope.
#[local] Arguments String.append !_ _ / : simpl nomatch.

(** ** Characters used by the JSON text format *)

Definition c_quote : ascii := "034"%char.
Definition c_backslash : ascii := "092"%char.
Definition c_nl : ascii := "010"%char.
Definition c_slash : ascii := "/"%char.

(** ** Integer conversions of C++

    A value in unsigned arithmetic of the given width, and the conversion
    of an integer to [int] (modulo 2^32, as GCC and Clang define it). *)

Definition to_unsigned (bits x : Z) : Z := x mod 2 ^ bits.

Definition to_int (x : Z) : Z := (x + 2 ^ 31) mod 2 ^ 32 - 2 ^ 31.

(** ** QString *)

Module QString.

(** [QString::number(int)]: decimal, with a leading minus sign for
    negative values. *)
Definition number (n : Z) : string := NilZero.string_of_int (Z.to_int n).

Definition INT_MIN : Z := - 2 ^ 31.
Definition INT_MAX : Z := 2 ^ 31 - 1.
Definition is_int (n : Z) : Prop := INT_MIN <= n <= INT_MAX.

Definition LLONG_MIN : Z := - 2 ^ 63.
Definition LLONG_MAX : Z := 2 ^ 63 - 1.

Fixpoint ltrim (s : string) : string :=
  match s with
  | String c r => if Ascii.is_space c then ltrim r else s
  | EmptyString => EmptyString
  end.

Fixpoint rtrim (s : string) : string :=
  match s with
  | String c r =>
      match rtrim r with
      | EmptyString =>
          if Ascii.is_space c then EmptyString else String c EmptyString
      | r' => String c r'
      end
  | EmptyString => EmptyString
  end.

(** [QString::trimmed]. *)
Definition trimmed (s : string) : string := rtrim (ltrim s).

(** [QString::toLongLong(nullptr, 10)]: surrounding white space is ignored,
    an optional sign precedes the digits, and the result is 0 when the text
    is not a number or does not fit a [qlonglong]. *)
Definition toLongLong (s : string) : Z :=
  let t := trimmed s in
  let digits :=
    match t with
    | String "+" r =>
        match r with
        | String "-" _ | String "+" _ => None
        | _ => NilZero.int_of_string r
        end
    | _ => NilZero.int_of_string t
    end in
  match digits with
  | Some d =>
      let n := Z.of_int d in
      if bool_decide (LLONG_MIN <= n <= LLONG_MAX) then n else 0
  | None => 0
  end.

(** A text without white space. *)
Fixpoint spaceless (s : string) : Prop :=
  match s with
  | EmptyString => True
  | String c r => Ascii.is_space c = false ∧ spaceless r
  end.

Definition toLowerChar (c : ascii) : ascii :=
  let u := N_of_ascii c in
  if ((65 <=? u) && (u <=? 90))%N then ascii_of_N (u + 32) else c.

(** [QString::toLower], on the ASCII letters. *)
Fixpoint toLower (s : string) : string :=
  match s with
  | String c r => String (toLowerChar c) (toLower r)
  | EmptyString => EmptyString
  end.

End QString.

(** ** QJsonValue, QJsonObject, QJsonDocument *)

Inductive QJsonValue : Type :=
| JNull
| JBool (b : bool)
| JDouble (lexeme : string)
| JString (s : string)
| JArray (items : list QJsonValue)
| JObject (members : gmap string QJsonValue).

Module QJsonValue.

(** [QJsonValue::toString()]: the string, or a null [QString] when the
    value is not a string. *)
Definition toString (v : QJsonValue) : string :=
  match v with JString s => s | _ => EmptyString end.

(** [QJsonValue::toBool()]: the boolean, or [false] when the value is not
    a boolean. *)
Definition toBool (v : QJsonValue) : bool :=
  match v with JBool b => b | _ => false end.

End QJsonValue.

Module QJsonObject.

(** [QJsonObject::contains]. *)
Definition contains (o : gmap string QJsonValue) (k : string) : bool :=
  bool_decide (is_Some (o !! k)).

(** [QJsonObject::value]: [QJsonValue::Undefined] for a missing key; the
    conversions of an undefined value are those of [JNull]. *)
Definition value (o : gmap string QJsonValue) (k : string) : QJsonValue :=
  default JNull (o !! k).

End QJsonObject.

Inductive QJsonDocument : Type :=
| DocNull
| DocArray (items : list QJsonValue)
| DocObject (members : gmap string QJsonValue).

Definition isObject (d : QJsonDocument) : bool :=
  match d with DocObject _ => true | _ => false end.

Definition object (d : QJsonDocument) : gmap string QJsonValue :=
  match d with DocObject o => o | _ => ∅ end.

(** [QJsonParseError::ParseError], the values the reader below reports.
    [OutOfFuel] is not one of Qt's: it marks the end of the bound on the
    reader's recursion, which [fromJson] never reaches
    ([Reader.fromJson_fuel]). *)
Inductive ParseError : Type :=
| NoError
| UnterminatedObject
| MissingNameSeparator
| UnterminatedArray
| MissingValueSeparator
| IllegalValue
| TerminationByNumber
| IllegalNumber
| IllegalEscapeSequence
| UnterminatedString
| MissingObject
| DeepNesting
| GarbageAtEnd
| OutOfFuel.

(** [QJsonParseError::errorString()]. *)
Definition errorString (e : ParseError) : string :=
  match e with
  | NoError => "no error occurred"
  | UnterminatedObject => "unterminated object"
  | MissingNameSeparator => "missing name separator"
  | UnterminatedArray => "unterminated array"
  | MissingValueSeparator => "missing value separator"
  | IllegalValue => "illegal value"
  | TerminationByNumber => "invalid termination by number"
  | IllegalNumber => "illegal number"
  | IllegalEscapeSequence => "invalid escape sequence"
  | UnterminatedString => "unterminated string"
  | MissingObject => "object is missing after a comma"
  | DeepNesting => "too deeply nested document"
  | GarbageAtEnd => "garbage at the end of the document"
  | OutOfFuel => EmptyString
  end.

(** ** The JSON writer: [QJsonDocument::toJson()] (indented format) *)

Module Writer.

Definition hexdig (u : N) : ascii :=
  if (u <? 10)%N then ascii_of_N (48 + u) else ascii_of_N (97 + u - 10).

(** One character of [escapedString]. *)
Definition escapedChar (c : ascii) : string :=
  let u := N_of_ascii c in
  if ((u <? 32) || (u =? 34) || (u =? 92))%N then
    String c_backslash
      (if (u =? 34)%N then String c_quote EmptyString
       else if (u =? 92)%N then String c_backslash EmptyString
       else if (u =? 8)%N then "b"
       else if (u =? 12)%N then "f"
       else if (u =? 10)%N then "n"
       else if (u =? 13)%N then "r"
       else if (u =? 9)%N then "t"
       else String "u" (String "0" (String "0"
              (String (hexdig (N.shiftr u 4))
                 (String (hexdig (N.land u 15)) EmptyString)))))
  else String c EmptyString.

Fixpoint escapedString (s : string) : string :=
  match s with
  | EmptyString => EmptyString
  | String c r => escapedChar c +:+ escapedString r
  end.

Definition quoted (s : string) : string :=
  String c_quote (escapedString s +:+ String c_quote EmptyString).

Fixpoint indentString (indent : nat) : string :=
  match indent with
  | O => EmptyString
  | S n => "    " +:+ indentString n
  end.

(** The loop shared by [arrayContentToJson] and [objectContentToJson]:
    every entry on a line of its own, a comma after all but the last. *)
Fixpoint contentToJson (indent : nat) (entries : list string) : string :=
  match entries with
  | [] => EmptyString
  | [e] => indentString indent +:+ e +:+ String c_nl EmptyString
  | e :: rest =>
      indentString indent +:+ e +:+ String "," (String c_nl EmptyString)
        +:+ contentToJson indent rest
  end.

Definition member (kv : string * string) : string :=
  quoted kv.1 +:+ ": " +:+ kv.2.

Definition key_le (a b : string * string) : Prop := String.le a.1 b.1.

#[global] Instance key_le_dec : RelDecision key_le.
Proof. intros a b. unfold key_le. apply _. Defined.

(** The members of a [QJsonObject] are kept sorted by key. *)
Definition sortedMembers (o : gmap string string) : list (string * string) :=
  merge_sort key_le (map_to_list o).

Fixpoint valueToJson (indent : nat) (v : QJsonValue) : string :=
  match v with
  | JNull => "null"
  | JBool b => if b then "true" else "false"
  | JDouble lexeme => lexeme
  | JString s => quoted s
  | JArray items =>
      String "[" (String c_nl EmptyString)
        +:+ contentToJson (S indent) (map (valueToJson (S indent)) items)
        +:+ indentString indent +:+ "]"
  | JObject o =>
      String "{" (String c_nl EmptyString)
        +:+ contentToJson (S indent)
              (map member (sortedMembers (valueToJson (S indent) <$> o)))
        +:+ indentString indent +:+ "}"
  end.

Definition toJson (d : QJsonDocument) : string :=
  match d with
  | DocNull => EmptyString
  | DocArray items =>
      valueToJson 0 (JArray items) +:+ String c_nl EmptyString
  | DocObject o =>
      valueToJson 0 (JObject o) +:+ String c_nl EmptyString
  end.

End Writer.

(** ** The JSON reader: [QJsonDocument::fromJson] *)

#[global] Instance sum_bind {E : Type} : MBind (sum E) :=
  λ A B f x, match x with inl e => inl e | inr a => f a end.

Module Parser.

Inductive Token : Type :=
| TNone | TBeginArray | TBeginObject | TEndArray | TEndObject
| TNameSeparator | TValueSeparator | TQuote.

Definition isSpace (c : ascii) : bool :=
  match c with
  | " "%char | "009"%char | "010"%char | "013"%char => true
  | _ => false
  end.

Fixpoint eatSpace (s : string) : string :=
  match s with
  | String c r => if isSpace c then eatSpace r else s
  | EmptyString => EmptyString
  end.

Definition nextToken (s : string) : Token * string :=
  match eatSpace s with
  | EmptyString => (TNone, EmptyString)
  | String c r =>
      match c with
      | "["%char => (TBeginArray, eatSpace r)
      | "{"%char => (TBeginObject, eatSpace r)
      | ":"%char => (TNameSeparator, eatSpace r)
      | ","%char => (TValueSeparator, eatSpace r)
      | "]"%char => (TEndArray, eatSpace r)
      | "}"%char => (TEndObject, eatSpace r)
      | "034"%char => (TQuote, r)
      | _ => (TNone, r)
      end
  end.

Definition hexval (c : ascii) : option N :=
  let u := N_of_ascii c in
  if ((48 <=? u) && (u <=? 57))%N then Some (u - 48)%N
  else if ((97 <=? u) && (u <=? 102))%N then Some (u - 97 + 10)%N
  else if ((65 <=? u) && (u <=? 70))%N then Some (u - 65 + 10)%N
  else None.

Definition hex4 (a b c d : ascii) : option N :=
  x1 ← hexval a; x2 ← hexval b; x3 ← hexval c; x4 ← hexval d;
  Some (((x1 * 16 + x2) * 16 + x3) * 16 + x4)%N.

(** The UTF-8 bytes of a 16-bit code unit (the two halves of a surrogate
    pair are encoded one by one). *)
Definition utf8 (u : N) : string :=
  if (u <? 128)%N then String (ascii_of_N u) EmptyString
  else if (u <? 2048)%N then
    String (ascii_of_N (192 + N.shiftr u 6))
      (String (ascii_of_N (128 + N.land u 63)) EmptyString)
  else
    String (ascii_of_N (224 + N.shiftr u 12))
      (String (ascii_of_N (128 + N.land (N.shiftr u 6) 63))
         (String (ascii_of_N (128 + N.land u 63)) EmptyString)).

(** The one-character escapes of [scanEscapeSequence]; an unknown escaped
    character stands for itself. *)
Definition unescape (e : ascii) : ascii :=
  match e with
  | "b"%char => "008"%char
  | "f"%char => "012"%char
  | "n"%char => "010"%char
  | "r"%char => "013"%char
  | "t"%char => "009"%char
  | _ => e
  end.

(** [parseString], entered after the opening quote. *)
Fixpoint parseString (s : string) : ParseError + (string * string) :=
  match s with
  | EmptyString => inl UnterminatedString
  | String c r =>
      if Ascii.eqb c c_quote then inr (EmptyString, r)
      else if Ascii.eqb c c_backslash then
        match r with
        | EmptyString => inl IllegalEscapeSequence
        | String "u" (String h1 (String h2 (String h3 (String h4 r2)))) =>
            match hex4 h1 h2 h3 h4 with
            | Some u =>
                match parseString r2 with
                | inr (t, rest) => inr (utf8 u +:+ t, rest)
                | inl e => inl e
                end
            | None => inl IllegalEscapeSequence
            end
        | String "u" _ => inl IllegalEscapeSequence
        | String e r1 =>
            match parseString r1 with
            | inr (t, rest) => inr (String (unescape e) t, rest)
            | inl e => inl e
            end
        end
      else
        match parseString r with
        | inr (t, rest) => inr (String c t, rest)
        | inl e => inl e
        end
  end.

Definition isDigit (c : ascii) : bool :=
  let u := N_of_ascii c in ((48 <=? u) && (u <=? 57))%N.

(** An optional character: whether it is there, and the text after it. *)
Definition accept (p : ascii → bool) (s : string) : bool * string :=
  match s with
  | String c r => if p c then (true, r) else (false, s)
  | EmptyString => (false, s)
  end.

Fixpoint skipDigits (s : string) : string :=
  match s with
  | String c r => if isDigit c then skipDigits r else s
  | EmptyString => EmptyString
  end.

Definition hasDigit (s : string) : bool :=
  match s with
  | String c _ => isDigit c
  | EmptyString => false
  end.

(** [parseNumber]: the lexeme is scanned as Qt scans it (a minus sign, a
    zero or digits, a fraction, an exponent); the conversion that follows
    accepts it when the mantissa and, if present, the exponent have digits.
    A number that ends the text is an error. *)
Definition parseNumber (s : string) : ParseError + (QJsonValue * string) :=
  let '(_, s1) := accept (Ascii.eqb "-") s in
  let '(zero, afterZero) := accept (Ascii.eqb "0") s1 in
  let s2 := if zero then afterZero else skipDigits s1 in
  let '(dot, afterDot) := accept (Ascii.eqb ".") s2 in
  let s3 := if dot then skipDigits afterDot else s2 in
  let '(e, afterE) :=
    accept (λ c, Ascii.eqb c "e" || Ascii.eqb c "E") s3 in
  let '(_, afterSign) :=
    accept (λ c, Ascii.eqb c "-" || Ascii.eqb c "+") afterE in
  let s4 := if e then skipDigits afterSign else s3 in
  let mantissaOk := hasDigit s1 || (dot && hasDigit afterDot) in
  let expOk := negb e || hasDigit afterSign in
  match s4 with
  | EmptyString => inl TerminationByNumber
  | _ =>
      if mantissaOk && expOk
      then inr (JDouble
                  (String.substring 0 (String.length s - String.length s4) s),
                s4)
      else inl IllegalNumber
  end.

Fixpoint stripPrefix (lit s : string) : option string :=
  match lit, s with
  | EmptyString, _ => Some s
  | String a l, String b r => if Ascii.eqb a b then stripPrefix l r else None
  | String _ _, EmptyString => None
  end.

(** The rest of [null], [true] or [false], whose first letter was read. *)
Definition literal (lit : string) (v : QJsonValue) (s : string) :
    ParseError + (QJsonValue * string) :=
  match stripPrefix lit s with
  | Some rest => inr (v, rest)
  | None => inl IllegalValue
  end.

Definition nestingLimit : nat := 1024.

(** [parseValue], and the loops of [parseObject] and [parseArray].  The
    first argument bounds the recursion; [fromJson] passes three steps for
    every character, more than the text can use. *)
Fixpoint parseValue (fuel level : nat) (s : string) {struct fuel} :
    ParseError + (QJsonValue * string) :=
  match fuel with
  | O => inl OutOfFuel
  | S fuel =>
      match s with
      | EmptyString => inl IllegalValue
      | String c r =>
          match c with
          | "n"%char => literal "ull" JNull r
          | "t"%char => literal "rue" (JBool true) r
          | "f"%char => literal "alse" (JBool false) r
          | "034"%char =>
              '(t, rest) ← parseString r; inr (JString t, rest)
          | "["%char =>
              '(items, rest) ← parseArray fuel (S level) r;
              inr (JArray items, rest)
          | "{"%char =>
              '(o, rest) ← parseObject fuel (S level) r;
              inr (JObject o, rest)
          | ","%char => inl IllegalValue
          | "}"%char | "]"%char => inl MissingObject
          | _ => parseNumber s
          end
      end
  end
with parseObject (fuel level : nat) (s : string) {struct fuel} :
    ParseError + (gmap string QJsonValue * string) :=
  match fuel with
  | O => inl OutOfFuel
  | S fuel =>
      if bool_decide (nestingLimit < level)%nat then inl DeepNesting
      else let '(token, r) := nextToken s in parseMembers fuel level ∅ token r
  end
with parseMembers (fuel level : nat) (acc : gmap string QJsonValue)
    (token : Token) (s : string) {struct fuel} :
    ParseError + (gmap string QJsonValue * string) :=
  match fuel with
  | O => inl OutOfFuel
  | S fuel =>
      match token with
      | TQuote =>
          '(key, r1) ← parseString s;
          match nextToken r1 with
          | (TNameSeparator, r2) =>
              match r2 with
              | EmptyString => inl UnterminatedObject
              | _ =>
                  '(v, r3) ← parseValue fuel level r2;
                  let acc := <[key:=v]> acc in
                  match nextToken r3 with
                  | (TValueSeparator, r4) =>
                      match nextToken r4 with
                      | (TEndObject, _) => inl MissingObject
                      | (token, r5) => parseMembers fuel level acc token r5
                      end
                  | (TEndObject, r4) => inr (acc, r4)
                  | _ => inl UnterminatedObject
                  end
              end
          | _ => inl MissingNameSeparator
          end
      | TEndObject => inr (acc, s)
      | _ => inl UnterminatedObject
      end
  end
with parseArray (fuel level : nat) (s : string) {struct fuel} :
    ParseError + (list QJsonValue * string) :=
  match fuel with
  | O => inl OutOfFuel
  | S fuel =>
      if bool_decide (nestingLimit < level)%nat then inl DeepNesting
      else
        match eatSpace s with
        | EmptyString => inl UnterminatedArray
        | String "]" r => inr ([], eatSpace r)
        | s1 => parseItems fuel level s1
        end
  end
with parseItems (fuel level : nat) (s : string) {struct fuel} :
    ParseError + (list QJsonValue * string) :=
  match fuel with
  | O => inl OutOfFuel
  | S fuel =>
      match eatSpace s with
      | EmptyString => inl UnterminatedArray
      | s1 =>
          '(v, r1) ← parseValue fuel level s1;
          match nextToken r1 with
          | (TEndArray, r2) => inr ([v], r2)
          | (TValueSeparator, r2) =>
              '(vs, r3) ← parseItems fuel level r2; inr (v :: vs, r3)
          | (_, r2) =>
              match eatSpace r2 with
              | EmptyString => inl UnterminatedArray
              | _ => inl MissingValueSeparator
              end
          end
      end
  end.

Definition eatBOM (s : string) : string :=
  match s with
  | String "239" (String "187" (String "191" r)) => r
  | _ => s
  end.

Definition fromJson (json : string) : ParseError * QJsonDocument :=
  let fuel := (3 * String.length json + 3)%nat in
  match nextToken (eatBOM json) with
  | (TBeginArray, r) =>
      match parseArray fuel 1 r with
      | inr (items, rest) =>
          match eatSpace rest with
          | EmptyString => (NoError, DocArray items)
          | _ => (GarbageAtEnd, DocNull)
          end
      | inl e => (e, DocNull)
      end
  | (TBeginObject, r) =>
      match parseObject fuel 1 r with
      | inr (o, rest) =>
          match eatSpace rest with
          | EmptyString => (NoError, DocObject o)
          | _ => (GarbageAtEnd, DocNull)
          end
      | inl e => (e, DocNull)
      end
  | _ => (IllegalValue, DocNull)
  end.

End Parser.

(** ** QVariant and QVariantMap *)

Inductive QVariant : Type :=
| VInvalid
| VBool (b : bool)
| VString (s : string).

Module QVariant.

Definition toString (v : QVariant) : string :=
  match v with
  | VString s => s
  | VBool b => if b then "true" else "false"
  | VInvalid => EmptyString
  end.

(** [QVariant::toInt()]: the value is converted to a [qlonglong] (a
    string with [QString::toLongLong]) and the result to [int]; a number
    that fits a [qlonglong] and not an [int] wraps around. *)
Definition toInt (v : QVariant) : Z :=
  match v with
  | VString s => to_int (QString.toLongLong s)
  | VBool b => if b then 1 else 0
  | VInvalid => 0
  end.

(** A string converts to [false] when, in lower case, it is empty, "0" or
    "false". *)
Definition toBool (v : QVariant) : bool :=
  match v with
  | VBool b => b
  | VString s =>
      let l := QString.toLower s in
      negb (String.eqb l EmptyString || String.eqb l "0"
            || String.eqb l "false")
  | VInvalid => false
  end.

(** [QVariantMap::value]: a default-constructed (invalid) variant for a
    missing key. *)
Definition value (m : gmap string QVariant) (k : string) : QVariant :=
  default VInvalid (m !! k).

End QVariant.

(** ** Paths *)

Module Path.

(** The text before and after the last slash; [None] when there is no
    slash. *)
Fixpoint split (p : string) : option string * string :=
  match p with
  | EmptyString => (None, EmptyString)
  | String c r =>
      match split r with
      | (Some d, n) => (Some (String c d), n)
      | (None, n) =>
          if Ascii.eqb c c_slash then (Some EmptyString, n)
          else (None, String c n)
      end
  end.

(** [QFileInfo::path()]. *)
Definition path (p : string) : string :=
  match split p with
  | (None, _) => "."
  | (Some EmptyString, _) => "/"
  | (Some d, _) => d
  end.

(** [QFileInfo::fileName()]. *)
Definition fileName (p : string) : string := (split p).2.

(** A name: a text without a slash. *)
Fixpoint slashless (s : string) : Prop :=
  match s with
  | EmptyString => True
  | String c r => Ascii.eqb c c_slash = false ∧ slashless r
  end.

(** [p] lies below the directory [root]. *)
Definition below (root p : string) : bool :=
  String.prefix (root +:+ "/") p.

End Path.

(** ** The file system

    Files and directories are kept apart; a file carries its bytes and
    whether the current user may read and write it, a directory whether
    entries may be created and removed in it.  There are no symbolic links
    and paths are in canonical form. *)

Record FileNode : Type := mkFile {
  f_data : string;
  f_readable : bool;
  f_writable : bool;
}.

Record FileSystem : Type := mkFS {
  files : gmap string FileNode;
  dirs : gmap string bool;
}.

Definition set_files (f : gmap string FileNode → gmap string FileNode)
    (fs : FileSystem) : FileSystem :=
  mkFS (f (files fs)) (dirs fs).

Definition set_dirs (f : gmap string bool → gmap string bool)
    (fs : FileSystem) : FileSystem :=
  mkFS (files fs) (f (dirs fs)).

(** The directory holding [p] exists and accepts changes. *)
Definition parentWritable (fs : FileSystem) (p : string) : bool :=
  bool_decide (dirs fs !! Path.path p = Some true).

Module QFile.

Definition exists_ (fs : FileSystem) (p : string) : bool :=
  bool_decide (is_Some (files fs !! p)).

(** [QFile::remove]. *)
Definition remove (p : string) (fs : FileSystem) : bool * FileSystem :=
  if exists_ fs p && parentWritable fs p
  then (true, set_files (delete p) fs)
  else (false, fs).

(** [QFile::copy]: fails when the source cannot be read, when the
    destination exists already (it is never overwritten) or cannot be
    created.  The copy gets the permissions of the source. *)
Definition copy (src dst : string) (fs : FileSystem) : bool * FileSystem :=
  match files fs !! src with
  | Some f =>
      if f_readable f && negb (exists_ fs dst) && parentWritable fs dst
      then (true, set_files (insert dst f) fs)
      else (false, fs)
  | None => (false, fs)
  end.

(** [open(QFile::ReadOnly)]. *)
Definition openReadOnly (fs : FileSystem) (p : string) : bool :=
  match files fs !! p with
  | Some f => f_readable f
  | None => false
  end.

(** [open(QFile::ReadWrite)], with or without [QFile::Truncate]: the file
    is created when it does not exist. *)
Definition openReadWrite (truncate : bool) (p : string) (fs : FileSystem) :
    bool * FileSystem :=
  match files fs !! p with
  | Some f =>
      if f_readable f && f_writable f then
        (true,
         if truncate
         then set_files (insert p (mkFile EmptyString true true)) fs
         else fs)
      else (false, fs)
  | None =>
      if parentWritable fs p
      then (true, set_files (insert p (mkFile EmptyString true true)) fs)
      else (false, fs)
  end.

Fixpoint overwrite (new old : string) : string :=
  match new with
  | EmptyString => old
  | String c r =>
      String c (overwrite r match old with String _ o => o | _ => old end)
  end.

(** [write] on a file just opened: the bytes go to the start of the file. *)
Definition write (p : string) (bytes : string) (fs : FileSystem) :
    FileSystem :=
  set_files
    (alter (λ f, mkFile (overwrite bytes (f_data f)) (f_readable f)
                   (f_writable f)) p) fs.

Definition readAll (fs : FileSystem) (p : string) : string :=
  match files fs !! p with
  | Some f => f_data f
  | None => EmptyString
  end.

End QFile.

Module QFileInfo.

Definition isReadable (fs : FileSystem) (p : string) : bool :=
  match files fs !! p with Some f => f_readable f | None => false end.

Definition isWritable (fs : FileSystem) (p : string) : bool :=
  match files fs !! p with Some f => f_writable f | None => false end.

(** [canonicalPath()]: empty when the file does not exist. *)
Definition canonicalPath (fs : FileSystem) (p : string) : string :=
  if QFile.exists_ fs p then Path.path p else EmptyString.

End QFileInfo.

Module QDir.

Definition exists_ (fs : FileSystem) (p : string) : bool :=
  bool_decide (is_Some (dirs fs !! p)).

(** The directories on the way to a path, outermost first: the text up to
    each slash that ends a name, and the path itself. *)
Fixpoint chain (done cur p : string) : list string :=
  match p with
  | EmptyString =>
      if String.eqb cur EmptyString then [] else [done +:+ cur]
  | String c r =>
      if Ascii.eqb c c_slash then
        (if String.eqb cur EmptyString then [] else [done +:+ cur])
          ++ chain (done +:+ cur +:+ "/") EmptyString r
      else chain done (cur +:+ String c EmptyString) r
  end.

(** One [mkdir]: nothing to do for a directory that exists; otherwise the
    name must be free and its parent must accept the new entry. *)
Definition mkdir (p : string) (fs : FileSystem) : bool * FileSystem :=
  if exists_ fs p then (true, fs)
  else if negb (QFile.exists_ fs p) && parentWritable fs p
  then (true, set_dirs (insert p true) fs)
  else (false, fs).

(** [QDir::mkpath]: creates the directory and the missing parents. *)
Definition mkpath (p : string) (fs : FileSystem) : bool * FileSystem :=
  foldl (λ (acc : bool * FileSystem) q,
           if acc.1 then mkdir q acc.2 else acc) (true, fs)
    (chain EmptyString EmptyString p).

End QDir.

Module QDirIterator.

(** The name filter has no wildcard; a [QDir] name filter ignores case
    unless [QDir::CaseSensitive] is given. *)
Definition nameMatches (nameFilter p : string) : bool :=
  String.eqb (QString.toLower (Path.fileName p)) (QString.toLower nameFilter).

(** The files of [QDirIterator(root, {nameFilter}, QDir::Files,
    QDirIterator::Subdirectories)], in the order the iterator yields them
    (which Qt leaves open). *)
Definition entries (fs : FileSystem) (root nameFilter : string) :
    list string :=
  filter (λ p, Path.below root p && nameMatches nameFilter p)
    ((map_to_list (files fs)).*1).

End QDirIterator.

(** ** Removing a directory tree *)

Module Tree.

(** The directory a [QDir] built from [p] stands for in a process whose
    current directory is [cwd]: an empty path is the current directory
    itself, a relative path is taken from it. *)
Definition absolutePath (cwd p : string) : string :=
  if String.eqb p EmptyString then cwd
  else if String.prefix "/" p then p
  else cwd +:+ "/" +:+ p.

(** [p] is the directory [d] or lies below it. *)
Definition within (d p : string) : bool :=
  String.eqb p d || Path.below d p.

(** The paths of a map that lie below [d]. *)
Definition belowIn {A : Type} (d : string) (m : gmap string A) :
    list string :=
  filter (λ p, Path.below d p) (map_to_list m).*1.

(** The directory [d] can be emptied and removed: [d] and every file and
    directory below it is an entry of a directory that accepts changes. *)
Definition clearable (fs : FileSystem) (d : string) : bool :=
  parentWritable fs d
  && forallb (parentWritable fs) (belowIn d (files fs))
  && forallb (parentWritable fs) (belowIn d (dirs fs)).

(** [QDir::removeRecursively]: [true] at once for a directory that does not
    exist.  Otherwise every file below [d] is removed when its directory
    accepts it; a file that cannot be removed stays, with the write
    permission Qt grants it before it tries again.  A directory goes when
    everything in it went and its parent accepts the removal.  The call
    keeps going after a failure and returns whether [d] itself went. *)
Definition removeRecursively (d : string) (fs : FileSystem) :
    bool * FileSystem :=
  if negb (QDir.exists_ fs d) then (true, fs)
  else
    (clearable fs d,
     {| files :=
          map_imap (λ p f,
            if Path.below d p then
              if parentWritable fs p then None
              else Some (mkFile (f_data f) (f_readable f) true)
            else Some f) (files fs);
        dirs :=
          map_imap (λ q b,
            if within d q && clearable fs q then None else Some b)
            (dirs fs) |}).

End Tree.

(** ** The host, the world and the command monad *)

Inductive QtMsgType : Type := QtDebugMsg | QtWarningMsg.

Inductive Signal : Type := refreshingChanged | vmsChanged.

(** What the program reads from its environment: the standard locations,
    the CPU architecture, the identifiers [QUuid::createUuid()] returns one
    after the other, and what running an external program does (its exit
    code, its standard error and its effect on the file system). *)
Record Host : Type := mkHost {
  appDataLocation : string;
  applicationDirPath : string;
  currentCpuArchitecture : string;
  createUuid : nat → string;
  runProcess : string → list string → FileSystem → (Z * string) * FileSystem;
}.

Record World : Type := mkWorld {
  fs : FileSystem;
  uuids : nat;
  log : list (QtMsgType * list string);
  emitted : list Signal;
}.

Definition IO (A : Type) : Type := World → A * World.

#[global] Instance IO_ret : MRet IO := λ A a w, (a, w).
#[global] Instance IO_bind : MBind IO :=
  λ A B f m w, let '(a, w') := m w in f a w'.

Definition qDebug (parts : list string) : IO unit :=
  λ w, (tt, mkWorld (fs w) (uuids w) (log w ++ [(QtDebugMsg, parts)]) (emitted w)).

Definition qWarning (parts : list string) : IO unit :=
  λ w, (tt, mkWorld (fs w) (uuids w) (log w ++ [(QtWarningMsg, parts)]) (emitted w)).

Definition emit (s : Signal) : IO unit :=
  λ w, (tt, mkWorld (fs w) (uuids w) (log w) (emitted w ++ [s])).

Definition withFS {A : Type} (op : FileSystem → A * FileSystem) : IO A :=
  λ w, let '(a, fs') := op (fs w) in
       (a, mkWorld fs' (uuids w) (log w) (emitted w)).

Definition readFS {A : Type} (f : FileSystem → A) : IO A :=
  λ w, (f (fs w), w).

Definition nextUuid (h : Host) : IO string :=
  λ w, (createUuid h (uuids w),
        mkWorld (fs w) (S (uuids w)) (log w) (emitted w)).

Definition when (b : bool) (c : IO unit) : IO unit :=
  if b then c else mret tt.

(** What the limits and the removal read from the operating system: the
    current directory of the process, the width of [unsigned long] and of
    [fsblkcnt_t], the field [totalram] that [sysinfo] fills ([None] when the
    call fails), what [sysconf(_SC_NPROCESSORS_CONF)] returns, and the fields
    [f_bsize] and [f_bfree] that [statvfs] fills for a path ([None] when the
    call fails). *)
Record System : Type := mkSystem {
  currentPath : string;
  long_bits : Z;
  fsblkcnt_bits : Z;
  sysinfo_totalram : option Z;
  nprocessors_conf : Z;
  statvfs : string → option (Z * Z);
}.

(** ** vmmanager.cpp *)

Definition KEY_STORAGE : string := "storage".
Definition KEY_DESC : string := "description".
Definition KEY_ARCH : string := "arch".
Definition KEY_CORES : string := "cores".
Definition KEY_MEM : string := "mem".
Definition KEY_DVD : string := "dvd".
Definition KEY_HDD : string := "hdd".
Definition KEY_FLASH1 : string := "flash1".
Definition KEY_FLASH2 : string := "flash2".
Definition KEY_ENABLEFILESHARING : string := "enableFileSharing".
Definition KEY_VIRGLRENDERER : string := "useVirglrenderer".
Definition KEY_EXTERNAL_WINDOW_ONLY : string := "externalWindowOnly".

Definition VALID_ARCHES : list string := ["x86_64"; "aarch64"].

(** The members of [Machine] that vmmanager.cpp reads and writes (the class
    is declared in a header). *)
Record Machine : Type := mkMachine {
  storage : string;
  name : string;
  arch : string;
  cores : Z;
  mem : Z;
  hdd : string;
  dvd : string;
  flash1 : string;
  flash2 : string;
  hddSize : Z;
  useVirglrenderer : bool;
  enableFileSharing : bool;
  externalWindowOnly : bool;
}.

Definition set_storage (v : string) (m : Machine) : Machine :=
  mkMachine v (name m) (arch m) (cores m) (mem m) (hdd m) (dvd m) (flash1 m)
    (flash2 m) (hddSize m) (useVirglrenderer m) (enableFileSharing m)
    (externalWindowOnly m).

Definition set_hdd (v : string) (m : Machine) : Machine :=
  mkMachine (storage m) (name m) (arch m) (cores m) (mem m) v (dvd m)
    (flash1 m) (flash2 m) (hddSize m) (useVirglrenderer m)
    (enableFileSharing m) (externalWindowOnly m).

Definition set_hddSize (v : Z) (m : Machine) : Machine :=
  mkMachine (storage m) (name m) (arch m) (cores m) (mem m) (hdd m) (dvd m)
    (flash1 m) (flash2 m) v (useVirglrenderer m) (enableFileSharing m)
    (externalWindowOnly m).

Definition set_flash1 (v : string) (m : Machine) : Machine :=
  mkMachine (storage m) (name m) (arch m) (cores m) (mem m) (hdd m) (dvd m) v
    (flash2 m) (hddSize m) (useVirglrenderer m) (enableFileSharing m)
    (externalWindowOnly m).

Definition set_flash2 (v : string) (m : Machine) : Machine :=
  mkMachine (storage m) (name m) (arch m) (cores m) (mem m) (hdd m) (dvd m)
    (flash1 m) v (hddSize m) (useVirglrenderer m) (enableFileSharing m)
    (externalWindowOnly m).

(** What [listEntryForJSON] throws: a string literal ([const char*]) or a
    [std::string]. *)
Inductive Thrown : Type :=
| ThrowLiteral (what : string)
| ThrowString (what : string).

Record VMManager : Type := mkVMManager {
  m_refreshing : bool;
  m_vms : list (gmap string QVariant);
}.

(** [VMManager::setRefreshing] *)
Definition setRefreshing (value : bool) (this : VMManager) : IO VMManager :=
  if Bool.eqb (m_refreshing this) value then mret this
  else
    _ ← emit refreshingChanged;
    mret (mkVMManager value (m_vms this)).

(** [VMManager::listEntryForJSON].  The function only reads the file system.
    After the test for [KEY_EXTERNAL_WINDOW_ONLY] the source returns; the
    insertion of [false] that follows the [return] is never executed. *)
Definition listEntryForJSON (fs : FileSystem) (path storage : string) :
    Thrown + gmap string QVariant :=
  let ret : gmap string QVariant := ∅ in
  let ret := <["path" := VString path]> ret in
  let ret := <[KEY_STORAGE := VString storage]> ret in
  if negb (QFile.exists_ fs path) then inl (ThrowLiteral "File doesn't exist")
  else if negb (QFile.openReadOnly fs path)
  then inl (ThrowLiteral "Couldn't open file")
  else
  let '(jsonErr, jsonDoc) := Parser.fromJson (QFile.readAll fs path) in
  match jsonErr with
  | NoError =>
  if negb (isObject jsonDoc) then inl (ThrowLiteral "Invalid VM information")
  else
  let rootObject := object jsonDoc in
  if negb (QJsonObject.contains rootObject KEY_DESC)
  then inl (ThrowLiteral "Missing 'description'")
  else
  let ret := <["description" :=
                 VString (QJsonValue.toString (QJsonObject.value rootObject KEY_DESC))]> ret in
  if negb (QJsonObject.contains rootObject KEY_ARCH)
  then inl (ThrowLiteral "Missing 'arch'")
  else
  let arch := QJsonValue.toString (QJsonObject.value rootObject KEY_ARCH) in
  if negb (bool_decide (arch ∈ VALID_ARCHES))
  then inl (ThrowLiteral "Invalid architecture")
  else
  let ret := <["arch" := VString arch]> ret in
  if negb (QJsonObject.contains rootObject KEY_CORES)
  then inl (ThrowLiteral "Missing 'cores'")
  else
  let ret := <["cores" :=
                 VString (QJsonValue.toString (QJsonObject.value rootObject KEY_CORES))]> ret in
  if negb (QJsonObject.contains rootObject KEY_MEM)
  then inl (ThrowLiteral "Missing 'mem'")
  else
  let ret := <["mem" :=
                 VString (QJsonValue.toString (QJsonObject.value rootObject KEY_MEM))]> ret in
  if negb (QJsonObject.contains rootObject KEY_HDD)
  then inl (ThrowLiteral "Missing 'hdd'")
  else
  let ret := <["hdd" :=
                 VString (QJsonValue.toString (QJsonObject.value rootObject KEY_HDD))]> ret in
  if negb (QJsonObject.contains rootObject KEY_DVD)
  then inl (ThrowLiteral "Missing 'dvd'")
  else
  let ret := <["dvd" :=
                 VString (QJsonValue.toString (QJsonObject.value rootObject KEY_DVD))]> ret in
  if negb (QJsonObject.contains rootObject KEY_FLASH1)
  then inl (ThrowLiteral "Missing 'flash1'")
  else
  let ret := <["flash1" :=
                 VString (QJsonValue.toString (QJsonObject.value rootObject KEY_FLASH1))]> ret in
  if negb (QJsonObject.contains rootObject KEY_FLASH2)
  then inl (ThrowLiteral "Missing 'flash2'")
  else
  let ret := <["flash2" :=
                 VString (QJsonValue.toString (QJsonObject.value rootObject KEY_FLASH2))]> ret in
  let ret :=
    if QJsonObject.contains rootObject KEY_VIRGLRENDERER
    then <[KEY_VIRGLRENDERER :=
             VBool (QJsonValue.toBool (QJsonObject.value rootObject KEY_VIRGLRENDERER))]> ret
    else <[KEY_VIRGLRENDERER := VBool false]> ret in
  let ret :=
    if QJsonObject.contains rootObject KEY_ENABLEFILESHARING
    then <[KEY_ENABLEFILESHARING :=
             VBool (QJsonValue.toBool (QJsonObject.value rootObject KEY_ENABLEFILESHARING))]> ret
    else <[KEY_ENABLEFILESHARING := VBool false]> ret in
  let ret :=
    if QJsonObject.contains rootObject KEY_EXTERNAL_WINDOW_ONLY
    then <[KEY_EXTERNAL_WINDOW_ONLY :=
             VBool (QJsonValue.toBool (QJsonObject.value rootObject KEY_EXTERNAL_WINDOW_ONLY))]> ret
    else ret in
  inr ret
  | _ => inl (ThrowString (errorString jsonErr))
  end.

(** [VMManager::refreshVMs]: an entry whose decoding throws is skipped. *)
Definition refreshVMs (h : Host) (this : VMManager) : IO VMManager :=
  paths ← readFS (λ fs, QDirIterator.entries fs (appDataLocation h) "info.json");
  this ← setRefreshing true this;
  vms ← readFS (λ fs,
    foldl (λ (vms : list (gmap string QVariant)) filePath,
             match listEntryForJSON fs filePath
                     (QFileInfo.canonicalPath fs filePath) with
             | inl _ => vms
             | inr vm => (vms ++ [vm])%list
             end) [] paths);
  let this := mkVMManager (m_refreshing this) vms in
  _ ← emit vmsChanged;
  setRefreshing false this.

(** [VMManager::fromQml]; [fresh] is the object [new Machine()] yields. *)
Definition fromQml (fresh : Machine) (vm : gmap string QVariant) : Machine :=
  {| storage := QVariant.toString (QVariant.value vm KEY_STORAGE);
     name := QVariant.toString (QVariant.value vm KEY_DESC);
     arch := QVariant.toString (QVariant.value vm KEY_ARCH);
     cores := QVariant.toInt (QVariant.value vm KEY_CORES);
     mem := QVariant.toInt (QVariant.value vm KEY_MEM);
     hdd := QVariant.toString (QVariant.value vm KEY_HDD);
     dvd := QVariant.toString (QVariant.value vm KEY_DVD);
     flash1 := QVariant.toString (QVariant.value vm KEY_FLASH1);
     flash2 := QVariant.toString (QVariant.value vm KEY_FLASH2);
     hddSize := hddSize fresh;
     useVirglrenderer := QVariant.toBool (QVariant.value vm KEY_VIRGLRENDERER);
     enableFileSharing := QVariant.toBool (QVariant.value vm KEY_ENABLEFILESHARING);
     externalWindowOnly := QVariant.toBool (QVariant.value vm KEY_EXTERNAL_WINDOW_ONLY) |}.

(** [VMManager::machineToJSON], in two parts: the [QJsonObject] it fills,
    and the document written out. *)
Definition machineObject (machine : Machine) : gmap string QJsonValue :=
  let rootObject : gmap string QJsonValue := ∅ in
  let rootObject := <[KEY_DESC := JString (name machine)]> rootObject in
  let rootObject := <[KEY_ARCH := JString (arch machine)]> rootObject in
  let rootObject :=
    <[KEY_CORES := JString (QString.number (cores machine))]> rootObject in
  let rootObject :=
    <[KEY_MEM := JString (QString.number (mem machine))]> rootObject in
  let rootObject := <[KEY_DVD := JString (dvd machine)]> rootObject in
  let rootObject := <[KEY_HDD := JString (hdd machine)]> rootObject in
  let rootObject := <[KEY_FLASH1 := JString (flash1 machine)]> rootObject in
  let rootObject := <[KEY_FLASH2 := JString (flash2 machine)]> rootObject in
  let rootObject :=
    <[KEY_VIRGLRENDERER := JBool (useVirglrenderer machine)]> rootObject in
  let rootObject :=
    <[KEY_ENABLEFILESHARING := JBool (enableFileSharing machine)]> rootObject in
  let rootObject :=
    <[KEY_EXTERNAL_WINDOW_ONLY := JBool (externalWindowOnly machine)]> rootObject in
  rootObject.

Definition machineToJSON (machine : Machine) : string :=
  Writer.toJson (DocObject (machineObject machine)).

(** [VMManager::resetEFIFirmware]: copy the EFI firmware to storage. *)
Definition resetEFIFirmware (h : Host) (machine : Machine) :
    IO (bool * Machine) :=
  let pwd := applicationDirPath h in
  let efiFw := pwd +:+ "/efi/" +:+ arch machine +:+ "/code.fd" in
  let efiFwTarget := storage machine +:+ "/efi.fd" in
  targetExists ← readFS (λ fs, QFile.exists_ fs efiFwTarget);
  _ ← when targetExists (
        _ ← qDebug ["Attempting to remove existing target"; efiFwTarget];
        removed ← withFS (QFile.remove efiFwTarget);
        when (negb removed)
          (qWarning ["Failed to remove existing target"; efiFwTarget]));
  copied ← withFS (QFile.copy efiFw efiFwTarget);
  if negb copied then
    _ ← qWarning ["Failed to copy"; efiFw; "EFI firmware to target"; efiFwTarget];
    mret (false, machine)
  else mret (true, set_flash1 efiFwTarget machine).

(** [VMManager::resetEFINVRAM]: copy the EFI NVRAM to storage. *)
Definition resetEFINVRAM (h : Host) (machine : Machine) :
    IO (bool * Machine) :=
  let pwd := applicationDirPath h in
  let varsArch := if String.eqb (arch machine) "aarch64" then "arm" else "i386" in
  let efiVars := pwd +:+ "/share/qemu/edk2-" +:+ varsArch +:+ "-vars.fd" in
  let efiVarsTarget := storage machine +:+ "/efi_nvram.fd" in
  targetExists ← readFS (λ fs, QFile.exists_ fs efiVarsTarget);
  _ ← when targetExists (
        _ ← qDebug ["Attempting to remove existing target"; efiVarsTarget];
        removed ← withFS (QFile.remove efiVarsTarget);
        when (negb removed)
          (qWarning ["Failed to remove existing target"; efiVarsTarget]));
  copied ← withFS (QFile.copy efiVars efiVarsTarget);
  if negb copied then
    _ ← qWarning ["Failed to copy"; efiVars; "EFI NVRAM to target"; efiVarsTarget];
    mret (false, machine)
  else mret (true, set_flash2 efiVarsTarget machine).

(** The braced blocks of [createVM], in the order of the source: the
    directory storing the VM, the QCOW2 image for the HDD (the result is
    [false] when qemu-img exits with a non-zero code) and, last, the VM
    metadata. *)
Definition createVM_directory (vmDirPath : string) : IO unit :=
  vmDirExists ← readFS (λ fs, QDir.exists_ fs vmDirPath);
  when (negb vmDirExists) (_ ← withFS (QDir.mkpath vmDirPath); mret tt).

Definition createVM_hdd (h : Host) (vmDirPath : string) (machine : Machine) :
    IO (bool * Machine) :=
  let pwd := applicationDirPath h in
  let qemuImgBin := pwd +:+ "/bin/qemu-img" in
  let hddPath := vmDirPath +:+ "/hdd.qcow2" in
  let qemuImgArgs :=
    ["create"; "-f"; "qcow2"; hddPath;
     QString.number (hddSize machine) +:+ "G"] in
  _ ← qDebug ("Creating qcow2 image with arguments:" :: qemuImgArgs);
  '(exitCode, standardError) ← withFS (runProcess h qemuImgBin qemuImgArgs);
  if negb (exitCode =? 0) then
    _ ← qWarning ["qemu-img failed:"; standardError];
    mret (false, machine)
  else mret (true, set_hdd hddPath machine).

Definition createVM_metadata (vmDirPath : string) (machine : Machine) :
    IO bool :=
  let jsonFilePath := vmDirPath +:+ "/info.json" in
  opened ← withFS (QFile.openReadWrite false jsonFilePath);
  if negb opened then
    _ ← qWarning ["Failed to open JSON file for writing"];
    mret false
  else
    _ ← withFS (λ fs, (tt, QFile.write jsonFilePath (machineToJSON machine) fs));
    mret true.

(** [VMManager::createVM].  The machine is passed by pointer: the result
    carries the object as the call leaves it ([None] for a null pointer).
    The block that would move the DVD image is compiled out ([#if 0]). *)
Definition createVM (h : Host) (machine : option Machine) :
    IO (bool * option Machine) :=
  match machine with
  | None =>
      _ ← qWarning ["nullptr machine provided"];
      mret (false, None)
  | Some machine =>
      uuid ← nextUuid h;
      let vmDirPath := appDataLocation h +:+ "/" +:+ uuid in
      let machine := set_storage vmDirPath machine in
      _ ← createVM_directory vmDirPath;
      '(ret, machine) ← createVM_hdd h vmDirPath machine;
      if negb ret then mret (false, Some machine)
      else
        '(ret, machine) ← resetEFIFirmware h machine;
        if negb ret then mret (false, Some machine)
        else
          '(ret, machine) ← resetEFINVRAM h machine;
          if negb ret then mret (false, Some machine)
          else
            ret ← createVM_metadata vmDirPath machine;
            mret (ret, Some machine)
  end.

(** [VMManager::editVM] *)
Definition editVM (machine : option Machine) : IO bool :=
  match machine with
  | None =>
      _ ← qWarning ["nullptr machine provided"];
      mret false
  | Some machine =>
      let jsonFilePath := storage machine +:+ "/info.json" in
      opened ← withFS (QFile.openReadWrite true jsonFilePath);
      if negb opened then
        _ ← qWarning ["Failed to open JSON file for writing"];
        mret false
      else
        _ ← withFS (λ fs, (tt, QFile.write jsonFilePath
                                 (machineToJSON machine) fs));
        mret true
  end.

(** [VMManager::canVirtualize] *)
Definition canVirtualize (h : Host) (arch : string) : IO bool :=
  let currentCpuType := currentCpuArchitecture h in
  let machineType :=
    if String.eqb currentCpuType "arm64" then "aarch64" else currentCpuType in
  _ ← qDebug ["uname"; machineType; "vs arch"; arch];
  let kvmPath := "/dev/kvm" in
  kvmExists ← readFS (λ fs, QFile.exists_ fs kvmPath);
  if negb kvmExists then
    _ ← qWarning ["KVM is not enabled on this kernel or device."];
    mret false
  else
    readable ← readFS (λ fs, QFileInfo.isReadable fs kvmPath);
    if negb readable then
      _ ← qWarning ["/dev/kvm is not readable."];
      mret false
    else
      writable ← readFS (λ fs, QFileInfo.isWritable fs kvmPath);
      if negb writable then
        _ ← qWarning ["/dev/kvm is not writable."];
        mret false
      else mret (String.eqb machineType arch).

(** [VMManager::deleteVM].  The pointer is dereferenced without a test:
    the function is modelled on a machine. *)
Definition deleteVM (s : System) (machine : Machine) : IO bool :=
  _ ← qDebug ["Deleting:"; storage machine];
  withFS (Tree.removeRecursively
            (Tree.absolutePath (currentPath s) (storage machine))).

(** [VMManager::maxRam].  The divisions and the subtraction are made in
    [unsigned long]; the result is converted to [int]. *)
Definition maxRam (s : System) : Z :=
  match sysinfo_totalram s with
  | Some totalram =>
      to_int (to_unsigned (long_bits s) (totalram / 1024 / 1024 - 2048))
  | None => 4096
  end.

(** [VMManager::maxCores].  [sysconf] returns a [long], at least -1. *)
Definition maxCores (s : System) : Z :=
  to_int (nprocessors_conf s - 1).

(** [VMManager::maxHddSize].  The product is made in the wider of
    [unsigned long] and [fsblkcnt_t]. *)
Definition maxHddSize (h : Host) (s : System) : Z :=
  let path := appDataLocation h in
  match statvfs s path with
  | Some (f_bsize, f_bfree) =>
      to_int (to_unsigned (Z.max (long_bits s) (fsblkcnt_bits s))
                (f_bsize * f_bfree) / 1024 / 1024 / 1024)
  | None => 32
  end.

(** ** The text of a flat object, as the writer lays it out *)

Module JsonText.

Definition scalar (v : QJsonValue) : Prop :=
  match v with
  | JNull | JBool _ | JString _ => True
  | _ => False
  end.

(** An object whose members are strings, booleans and nulls. *)
Definition flat (o : gmap string QJsonValue) : Prop :=
  ∀ k v, o !! k = Some v → scalar v.

Definition render (kv : string * QJsonValue) : string * string :=
  (kv.1, Writer.valueToJson 1 kv.2).

(** The text that follows a member's value, up to the end of the object. *)
Fixpoint after (l : list (string * QJsonValue)) (tail : string) : string :=
  match l with
  | [] => String c_nl (String "}" tail)
  | kv :: l' =>
      String "," (String c_nl ("    " +:+ String c_quote
        (Writer.escapedString kv.1 +:+ String c_quote
           (": " +:+ Writer.valueToJson 1 kv.2 +:+ after l' tail))))
  end.

(** The text of the members from the first key on, its opening quote
    excluded. *)
Definition body (kv : string * QJsonValue) (l : list (string * QJsonValue))
    (tail : string) : string :=
  Writer.escapedString kv.1 +:+ String c_quote
    (": " +:+ Writer.valueToJson 1 kv.2 +:+ after l tail).

(** What the reader does with a member it has read. *)
Definition put (acc : gmap string QJsonValue) (kv : string * QJsonValue) :
    gmap string QJsonValue :=
  <[kv.1 := kv.2]> acc.

End JsonText.

(** ** The firmware steps, seen from the file system *)

Module Provision.

(** What a firmware step does to the file system: a stale target is
    removed when it can be, then the source is copied. *)
Definition run (src target : string) (fs : FileSystem) : bool * FileSystem :=
  QFile.copy src target
    (if QFile.exists_ fs target then (QFile.remove target fs).2 else fs).

(** The paths of [resetEFIFirmware] and [resetEFINVRAM]. *)
Definition efiFw (h : Host) (m : Machine) : string :=
  applicationDirPath h +:+ "/efi/" +:+ arch m +:+ "/code.fd".

Definition efiFwTarget (m : Machine) : string := storage m +:+ "/efi.fd".

Definition efiVars (h : Host) (m : Machine) : string :=
  applicationDirPath h +:+ "/share/qemu/edk2-"
    +:+ (if String.eqb (arch m) "aarch64" then "arm" else "i386")
    +:+ "-vars.fd".

Definition efiVarsTarget (m : Machine) : string :=
  storage m +:+ "/efi_nvram.fd".

End Provision.

(** ** The vocabulary of the specification *)

Module Spec.

(** The required fields, in the order of the schema. *)
Definition required_fields : list string :=
  [KEY_DESC; KEY_ARCH; KEY_CORES; KEY_MEM; KEY_HDD; KEY_DVD; KEY_FLASH1;
   KEY_FLASH2].

Definition first_missing (o : gmap string QJsonValue) : option string :=
  List.find (λ k, negb (QJsonObject.contains o k)) required_fields.

(** The architecture a payload names. *)
Definition arch_of (o : gmap string QJsonValue) : string :=
  QJsonValue.toString (QJsonObject.value o KEY_ARCH).

(** The failure that names a missing field. *)
Definition missing (field : string) : Thrown :=
  ThrowLiteral ("Missing '" +:+ field +:+ "'").

(** A valid VM record: a known architecture, and sizes that are C++
    [int]s. *)
Definition valid_record (r : Machine) : Prop :=
  arch r ∈ VALID_ARCHES ∧ QString.is_int (cores r) ∧ QString.is_int (mem r).

(** The file at [path] can be read and holds a well-formed payload, the
    JSON object [o]. *)
Definition holds_object (fs : FileSystem) (path : string)
    (o : gmap string QJsonValue) : Prop :=
  QFile.exists_ fs path = true ∧ QFile.openReadOnly fs path = true
  ∧ Parser.fromJson (QFile.readAll fs path) = (NoError, DocObject o).

(** What decoding yields, when it yields a record. *)
Definition decoded (fs : FileSystem) (path : string) :
    option (gmap string QVariant) :=
  match listEntryForJSON fs path (QFileInfo.canonicalPath fs path) with
  | inr vm => Some vm
  | inl _ => None
  end.

End Spec.

(** ** A sample host and file system *)

Module Sample.

Definition appData : string := "/home/phablet/.local/share/pvms.me.fredl".
Definition appDir : string := "/opt/click.ubuntu.com/pvms.me.fredl/current".

(** A stand-in for [qemu-img create -f qcow2 <path> <size>]: the image is
    created when its directory accepts it. *)
Definition qemu_img (program : string) (args : list string)
    (fs : FileSystem) : (Z * string) * FileSystem :=
  match args with
  | [_; _; _; target; size] =>
      if parentWritable fs target
      then ((0, EmptyString),
            set_files (insert target (mkFile ("QFI " +:+ size) true true)) fs)
      else ((1, "qemu-img: Could not create image"), fs)
  | _ => ((1, "qemu-img: Invalid arguments"), fs)
  end.

Definition host : Host :=
  {| appDataLocation := appData;
     applicationDirPath := appDir;
     currentCpuArchitecture := "arm64";
     createUuid n := "{vm-" +:+ QString.number (Z.of_nat n) +:+ "}";
     runProcess := qemu_img |}.

(** A host whose disk is full: qemu-img fails and writes nothing. *)
Definition fullDiskHost : Host :=
  {| appDataLocation := appData;
     applicationDirPath := appDir;
     currentCpuArchitecture := "arm64";
     createUuid n := "{vm-" +:+ QString.number (Z.of_nat n) +:+ "}";
     runProcess _ _ fs := ((1, "qemu-img: No space left"), fs) |}.

Definition assets : gmap string FileNode :=
  <[appDir +:+ "/efi/x86_64/code.fd" := mkFile "OVMF" true false]>
  (<[appDir +:+ "/efi/aarch64/code.fd" := mkFile "AAVMF" true false]>
  (<[appDir +:+ "/share/qemu/edk2-i386-vars.fd" := mkFile "VARS-i386" true false]>
  (<[appDir +:+ "/share/qemu/edk2-arm-vars.fd" := mkFile "VARS-arm" true false]>
  (<["/dev/kvm" := mkFile EmptyString true true]> ∅)))).

Definition disk : FileSystem :=
  {| files := assets;
     dirs := <[appData := true]>
               (list_to_map
                  ((λ d, (d, false))
                     <$> QDir.chain EmptyString EmptyString appData)) |}.

Definition world : World :=
  {| fs := disk; uuids := 0; log := []; emitted := [] |}.

Definition draft : Machine :=
  {| storage := EmptyString; name := "Debian"; arch := "x86_64";
     cores := 2; mem := 2048; hdd := EmptyString; dvd := "/tmp/debian.iso";
     flash1 := EmptyString; flash2 := EmptyString; hddSize := 8;
     useVirglrenderer := false; enableFileSharing := false;
     externalWindowOnly := false |}.

Definition fresh : Machine :=
  {| storage := EmptyString; name := EmptyString; arch := EmptyString;
     cores := 0; mem := 0; hdd := EmptyString; dvd := EmptyString;
     flash1 := EmptyString; flash2 := EmptyString; hddSize := 0;
     useVirglrenderer := false; enableFileSharing := false;
     externalWindowOnly := false |}.

Definition vmDir : string := appData +:+ "/{vm-0}".
Definition infoPath : string := vmDir +:+ "/info.json".

(** [disk] with one VM directory whose metadata file holds [bytes]. *)
Definition diskWith (bytes : string) : FileSystem :=
  {| files := <[infoPath := mkFile bytes true true]> assets;
     dirs := <[vmDir := true]> (dirs disk) |}.

(** A payload with every required field and none of the optional ones. *)
Definition minimal (archName : string) : gmap string QJsonValue :=
  <[KEY_DESC := JString "Debian"]>
  (<[KEY_ARCH := JString archName]>
  (<[KEY_CORES := JString "2"]>
  (<[KEY_MEM := JString "2048"]>
  (<[KEY_HDD := JString (vmDir +:+ "/hdd.qcow2")]>
  (<[KEY_DVD := JString EmptyString]>
  (<[KEY_FLASH1 := JString (vmDir +:+ "/efi.fd")]>
  (<[KEY_FLASH2 := JString (vmDir +:+ "/efi_nvram.fd")]> ∅))))))).

(** A payload with an unknown architecture and no [cores]. *)
Definition mipsNoCores : gmap string QJsonValue :=
  delete KEY_CORES (minimal "mips").

Definition payload (o : gmap string QJsonValue) : string :=
  Writer.toJson (DocObject o).

Definition mipsDisk : FileSystem := diskWith (payload mipsNoCores).

(** A record as [createVM] leaves it for [draft]. *)
Definition record : Machine :=
  {| storage := vmDir; name := "Debian"; arch := "x86_64";
     cores := 2; mem := 2048; hdd := vmDir +:+ "/hdd.qcow2";
     dvd := "/tmp/debian.iso"; flash1 := vmDir +:+ "/efi.fd";
     flash2 := vmDir +:+ "/efi_nvram.fd"; hddSize := 8;
     useVirglrenderer := false; enableFileSharing := false;
     externalWindowOnly := false |}.

(** A world whose disk holds the directory of one VM. *)
Definition vmWorld : World :=
  {| fs := diskWith (payload (minimal "x86_64"));
     uuids := 1; log := []; emitted := [] |}.

(** A draft for an architecture no firmware is shipped for. *)
Definition riscvDraft : Machine :=
  {| storage := EmptyString; name := "Alpine"; arch := "riscv64";
     cores := 1; mem := 512; hdd := EmptyString; dvd := EmptyString;
     flash1 := EmptyString; flash2 := EmptyString; hddSize := 4;
     useVirglrenderer := false; enableFileSharing := false;
     externalWindowOnly := false |}.

(** A second VM directory whose metadata file is empty. *)
Definition emptyInfo : string := appData +:+ "/{vm-1}/info.json".

Definition twoVMs : World :=
  {| fs := set_files (insert emptyInfo (mkFile EmptyString true true))
             (fs vmWorld);
     uuids := 2; log := []; emitted := [] |}.

(** The sample world without the virtualization device. *)
Definition noKvm : World :=
  {| fs := set_files (delete "/dev/kvm") disk;
     uuids := 0; log := []; emitted := [] |}.

(** The operating system of a 64-bit device with 3 GiB of memory, eight
    processors and some 19 GiB free, and of a 32-bit one. *)
Definition system : System :=
  {| currentPath := appDir;
     long_bits := 64; fsblkcnt_bits := 64;
     sysinfo_totalram := Some 3221225472;
     nprocessors_conf := 8;
     statvfs p := if String.eqb p appData then Some (4096, 5000000) else None |}.

Definition system32 : System :=
  {| currentPath := appDir;
     long_bits := 32; fsblkcnt_bits := 32;
     sysinfo_totalram := Some 1073741824;
     nprocessors_conf := 4;
     statvfs p := if String.eqb p appData then Some (4096, 5000000) else None |}.

End Sample.

(** * Properties *)

(** ** Strings *)

Lemma append_assoc (a b c : string) : (a +:+ b) +:+ c = a +:+ (b +:+ c).
Proof. induction a as [|x a IH]; simpl; [done | by rewrite IH]. Qed.

Lemma length_append (a b : string) :
  String.length (a +:+ b) = (String.length a + String.length b)%nat.
Proof. induction a as [|x a IH]; simpl; [done | by rewrite IH]. Qed.

(** ** The reader never exhausts its bound *)

Module Reader.
Import Parser.

#[local] Open Scope nat_scope.

Abbreviation len := String.length.

Lemma eatSpace_length s : len (eatSpace s) ≤ len s.
Proof.
  induction s as [|c s IH]; [done|]. cbn [eatSpace].
  destruct (isSpace c); cbn [String.length]; lia.
Qed.

Lemma nextToken_length s t r :
  nextToken s = (t, r) → len r ≤ len s ∧ (t ≠ TNone → len r < len s).
Proof.
  unfold nextToken. pose proof (eatSpace_length s) as Hs.
  destruct (eatSpace s) as [|c s'] eqn:E; [by intros [= <- <-]|].
  cbn [String.length] in Hs. pose proof (eatSpace_length s') as Hs'.
  intros H. repeat case_match; injection H as <- <-; split; (lia || done).
Qed.

Lemma parseString_length_aux n : ∀ s t rest,
  len s ≤ n → parseString s = inr (t, rest) → len rest < len s.
Proof.
  induction n as [|n IH]; intros s t rest Hn.
  - destruct s; [done | cbn in Hn; lia].
  - destruct s as [|c r]; [done|]. cbn [String.length] in Hn.
    cbn [parseString]. destruct (Ascii.eqb c c_quote).
    { intros [= <- <-]. cbn. lia. }
    destruct (Ascii.eqb c c_backslash).
    + destruct r as [|e r1]; [done|].
      assert (∀ x, match parseString r1 with
                   | inr (t0, rest0) => inr (String (unescape e) t0, rest0)
                   | inl e0 => inl e0
                   end = inr (x, rest) → len rest < S (S (len r1))) as Hplain.
      { intros x. destruct (parseString r1) as [|[t0 rest0]] eqn:E; [done|].
        intros [= <- <-]. apply IH in E; cbn in *; lia. }
      destruct (Ascii.eqb e "u") eqn:Hu.
      * apply Ascii.eqb_eq in Hu as ->.
        destruct r1 as [|h1 [|h2 [|h3 [|h4 r2]]]]; try done.
        destruct (hex4 h1 h2 h3 h4); [|done].
        destruct (parseString r2) as [|[t0 rest0]] eqn:E; [done|].
        intros [= <- <-]. apply IH in E; cbn in *; lia.
      * intros H. apply (Hplain t). revert H. clear -Hu.
        destruct e as [[|] [|] [|] [|] [|] [|] [|] [|]]; try done.
    + destruct (parseString r) as [|[t0 rest0]] eqn:E; [done|].
      intros [= <- <-]. apply IH in E; cbn in *; lia.
Qed.

Lemma parseString_length s t rest :
  parseString s = inr (t, rest) → len rest < len s.
Proof. by apply (parseString_length_aux (len s)). Qed.

Lemma parseString_fuel s : parseString s ≠ inl OutOfFuel.
Proof.
  assert (∀ n s, len s ≤ n → parseString s ≠ inl OutOfFuel) as H;
    [|by apply (H (len s))].
  clear s. induction n as [|n IH]; intros s Hn;
    [destruct s; [done | cbn in Hn; lia]|].
  destruct s as [|c r]; [done|]. cbn [String.length] in Hn.
  cbn [parseString]. repeat case_match; try done; subst;
    match goal with
    | H : parseString ?x = inl OutOfFuel |- _ =>
        apply (IH x) in H; [done | cbn [String.length] in *; lia]
    | |- inl ?e ≠ _ => idtac
    end.
  all: intros [= ->];
    match goal with
    | H : parseString ?x = inl OutOfFuel |- _ =>
        apply (IH x) in H; [done | cbn [String.length] in *; lia]
    end.
Qed.

Lemma accept_length p s : len (accept p s).2 ≤ len s.
Proof.
  destruct s as [|c r]; [done|]. cbn [accept].
  destruct (p c); cbn [snd String.length]; lia.
Qed.

Lemma skipDigits_length s : len (skipDigits s) ≤ len s.
Proof.
  induction s as [|c r IH]; [done|]. cbn [skipDigits].
  destruct (isDigit c); cbn [String.length]; lia.
Qed.

Lemma parseNumber_length s v rest :
  parseNumber s = inr (v, rest) → len rest ≤ len s.
Proof.
  unfold parseNumber.
  pose proof (accept_length (Ascii.eqb "-") s) as H1.
  destruct (accept (Ascii.eqb "-") s) as [? s1]. cbn [snd] in H1.
  pose proof (accept_length (Ascii.eqb "0") s1) as H2.
  pose proof (skipDigits_length s1) as H2'.
  destruct (accept (Ascii.eqb "0") s1) as [zero afterZero]. cbn [snd] in H2.
  set (s2 := if zero then afterZero else skipDigits s1).
  assert (len s2 ≤ len s1) as Hs2 by (subst s2; by destruct zero).
  pose proof (accept_length (Ascii.eqb ".") s2) as H3.
  destruct (accept (Ascii.eqb ".") s2) as [dot afterDot]. cbn [snd] in H3.
  pose proof (skipDigits_length afterDot) as H3'.
  set (s3 := if dot then skipDigits afterDot else s2).
  assert (len s3 ≤ len s2) as Hs3 by (subst s3; destruct dot; lia).
  pose proof (accept_length (λ c, Ascii.eqb c "e" || Ascii.eqb c "E") s3) as H4.
  destruct (accept _ s3) as [e afterE]. cbn [snd] in H4.
  pose proof (accept_length (λ c, Ascii.eqb c "-" || Ascii.eqb c "+") afterE)
    as H5.
  destruct (accept _ afterE) as [? afterSign]. cbn [snd] in H5.
  pose proof (skipDigits_length afterSign) as H5'.
  set (s4 := if e then skipDigits afterSign else s3).
  assert (len s4 ≤ len s3) as Hs4 by (subst s4; destruct e; lia).
  destruct s4 as [|c4 r4] eqn:E4; [done|].
  case_match; [|done]. intros [= <- <-]. lia.
Qed.

Lemma parseNumber_fuel s : parseNumber s ≠ inl OutOfFuel.
Proof. unfold parseNumber. by repeat case_match. Qed.

Lemma stripPrefix_length lit : ∀ s rest,
  stripPrefix lit s = Some rest → len rest ≤ len s.
Proof.
  induction lit as [|a lit IH]; intros s rest.
  - by intros [= ->].
  - destruct s as [|b s]; [done|]. cbn [stripPrefix].
    destruct (Ascii.eqb a b); [|done]. intros H%IH. cbn. lia.
Qed.

Lemma literal_length lit v s v' rest :
  literal lit v s = inr (v', rest) → len rest ≤ len s.
Proof.
  unfold literal. destruct (stripPrefix lit s) as [r|] eqn:E; [|done].
  intros [= <- <-]. by apply stripPrefix_length in E.
Qed.

Lemma literal_fuel lit v s : literal lit v s ≠ inl OutOfFuel.
Proof. unfold literal. by case_match. Qed.

Ltac use_token H :=
  apply nextToken_length in H as [? ?].

(** Every function of the reader returns a text no longer than the one it
    was given and, given three steps for every character (and one to three
    more), does not exhaust the bound. *)
Lemma reader_bounds f :
  (∀ lvl s,
     (∀ v rest, parseValue f lvl s = inr (v, rest) → len rest ≤ len s)
     ∧ (3 * len s + 1 ≤ f → parseValue f lvl s ≠ inl OutOfFuel))
  ∧ (∀ lvl s,
       (∀ o rest, parseObject f lvl s = inr (o, rest) → len rest ≤ len s)
       ∧ (3 * len s + 3 ≤ f → parseObject f lvl s ≠ inl OutOfFuel))
  ∧ (∀ lvl acc t s,
       (∀ o rest, parseMembers f lvl acc t s = inr (o, rest) →
          len rest ≤ len s)
       ∧ (3 * len s + 2 ≤ f → parseMembers f lvl acc t s ≠ inl OutOfFuel))
  ∧ (∀ lvl s,
       (∀ l rest, parseArray f lvl s = inr (l, rest) → len rest ≤ len s)
       ∧ (3 * len s + 3 ≤ f → parseArray f lvl s ≠ inl OutOfFuel))
  ∧ (∀ lvl s,
       (∀ l rest, parseItems f lvl s = inr (l, rest) → len rest ≤ len s)
       ∧ (3 * len s + 2 ≤ f → parseItems f lvl s ≠ inl OutOfFuel)).
Proof.
  induction f as [|f (IHV & IHO & IHM & IHA & IHI)].
  { repeat split; intros; (done || lia). }
  assert (∀ lvl s l rest, parseArray f lvl s = inr (l, rest) →
            len rest ≤ len s) as LA by (intros; by eapply IHA).
  assert (∀ lvl s o rest, parseObject f lvl s = inr (o, rest) →
            len rest ≤ len s) as LO by (intros; by eapply IHO).
  assert (∀ lvl s v rest, parseValue f lvl s = inr (v, rest) →
            len rest ≤ len s) as LV by (intros; by eapply IHV).
  assert (∀ lvl acc t s o rest, parseMembers f lvl acc t s = inr (o, rest) →
            len rest ≤ len s) as LM by (intros; by eapply IHM).
  assert (∀ lvl s l rest, parseItems f lvl s = inr (l, rest) →
            len rest ≤ len s) as LI by (intros; by eapply IHI).
  assert (∀ lvl s, 3 * len s + 1 ≤ f → parseValue f lvl s ≠ inl OutOfFuel)
    as FV by (intros; by apply IHV).
  assert (∀ lvl s, 3 * len s + 3 ≤ f → parseObject f lvl s ≠ inl OutOfFuel)
    as FO by (intros; by apply IHO).
  assert (∀ lvl acc t s, 3 * len s + 2 ≤ f →
            parseMembers f lvl acc t s ≠ inl OutOfFuel)
    as FM by (intros; by apply IHM).
  assert (∀ lvl s, 3 * len s + 3 ≤ f → parseArray f lvl s ≠ inl OutOfFuel)
    as FA by (intros; by apply IHA).
  assert (∀ lvl s, 3 * len s + 2 ≤ f → parseItems f lvl s ≠ inl OutOfFuel)
    as FI by (intros; by apply IHI).
  clear IHV IHO IHM IHA IHI.
  split; [|split; [|split; [|split]]].
  - (* parseValue *)
    intros lvl [|c r]; [done|]. cbn [parseValue]. unfold mbind, sum_bind.
    split.
    + intros v rest.
      destruct c as [[|] [|] [|] [|] [|] [|] [|] [|]];
        first
          [ apply parseNumber_length
          | intros H%literal_length; cbn [String.length]; lia
          | done
          | destruct (parseString r) as [|[t rest']] eqn:E; [done|];
            intros [= <- <-]; apply parseString_length in E;
            cbn [String.length]; lia
          | destruct (parseArray f (S lvl) r) as [|[t rest']] eqn:E; [done|];
            intros [= <- <-]; apply LA in E; cbn [String.length]; lia
          | destruct (parseObject f (S lvl) r) as [|[t rest']] eqn:E; [done|];
            intros [= <- <-]; apply LO in E; cbn [String.length]; lia ].
    + intros Hf. cbn [String.length] in Hf.
      destruct c as [[|] [|] [|] [|] [|] [|] [|] [|]];
        first
          [ apply parseNumber_fuel
          | apply literal_fuel
          | done
          | pose proof (parseString_fuel r);
            destruct (parseString r) as [|[t rest']]; congruence
          | pose proof (FA (S lvl) r ltac:(lia));
            destruct (parseArray f (S lvl) r) as [|[t rest']]; congruence
          | pose proof (FO (S lvl) r ltac:(lia));
            destruct (parseObject f (S lvl) r) as [|[t rest']]; congruence ].
  - (* parseObject *)
    intros lvl s. cbn [parseObject].
    destruct (bool_decide (nestingLimit < lvl)); [done|].
    destruct (nextToken s) as [token r] eqn:E. use_token E.
    split.
    + intros o rest Hm%LM. lia.
    + intros Hf. apply FM. lia.
  - (* parseMembers *)
    intros lvl acc token s. cbn [parseMembers]. unfold mbind, sum_bind.
    destruct token; try done;
      try (split; [intros o rest [= <- <-]; lia | done]).
    pose proof (parseString_fuel s) as Hs.
    destruct (parseString s) as [e|[key r1]] eqn:E1.
    { cbv beta iota. split; [done | intros _; congruence]. }
    cbv beta iota.
    apply parseString_length in E1.
    destruct (nextToken r1) as [t1 r2] eqn:E2. use_token E2.
    destruct t1; try done. destruct r2 as [|c2 r2'] eqn:Er2; [done|].
    rewrite <- Er2 in *. clear Er2 c2 r2'.
    assert (len r2 < len r1) as Hr2 by auto.
    pose proof (FV lvl r2) as Hv.
    destruct (parseValue f lvl r2) as [e|[v r3]] eqn:E3.
    { split; [done|]. intros Hf [= ->]. apply Hv; [lia|done]. }
    apply LV in E3.
    destruct (nextToken r3) as [t3 r4] eqn:E4. use_token E4.
    destruct t3; try done.
    + split; [|done]. intros o rest [= <- <-]. lia.
    + assert (len r4 < len r3) as Hr4 by auto.
      destruct (nextToken r4) as [t5 r5] eqn:E5. use_token E5.
      destruct t5; try done;
        (split; [intros o rest Hm%LM; lia | intros Hf; apply FM; lia]).
  - (* parseArray *)
    intros lvl s. cbn [parseArray].
    destruct (bool_decide (nestingLimit < lvl)); [done|].
    pose proof (eatSpace_length s) as Hs.
    destruct (eatSpace s) as [|c r] eqn:E; [done|].
    pose proof (eatSpace_length r) as Hr. cbn [String.length] in Hs.
    destruct c as [[|] [|] [|] [|] [|] [|] [|] [|]];
      first
        [ split; [intros l rest [= <- <-]; lia | done]
        | split;
          [ intros l rest Hm%LI; cbn [String.length] in Hm; lia
          | intros Hf; apply FI; cbn [String.length]; lia ] ].
  - (* parseItems *)
    intros lvl s. cbn [parseItems]. unfold mbind, sum_bind.
    pose proof (eatSpace_length s) as Hs.
    destruct (eatSpace s) as [|c r] eqn:E; [done|]. rewrite <- E in *.
    clear E c r.
    pose proof (FV lvl (eatSpace s)) as Hv.
    destruct (parseValue f lvl (eatSpace s)) as [e|[v r1]] eqn:E1.
    { split; [done|]. intros Hf [= ->]. apply Hv; [lia|done]. }
    apply LV in E1.
    destruct (nextToken r1) as [t r2] eqn:E2. use_token E2.
    destruct t; try (by case_match).
    + split; [|done]. intros l rest [= <- <-]. lia.
    + assert (len r2 < len r1) as Hr2 by auto.
      pose proof (FI lvl r2) as Hi.
      destruct (parseItems f lvl r2) as [e|[vs r3]] eqn:E3.
      * split; [done|]. intros Hf [= ->]. apply Hi; [lia|done].
      * apply LI in E3. split; [|done]. intros l rest [= <- <-]. lia.
Qed.

(** The reader never reports that it exhausted its bound. *)
Lemma fromJson_fuel json : (fromJson json).1 ≠ OutOfFuel.
Proof.
  unfold fromJson.
  assert (len (eatBOM json) ≤ len json) as Hbom.
  { unfold eatBOM. repeat case_match; subst; cbn [String.length]; lia. }
  destruct (nextToken (eatBOM json)) as [t r] eqn:E. use_token E.
  destruct (reader_bounds (3 * len json + 3)) as (_ & HO & _ & HA & _).
  destruct t; try done.
  - pose proof (proj2 (HA 1 r) ltac:(lia)) as Hfuel.
    destruct (parseArray _ 1 r) as [e|[items rest]]; [cbn; congruence|].
    by case_match.
  - pose proof (proj2 (HO 1 r) ltac:(lia)) as Hfuel.
    destruct (parseObject _ 1 r) as [e|[o rest]]; [cbn; congruence|].
    by case_match.
Qed.

End Reader.

(** ** The reader inverts the writer on flat objects *)

Module RoundTrip.

Import JsonText.

Ltac norm_append :=
  repeat (progress cbn [String.append] || rewrite append_assoc).

Lemma parseString_escapedChar (c : ascii) (t : string) :
  Parser.parseString (Writer.escapedChar c +:+ t) =
  match Parser.parseString t with
  | inr (x, rest) => inr (String c x, rest)
  | inl e => inl e
  end.
Proof.
  destruct c as [[|] [|] [|] [|] [|] [|] [|] [|]]; cbn; reflexivity.
Qed.

Lemma parseString_escapedString (s rest : string) :
  Parser.parseString (Writer.escapedString s +:+ String c_quote rest) =
  inr (s, rest).
Proof.
  induction s as [|c s IH]; [done|].
  cbn [Writer.escapedString]. rewrite append_assoc.
  by rewrite parseString_escapedChar, IH.
Qed.

Lemma quoted_append (s tail : string) :
  Writer.quoted s +:+ tail =
  String c_quote (Writer.escapedString s +:+ String c_quote tail).
Proof.
  unfold Writer.quoted. cbn [String.append]. f_equal.
  rewrite append_assoc. by cbn [String.append].
Qed.

Lemma parseValue_scalar (fuel level : nat) (v : QJsonValue) (tail : string) :
  scalar v →
  Parser.parseValue (S fuel) level (Writer.valueToJson 1 v +:+ tail) =
  inr (v, tail).
Proof.
  destruct v as [|[|]| |s| |]; try done; intros _.
  cbn [Writer.valueToJson]. rewrite quoted_append.
  cbn [Parser.parseValue c_quote]. by rewrite parseString_escapedString.
Qed.

Lemma eatSpace_value (v : QJsonValue) (tail : string) :
  scalar v →
  Parser.eatSpace (Writer.valueToJson 1 v +:+ tail) =
  Writer.valueToJson 1 v +:+ tail ∧
  Writer.valueToJson 1 v +:+ tail ≠ EmptyString.
Proof. by destruct v as [|[|]| |s| |]. Qed.

Lemma content_body kv l tail :
  Writer.contentToJson 1 (map Writer.member (map render (kv :: l)))
    +:+ String "}" tail =
  "    " +:+ String c_quote (body kv l tail).
Proof.
  revert kv. induction l as [|kv' l IH]; intros kv.
  - cbn [map Writer.contentToJson Writer.indentString].
    unfold body, Writer.member, render; cbn [fst snd after].
    rewrite !append_assoc, quoted_append.
    by norm_append.
  - change (map Writer.member (map render (kv :: kv' :: l)))
      with (Writer.member (render kv)
              :: map Writer.member (map render (kv' :: l))).
    cbn [Writer.contentToJson Writer.indentString].
    destruct (map Writer.member (map render (kv' :: l))) as [|e es] eqn:He;
      [done|]. rewrite <- He. clear He e es.
    rewrite !append_assoc. rewrite IH.
    unfold body at 2. cbn [after].
    unfold Writer.member, render; cbn [fst snd].
    rewrite quoted_append. unfold body.
    by norm_append.
Qed.

Lemma parseMembers_body l : ∀ kv acc fuel level tail,
  scalar kv.2 → Forall (λ kv, scalar kv.2) l →
  (S (length l) < fuel)%nat →
  Parser.parseMembers fuel level acc Parser.TQuote (body kv l tail) =
  inr (foldl put (put acc kv) l, Parser.eatSpace tail).
Proof.
  induction l as [|kv' l IH]; intros kv acc fuel level tail Hkv Hl Hfuel.
  - destruct fuel as [|[|fuel]]; [simpl in Hfuel; lia..|].
    cbn [Parser.parseMembers]. unfold body.
    rewrite parseString_escapedString. cbn [mbind sum_bind].
    cbn [String.append Parser.nextToken Parser.eatSpace Parser.isSpace].
    destruct (eatSpace_value kv.2 (after [] tail) Hkv) as [-> Hne].
    destruct (Writer.valueToJson 1 kv.2 +:+ after [] tail) eqn:Hv; [done|].
    rewrite <- Hv. rewrite parseValue_scalar by done.
    cbn [mbind sum_bind after]. by cbn.
  - destruct fuel as [|[|fuel]]; [simpl in Hfuel; lia..|].
    apply Forall_cons in Hl as [Hkv' Hl].
    cbn [foldl].
    rewrite <- (IH kv' (put acc kv) (S fuel) level tail)
      by (try done; simpl in *; lia).
    cbn [Parser.parseMembers]. unfold body at 1.
    rewrite parseString_escapedString. cbn [mbind sum_bind].
    cbn [String.append Parser.nextToken Parser.eatSpace Parser.isSpace].
    destruct (eatSpace_value kv.2 (after (kv' :: l) tail) Hkv) as [-> Hne].
    destruct (Writer.valueToJson 1 kv.2 +:+ after (kv' :: l) tail) eqn:Hv;
      [done|].
    rewrite <- Hv. rewrite parseValue_scalar by done.
    cbn [mbind sum_bind after].
    cbn [String.append Parser.nextToken Parser.eatSpace Parser.isSpace c_nl
         c_quote].
    reflexivity.
Qed.

Lemma lookup_foldl_put l : ∀ acc k,
  NoDup l.*1 →
  foldl put acc l !! k =
  match (list_to_map l : gmap string QJsonValue) !! k with
  | Some v => Some v
  | None => acc !! k
  end.
Proof.
  induction l as [|[k' v'] l IH]; intros acc k Hnd; [done|].
  apply NoDup_cons in Hnd as [Hk' Hnd]. cbn [foldl list_to_map foldr].
  rewrite IH by done. unfold put; cbn [fst snd].
  destruct (decide (k = k')) as [->|Hne].
  - rewrite lookup_insert_eq.
    assert ((list_to_map l : gmap string QJsonValue) !! k' = None) as ->
      by by apply not_elem_of_list_to_map_1.
    by rewrite lookup_insert_eq.
  - by rewrite !lookup_insert_ne by done.
Qed.

Lemma foldl_put_list_to_map l :
  NoDup l.*1 → foldl put ∅ l = list_to_map l.
Proof.
  intros Hnd. apply map_eq; intros k. rewrite lookup_foldl_put by done.
  by destruct (list_to_map l !! k).
Qed.

Lemma length_contentToJson indent es :
  (length es ≤ String.length (Writer.contentToJson indent es))%nat.
Proof.
  induction es as [|e [|e' es] IH]; [simpl; lia| |].
  - cbn [Writer.contentToJson]. rewrite !length_append. simpl. lia.
  - cbn [Writer.contentToJson] in *. rewrite !length_append.
    cbn [String.length length] in *. lia.
Qed.

Lemma sortedMembers_render (o : gmap string QJsonValue) :
  ∃ l, Writer.sortedMembers (Writer.valueToJson 1 <$> o) = map render l
       ∧ map_to_list o ≡ₚ l.
Proof.
  apply Permutation_map_inv. unfold Writer.sortedMembers.
  rewrite merge_sort_Permutation, map_to_list_fmap. reflexivity.
Qed.

(** Reading what the writer produced for a flat object gives the object
    back. *)
Lemma fromJson_toJson (o : gmap string QJsonValue) :
  flat o →
  Parser.fromJson (Writer.toJson (DocObject o)) = (NoError, DocObject o).
Proof.
  intros Hflat.
  destruct (sortedMembers_render o) as (l & Hl & Hperm).
  assert (NoDup l.*1) as Hnd.
  { rewrite <- Hperm. apply NoDup_fst_map_to_list. }
  assert (Forall (λ kv, scalar kv.2) l) as Hsc.
  { apply Forall_forall. intros [k v] Hin. apply (Hflat k).
    apply elem_of_map_to_list. by rewrite Hperm. }
  assert (list_to_map l = o) as Ho.
  { rewrite <- (list_to_map_to_list o). symmetry.
    apply list_to_map_proper; [apply NoDup_fst_map_to_list | done]. }
  unfold Writer.toJson. cbn [Writer.valueToJson]. rewrite Hl.
  destruct l as [|kv l].
  - cbn in Ho. subst o. reflexivity.
  - apply Forall_cons in Hsc as [Hkv Hsc].
    rewrite !append_assoc. cbn [Writer.indentString String.append].
    pose proof (length_contentToJson 1
                  (map Writer.member (map render (kv :: l)))) as Hlen.
    rewrite !length_map in Hlen.
    assert (String.length
              (Writer.contentToJson 1
                 (map Writer.member (map render (kv :: l)))) ≤
            String.length
              (Writer.contentToJson 1
                 (map Writer.member (map render (kv :: l)))
               +:+ String "}" (String c_nl EmptyString)))%nat as Hlen'
      by (rewrite length_append; lia).
    rewrite (content_body kv l (String c_nl EmptyString)) in Hlen' |- *.
    unfold Parser.fromJson.
    remember ("    " +:+ String c_quote (body kv l (String c_nl EmptyString)))
      as inner eqn:Hinner.
    set (text := String "{" _).
    assert (S (S (S (length l))) < 3 * String.length text + 3)%nat as Hfuel.
    { subst text. cbn [String.length length] in *. lia. }
    destruct (3 * String.length text + 3)%nat as [|fuel]; [lia|].
    subst text inner.
    cbn [Parser.eatBOM Parser.nextToken Parser.eatSpace Parser.isSpace
         String.append c_nl c_quote Parser.parseObject].
    fold c_quote.
    rewrite bool_decide_eq_false_2 by (unfold Parser.nestingLimit; lia).
    cbn [Parser.nextToken Parser.eatSpace Parser.isSpace c_quote].
    rewrite parseMembers_body by (try done; lia).
    cbn [Parser.eatSpace Parser.isSpace c_nl].
    change (foldl put (put ∅ kv) l) with (foldl put ∅ (kv :: l)).
    by rewrite foldl_put_list_to_map, Ho.
Qed.

End RoundTrip.

(** ** [QVariant::toInt] inverts [QString::number] *)

Module Numbers.

Import QString.

Lemma rtrim_spaceless s : spaceless s → rtrim s = s.
Proof.
  induction s as [|c r IH]; [done|]. intros [Hc Hr].
  cbn [rtrim]. rewrite IH, Hc by done. by destruct r.
Qed.

Lemma trimmed_spaceless s : spaceless s → trimmed s = s.
Proof.
  intros Hs. unfold trimmed.
  destruct s as [|c r]; [done|]. destruct Hs as [Hc Hr].
  cbn [ltrim]. rewrite Hc. apply rtrim_spaceless. by split.
Qed.

Lemma spaceless_uint d : spaceless (NilEmpty.string_of_uint d).
Proof. induction d; by cbn. Qed.

Lemma spaceless_number n : spaceless (number n).
Proof.
  unfold number.
  destruct n as [|p|p]; cbn [Z.to_int NilZero.string_of_int]; [by cbn|..].
  - unfold NilZero.string_of_uint.
    destruct (Pos.to_uint p) eqn:E; try apply spaceless_uint. by cbn.
  - split; [done|]. unfold NilZero.string_of_uint.
    destruct (Pos.to_uint p) eqn:E; try apply spaceless_uint. by cbn.
Qed.

Lemma number_not_plus n r : number n ≠ String "+" r.
Proof.
  unfold number.
  destruct n as [|p|p]; cbn [Z.to_int NilZero.string_of_int]; [done| |done].
  unfold NilZero.string_of_uint. by destruct (Pos.to_uint p).
Qed.

Lemma int_of_string_number n :
  NilZero.int_of_string (number n) = Some (Z.to_int n).
Proof.
  unfold number. apply NilZero.isi.
  - destruct n; cbn; try done.
    intros [= E]. by apply Unsigned.to_uint_nonnil in E.
  - destruct n; cbn; try done.
    intros [= E]. by apply Unsigned.to_uint_nonnil in E.
Qed.

Lemma to_int_of_int n : is_int n → to_int n = n.
Proof.
  unfold is_int, INT_MIN, INT_MAX, to_int. intros Hn.
  rewrite Z.mod_small; lia.
Qed.

Lemma to_int_range x : is_int (to_int x).
Proof.
  unfold is_int, INT_MIN, INT_MAX, to_int.
  pose proof (Z.mod_pos_bound (x + 2 ^ 31) (2 ^ 32) ltac:(lia)). lia.
Qed.

(** A number that fits a [qlonglong] is read back from its decimal text. *)
Lemma toLongLong_number n :
  LLONG_MIN <= n <= LLONG_MAX → toLongLong (number n) = n.
Proof.
  intros Hn. unfold toLongLong.
  rewrite trimmed_spaceless by apply spaceless_number.
  destruct (number n) as [|c r] eqn:E.
  { pose proof (int_of_string_number n) as H. by rewrite E in H. }
  assert (c ≠ "+"%char) as Hc.
  { intros ->. by apply (number_not_plus n r). }
  assert (NilZero.int_of_string (String c r) = Some (Z.to_int n)) as Hd.
  { rewrite <- E. apply int_of_string_number. }
  assert (match String c r with
          | String "+" r0 =>
              match r0 with
              | String "-" _ | String "+" _ => None
              | _ => NilZero.int_of_string r0
              end
          | _ => NilZero.int_of_string (String c r)
          end = Some (Z.to_int n)) as ->.
  { rewrite <- Hd. clear -Hc.
    destruct c as [[|] [|] [|] [|] [|] [|] [|] [|]]; done. }
  rewrite DecimalZ.of_to. by rewrite bool_decide_eq_true_2.
Qed.

(** A number outside the range of [qlonglong] reads as 0. *)
Lemma toLongLong_number_overflow n :
  ¬ (LLONG_MIN <= n <= LLONG_MAX) → toLongLong (number n) = 0.
Proof.
  intros Hn. unfold toLongLong.
  rewrite trimmed_spaceless by apply spaceless_number.
  destruct (number n) as [|c r] eqn:E.
  { pose proof (int_of_string_number n) as H. by rewrite E in H. }
  assert (c ≠ "+"%char) as Hc.
  { intros ->. by apply (number_not_plus n r). }
  assert (NilZero.int_of_string (String c r) = Some (Z.to_int n)) as Hd.
  { rewrite <- E. apply int_of_string_number. }
  assert (match String c r with
          | String "+" r0 =>
              match r0 with
              | String "-" _ | String "+" _ => None
              | _ => NilZero.int_of_string r0
              end
          | _ => NilZero.int_of_string (String c r)
          end = Some (Z.to_int n)) as ->.
  { rewrite <- Hd. clear -Hc.
    destruct c as [[|] [|] [|] [|] [|] [|] [|] [|]]; done. }
  rewrite DecimalZ.of_to. by rewrite bool_decide_eq_false_2.
Qed.

(** A C++ [int] survives the trip through its decimal text. *)
Lemma toInt_number n : is_int n → to_int (toLongLong (number n)) = n.
Proof.
  intros Hn. rewrite toLongLong_number, to_int_of_int; [done..|].
  unfold is_int, INT_MIN, INT_MAX, LLONG_MIN, LLONG_MAX in *. lia.
Qed.

End Numbers.

(** ** The record codec *)

Module Codec.

Lemma flat_machineObject machine : JsonText.flat (machineObject machine).
Proof.
  unfold JsonText.flat, machineObject. cbv zeta. intros k v.
  rewrite !lookup_insert. rewrite lookup_empty.
  repeat case_decide; by intros [= <-].
Qed.

(** The writer's output reads back as the object that was written. *)
Lemma fromJson_machineToJSON machine :
  Parser.fromJson (machineToJSON machine) =
  (NoError, DocObject (machineObject machine)).
Proof.
  apply RoundTrip.fromJson_toJson, flat_machineObject.
Qed.

Ltac decode_begin H :=
  let Hex := fresh "Hex" in
  let Hop := fresh "Hop" in
  let Hparse := fresh "Hparse" in
  destruct H as (Hex & Hop & Hparse);
  unfold listEntryForJSON; rewrite Hex, Hop, Hparse;
  cbn [negb isObject object].

Lemma decode_machineObject fs path storage0 r :
  arch r ∈ VALID_ARCHES →
  Spec.holds_object fs path (machineObject r) →
  listEntryForJSON fs path storage0 =
  inr (<[KEY_EXTERNAL_WINDOW_ONLY := VBool (externalWindowOnly r)]>
      (<[KEY_ENABLEFILESHARING := VBool (enableFileSharing r)]>
      (<[KEY_VIRGLRENDERER := VBool (useVirglrenderer r)]>
      (<[KEY_FLASH2 := VString (flash2 r)]>
      (<[KEY_FLASH1 := VString (flash1 r)]>
      (<[KEY_DVD := VString (dvd r)]>
      (<[KEY_HDD := VString (hdd r)]>
      (<[KEY_MEM := VString (QString.number (mem r))]>
      (<[KEY_CORES := VString (QString.number (cores r))]>
      (<[KEY_ARCH := VString (arch r)]>
      (<[KEY_DESC := VString (name r)]>
      (<[KEY_STORAGE := VString storage0]>
      (<["path" := VString path]> ∅))))))))))))).
Proof.
  intros Harch H. decode_begin H.
  unfold QJsonObject.contains, QJsonObject.value.
  change (machineObject r !! KEY_DESC) with (Some (JString (name r))).
  change (machineObject r !! KEY_ARCH) with (Some (JString (arch r))).
  change (machineObject r !! KEY_CORES)
    with (Some (JString (QString.number (cores r)))).
  change (machineObject r !! KEY_MEM)
    with (Some (JString (QString.number (mem r)))).
  change (machineObject r !! KEY_HDD) with (Some (JString (hdd r))).
  change (machineObject r !! KEY_DVD) with (Some (JString (dvd r))).
  change (machineObject r !! KEY_FLASH1) with (Some (JString (flash1 r))).
  change (machineObject r !! KEY_FLASH2) with (Some (JString (flash2 r))).
  change (machineObject r !! KEY_VIRGLRENDERER)
    with (Some (JBool (useVirglrenderer r))).
  change (machineObject r !! KEY_ENABLEFILESHARING)
    with (Some (JBool (enableFileSharing r))).
  change (machineObject r !! KEY_EXTERNAL_WINDOW_ONLY)
    with (Some (JBool (externalWindowOnly r))).
  cbn [from_option id QJsonValue.toString QJsonValue.toBool].
  rewrite (bool_decide_eq_true_2 (arch r ∈ VALID_ARCHES)) by done.
  reflexivity.
Qed.

(** C1.  Round trip: when the metadata file holds [machineToJSON r] for a
    valid record [r], [listEntryForJSON] succeeds and [fromQml] rebuilds
    from the entry every persisted member of [r], whatever the values of
    the three optional booleans, hence also at their default [false].  Two
    members of [Machine] are not persisted: [storage], which the entry
    takes from the location of the file, and [hddSize], the size asked of
    [createVM], which keeps the value it has in the object [fromQml] starts
    from.  Decoded at its own storage path, the record is reproduced
    exactly. *)
Theorem decode_encode_round_trip (fs : FileSystem) (path storage0 : string)
    (r fresh : Machine) :
  Spec.valid_record r →
  QFile.exists_ fs path = true →
  QFile.openReadOnly fs path = true →
  QFile.readAll fs path = machineToJSON r →
  ∃ vm, listEntryForJSON fs path storage0 = inr vm
        ∧ fromQml fresh vm
          = set_storage storage0 (set_hddSize (hddSize fresh) r)
        ∧ (storage0 = storage r → hddSize fresh = hddSize r →
           fromQml fresh vm = r).
Proof.
  intros (Harch & Hcores & Hmem) Hex Hop Hdata.
  eexists. split.
  { apply decode_machineObject; [done|]. repeat split; try done.
    rewrite Hdata. apply fromJson_machineToJSON. }
  match goal with |- ?a = ?b ∧ _ => assert (a = b) as Hvm end.
  { unfold fromQml, set_hddSize, set_storage, QVariant.value.
    unfold KEY_STORAGE, KEY_DESC, KEY_ARCH, KEY_CORES, KEY_MEM, KEY_DVD,
      KEY_HDD, KEY_FLASH1, KEY_FLASH2, KEY_ENABLEFILESHARING,
      KEY_VIRGLRENDERER, KEY_EXTERNAL_WINDOW_ONLY.
    repeat (rewrite lookup_insert_eq || rewrite lookup_insert_ne by done).
    cbn [from_option id QVariant.toString QVariant.toInt QVariant.toBool
         storage name arch cores mem hdd dvd flash1 flash2 hddSize
         useVirglrenderer enableFileSharing externalWindowOnly].
    by rewrite !Numbers.toInt_number. }
  split; [done|]. intros -> Hsize. rewrite Hvm, Hsize. by destruct r.
Qed.

Lemma flat_minimal archName : JsonText.flat (Sample.minimal archName).
Proof.
  unfold JsonText.flat, Sample.minimal. intros k v.
  rewrite !lookup_insert. rewrite lookup_empty.
  repeat case_decide; by intros [= <-].
Qed.

Lemma flat_delete k o : JsonText.flat o → JsonText.flat (delete k o).
Proof.
  intros Hflat k' v Hk'. apply lookup_delete_Some in Hk' as [_ Hk'].
  by apply (Hflat k').
Qed.

(** The sample disk whose metadata file holds what the writer produces for
    a flat object holds that object. *)
Lemma holds_payload o :
  JsonText.flat o →
  Spec.holds_object (Sample.diskWith (Sample.payload o)) Sample.infoPath o.
Proof.
  intros Hflat.
  unfold Spec.holds_object, QFile.exists_, QFile.openReadOnly,
    QFile.readAll, Sample.diskWith. cbn [files].
  rewrite lookup_insert_eq. cbn [f_readable f_data].
  split; [by apply bool_decide_eq_true_2|]. split; [done|].
  by apply RoundTrip.fromJson_toJson.
Qed.

Lemma decode_encode_round_trip_witness :
  ∃ vm, listEntryForJSON (Sample.diskWith (machineToJSON Sample.record))
          Sample.infoPath Sample.vmDir = inr vm
        ∧ fromQml Sample.draft vm
          = set_storage Sample.vmDir
              (set_hddSize (hddSize Sample.draft) Sample.record)
        ∧ (Sample.vmDir = storage Sample.record →
           hddSize Sample.draft = hddSize Sample.record →
           fromQml Sample.draft vm = Sample.record).
Proof.
  apply decode_encode_round_trip.
  - split; [by constructor|]. unfold QString.is_int. by vm_compute.
  - by vm_compute.
  - by vm_compute.
  - by vm_compute.
Defined.

Ltac case_contains o k :=
  let E := fresh "E" in
  destruct (QJsonObject.contains o k) eqn:E; cbn [negb].

(** C2, as amended.  A well-formed payload that lacks a required field is
    rejected, and no entry is produced.  The failure names the first
    missing field in the order of the schema when that field is
    [description] or [arch], or when the payload's architecture is a known
    one; otherwise (the architecture is present and unknown, and the
    first missing field comes after it) the failure is the one of the
    architecture check, which the source makes before it looks for
    [cores]. *)
Theorem missing_field_rejected (fs : FileSystem) (path storage0 : string)
    (o : gmap string QJsonValue) (k : string) :
  Spec.holds_object fs path o →
  Spec.first_missing o = Some k →
  (k = KEY_DESC ∨ k = KEY_ARCH ∨ Spec.arch_of o ∈ VALID_ARCHES →
     listEntryForJSON fs path storage0 = inl (Spec.missing k))
  ∧ (k ≠ KEY_DESC → k ≠ KEY_ARCH → Spec.arch_of o ∉ VALID_ARCHES →
     listEntryForJSON fs path storage0
     = inl (ThrowLiteral "Invalid architecture"))
  ∧ (∃ t, listEntryForJSON fs path storage0 = inl t).
Proof.
  intros H Hk.
  cut ((k = KEY_DESC ∨ k = KEY_ARCH ∨ Spec.arch_of o ∈ VALID_ARCHES →
          listEntryForJSON fs path storage0 = inl (Spec.missing k))
       ∧ (k ≠ KEY_DESC → k ≠ KEY_ARCH → Spec.arch_of o ∉ VALID_ARCHES →
          listEntryForJSON fs path storage0
          = inl (ThrowLiteral "Invalid architecture"))).
  { intros [H1 H2]. split; [done|]. split; [done|].
    destruct (decide (k = KEY_DESC)) as [?|?]; [eauto|].
    destruct (decide (k = KEY_ARCH)) as [?|?]; [eauto|].
    destruct (decide (Spec.arch_of o ∈ VALID_ARCHES)) as [?|?]; eauto. }
  decode_begin H.
  unfold Spec.first_missing, Spec.required_fields in Hk. cbn [find] in Hk.
  fold (Spec.arch_of o).
  case_contains o KEY_DESC;
    [|injection Hk as <-; split; [done | by intros []]].
  case_contains o KEY_ARCH;
    [|injection Hk as <-; split; [done | by intros ? []]].
  destruct (bool_decide (Spec.arch_of o ∈ VALID_ARCHES)) eqn:Ha; cbn [negb].
  - apply bool_decide_eq_true_1 in Ha.
    repeat (match goal with
            | |- context [QJsonObject.contains o ?key] =>
                case_contains o key;
                [|injection Hk as <-; split; [done | by intros ? ? []]]
            end).
    done.
  - apply bool_decide_eq_false_1 in Ha.
    split; [|done]. intros [->|[->|?]]; [| |done];
      repeat (match type of Hk with
              | context [QJsonObject.contains o ?key] =>
                  destruct (QJsonObject.contains o key)
              end); by cbn in Hk.
Qed.

Lemma missing_field_rejected_witness :
  listEntryForJSON
    (Sample.diskWith (Sample.payload (delete KEY_MEM (Sample.minimal "aarch64"))))
    Sample.infoPath Sample.vmDir
  = inl (Spec.missing KEY_MEM).
Proof.
  apply (missing_field_rejected _ Sample.infoPath Sample.vmDir
           (delete KEY_MEM (Sample.minimal "aarch64")) KEY_MEM).
  - apply holds_payload, flat_delete, flat_minimal.
  - by vm_compute.
  - right; right. apply list_elem_of_In. vm_compute. auto.
Defined.

(** C2, as stated, fails: the payload lacks [cores] (and nothing before
    it), its architecture is "mips", and the failure names the
    architecture, not the missing field. *)
Lemma missing_field_counterexample :
  Spec.holds_object Sample.mipsDisk Sample.infoPath Sample.mipsNoCores
  ∧ Spec.first_missing Sample.mipsNoCores = Some KEY_CORES
  ∧ listEntryForJSON Sample.mipsDisk Sample.infoPath Sample.vmDir
    = inl (ThrowLiteral "Invalid architecture")
  ∧ listEntryForJSON Sample.mipsDisk Sample.infoPath Sample.vmDir
    ≠ inl (Spec.missing KEY_CORES).
Proof.
  split; [apply holds_payload, flat_delete, flat_minimal|].
  by vm_compute.
Qed.

(** C3.  When every required field is present, decoding fails with
    "Invalid architecture" exactly when the value of [arch] is outside
    [VALID_ARCHES] (a value that is not a string reads as the empty
    string), and otherwise succeeds with that architecture in the entry. *)
Theorem architecture_validation (fs : FileSystem) (path storage0 : string)
    (o : gmap string QJsonValue) :
  Spec.holds_object fs path o →
  Spec.first_missing o = None →
  (Spec.arch_of o ∉ VALID_ARCHES →
     listEntryForJSON fs path storage0
     = inl (ThrowLiteral "Invalid architecture"))
  ∧ (Spec.arch_of o ∈ VALID_ARCHES →
     ∃ vm, listEntryForJSON fs path storage0 = inr vm
           ∧ vm !! KEY_ARCH = Some (VString (Spec.arch_of o))).
Proof.
  intros H Hk. decode_begin H.
  unfold Spec.first_missing, Spec.required_fields in Hk. cbn [find] in Hk.
  fold (Spec.arch_of o).
  repeat (match type of Hk with
          | context [QJsonObject.contains o ?key] =>
              let E := fresh "E" in
              destruct (QJsonObject.contains o key) eqn:E;
              cbn [negb] in Hk; [|discriminate Hk]
          end).
  cbn [negb]. split; intros Ha.
  - by rewrite bool_decide_eq_false_2.
  - rewrite bool_decide_eq_true_2 by done. cbn [negb].
    eexists; split; [reflexivity|].
    unfold KEY_STORAGE, KEY_DESC, KEY_ARCH, KEY_CORES, KEY_MEM, KEY_DVD,
      KEY_HDD, KEY_FLASH1, KEY_FLASH2, KEY_ENABLEFILESHARING,
      KEY_VIRGLRENDERER, KEY_EXTERNAL_WINDOW_ONLY.
    repeat case_match;
      repeat (rewrite lookup_insert_eq || rewrite lookup_insert_ne by done);
      done.
Qed.

Lemma architecture_validation_witness :
  listEntryForJSON (Sample.diskWith (Sample.payload (Sample.minimal "mips")))
    Sample.infoPath Sample.vmDir
  = inl (ThrowLiteral "Invalid architecture")
  ∧ (∃ vm, listEntryForJSON
             (Sample.diskWith (Sample.payload (Sample.minimal "x86_64")))
             Sample.infoPath Sample.vmDir = inr vm
           ∧ vm !! KEY_ARCH = Some (VString "x86_64"))
  ∧ (∃ vm, listEntryForJSON
             (Sample.diskWith (Sample.payload (Sample.minimal "aarch64")))
             Sample.infoPath Sample.vmDir = inr vm
           ∧ vm !! KEY_ARCH = Some (VString "aarch64")).
Proof.
  split; [|split].
  - apply (architecture_validation _ Sample.infoPath Sample.vmDir
             (Sample.minimal "mips"));
      [apply holds_payload, flat_minimal | by vm_compute |].
    rewrite list_elem_of_In. vm_compute. intros [|[|[]]]; discriminate.
  - apply (architecture_validation _ Sample.infoPath Sample.vmDir
             (Sample.minimal "x86_64"));
      [apply holds_payload, flat_minimal | by vm_compute |].
    rewrite list_elem_of_In. vm_compute. auto.
  - apply (architecture_validation _ Sample.infoPath Sample.vmDir
             (Sample.minimal "aarch64"));
      [apply holds_payload, flat_minimal | by vm_compute |].
    rewrite list_elem_of_In. vm_compute. auto.
Defined.

(** What the decoder does with the optional members of any payload it
    accepts: a missing [useVirglrenderer] or [enableFileSharing] is entered
    as [false]; a missing [externalWindowOnly] is not entered at all. *)
Lemma optional_fields_of_entry (fs : FileSystem) (path storage0 : string)
    (o : gmap string QJsonValue) (vm : gmap string QVariant) :
  Spec.holds_object fs path o →
  listEntryForJSON fs path storage0 = inr vm →
  (o !! KEY_VIRGLRENDERER = None →
     vm !! KEY_VIRGLRENDERER = Some (VBool false))
  ∧ (o !! KEY_ENABLEFILESHARING = None →
     vm !! KEY_ENABLEFILESHARING = Some (VBool false))
  ∧ (o !! KEY_EXTERNAL_WINDOW_ONLY = None →
     vm !! KEY_EXTERNAL_WINDOW_ONLY = None).
Proof.
  intros H. decode_begin H. intros Hvm.
  repeat (match type of Hvm with
          | context [negb (QJsonObject.contains o ?key)] =>
              destruct (QJsonObject.contains o key);
              cbn [negb] in Hvm; [|discriminate Hvm]
          | context [negb (bool_decide ?P)] =>
              destruct (bool_decide P);
              cbn [negb] in Hvm; [|discriminate Hvm]
          end).
  injection Hvm as <-.
  unfold QJsonObject.contains.
  unfold KEY_STORAGE, KEY_DESC, KEY_ARCH, KEY_CORES, KEY_MEM, KEY_DVD,
    KEY_HDD, KEY_FLASH1, KEY_FLASH2, KEY_ENABLEFILESHARING,
    KEY_VIRGLRENDERER, KEY_EXTERNAL_WINDOW_ONLY.
  split; [|split]; intros ->;
    repeat case_match;
    repeat (rewrite lookup_insert_eq || rewrite lookup_insert_ne by done);
    done.
Qed.

(** C8, at a payload with every required field and no optional one: the
    entry holds [false] for [useVirglrenderer] and [enableFileSharing], and
    no [externalWindowOnly] at all; [fromQml] reads the missing member as
    [false]. *)
Theorem optional_defaults_at_minimal_payload :
  match listEntryForJSON
          (Sample.diskWith (Sample.payload (Sample.minimal "x86_64")))
          Sample.infoPath Sample.vmDir with
  | inr vm =>
      vm !! KEY_VIRGLRENDERER = Some (VBool false)
      ∧ vm !! KEY_ENABLEFILESHARING = Some (VBool false)
      ∧ vm !! KEY_EXTERNAL_WINDOW_ONLY = None
      ∧ externalWindowOnly (fromQml Sample.fresh vm) = false
  | inl _ => False
  end.
Proof. by vm_compute. Qed.

(** C9, as amended.  Encoding is total, and what it writes reads back as
    an object with exactly eleven members: the eight required fields,
    [cores] and [mem] as decimal text, and the three optional booleans,
    each with the value the record holds; [externalWindowOnly] is written
    for every record. *)
Theorem encode_emits_all_fields (m : Machine) :
  ∃ o, Parser.fromJson (machineToJSON m) = (NoError, DocObject o)
       ∧ dom o = {[ KEY_DESC; KEY_ARCH; KEY_CORES; KEY_MEM; KEY_DVD;
                    KEY_HDD; KEY_FLASH1; KEY_FLASH2; KEY_VIRGLRENDERER;
                    KEY_ENABLEFILESHARING; KEY_EXTERNAL_WINDOW_ONLY ]}
       ∧ o !! KEY_DESC = Some (JString (name m))
       ∧ o !! KEY_ARCH = Some (JString (arch m))
       ∧ o !! KEY_CORES = Some (JString (QString.number (cores m)))
       ∧ o !! KEY_MEM = Some (JString (QString.number (mem m)))
       ∧ o !! KEY_DVD = Some (JString (dvd m))
       ∧ o !! KEY_HDD = Some (JString (hdd m))
       ∧ o !! KEY_FLASH1 = Some (JString (flash1 m))
       ∧ o !! KEY_FLASH2 = Some (JString (flash2 m))
       ∧ o !! KEY_VIRGLRENDERER = Some (JBool (useVirglrenderer m))
       ∧ o !! KEY_ENABLEFILESHARING = Some (JBool (enableFileSharing m))
       ∧ o !! KEY_EXTERNAL_WINDOW_ONLY = Some (JBool (externalWindowOnly m)).
Proof.
  exists (machineObject m). split; [apply fromJson_machineToJSON|].
  split; [|by repeat split].
  unfold machineObject. rewrite !dom_insert_L, dom_empty_L. set_solver.
Qed.

(** C9, as stated, fails: for a draft whose [externalWindowOnly] was never
    set and has its default [false], the output carries the member all the
    same. *)
Lemma encode_emits_default_counterexample :
  externalWindowOnly Sample.draft = false
  ∧ ∃ o, Parser.fromJson (machineToJSON Sample.draft) = (NoError, DocObject o)
         ∧ o !! KEY_EXTERNAL_WINDOW_ONLY = Some (JBool false).
Proof. split; [done|]. eexists. split; by vm_compute. Qed.

End Codec.

(** ** Paths *)

Module PathFacts.

Import Path.

Lemma split_slashless n : slashless n → split n = (None, n).
Proof.
  induction n as [|c n IH]; [done|]. intros [Hc Hn].
  cbn [split]. by rewrite IH, Hc.
Qed.

Lemma split_append d n :
  slashless n → split (d +:+ String c_slash n) = (Some d, n).
Proof.
  intros Hn. induction d as [|c d IH].
  - cbn [String.append split]. by rewrite split_slashless.
  - cbn [String.append split]. by rewrite IH.
Qed.

Lemma fileName_append d n :
  slashless n → fileName (d +:+ String c_slash n) = n.
Proof. intros Hn. unfold fileName. by rewrite split_append. Qed.

Lemma path_append d n :
  slashless n → d ≠ EmptyString → path (d +:+ String c_slash n) = d.
Proof.
  intros Hn Hd. unfold path. rewrite split_append by done.
  by destruct d.
Qed.

(** Two paths with different file names are different. *)
Lemma append_ne d1 d2 n1 n2 :
  slashless n1 → slashless n2 → n1 ≠ n2 →
  d1 +:+ String c_slash n1 ≠ d2 +:+ String c_slash n2.
Proof.
  intros H1 H2 Hne Heq. apply Hne.
  rewrite <- (fileName_append d1 n1), <- (fileName_append d2 n2) by done.
  by rewrite Heq.
Qed.

End PathFacts.

Module ProvisionFacts.
Import Provision.

#[local] Arguments QFile.copy : simpl never.
#[local] Arguments QFile.remove : simpl never.
#[local] Arguments QFile.exists_ : simpl never.
#[local] Arguments String.append : simpl never.

Ltac run_io :=
  unfold mbind, IO_bind, mret, IO_ret, readFS, withFS, when, qDebug,
    qWarning, emit, nextUuid; cbn.

Lemma resetEFIFirmware_run h m w :
  let r := run (efiFw h m) (efiFwTarget m) (fs w) in
  (resetEFIFirmware h m w).1
    = (r.1, if r.1 then set_flash1 (efiFwTarget m) m else m)
  ∧ fs (resetEFIFirmware h m w).2 = r.2
  ∧ uuids (resetEFIFirmware h m w).2 = uuids w.
Proof.
  unfold resetEFIFirmware, run. fold (efiFw h m) (efiFwTarget m). run_io.
  destruct (QFile.exists_ (fs w) (efiFwTarget m)); run_io.
  - destruct (QFile.remove (efiFwTarget m) (fs w)) as [[|] fs1]; run_io;
      destruct (QFile.copy (efiFw h m) (efiFwTarget m) fs1) as [[|] fs2];
      by run_io.
  - destruct (QFile.copy (efiFw h m) (efiFwTarget m) (fs w)) as [[|] fs2];
      by run_io.
Qed.

Lemma resetEFINVRAM_run h m w :
  let r := run (efiVars h m) (efiVarsTarget m) (fs w) in
  (resetEFINVRAM h m w).1
    = (r.1, if r.1 then set_flash2 (efiVarsTarget m) m else m)
  ∧ fs (resetEFINVRAM h m w).2 = r.2
  ∧ uuids (resetEFINVRAM h m w).2 = uuids w.
Proof.
  unfold resetEFINVRAM, run. fold (efiVars h m) (efiVarsTarget m). run_io.
  destruct (QFile.exists_ (fs w) (efiVarsTarget m)); run_io.
  - destruct (QFile.remove (efiVarsTarget m) (fs w)) as [[|] fs1]; run_io;
      destruct (QFile.copy (efiVars h m) (efiVarsTarget m) fs1) as [[|] fs2];
      by run_io.
  - destruct (QFile.copy (efiVars h m) (efiVarsTarget m) (fs w)) as [[|] fs2];
      by run_io.
Qed.

Lemma copy_frame src target fs0 :
  dirs (QFile.copy src target fs0).2 = dirs fs0
  ∧ ∀ p, p ≠ target →
      files (QFile.copy src target fs0).2 !! p = files fs0 !! p.
Proof.
  unfold QFile.copy. destruct (files fs0 !! src) as [f|]; [|done].
  case_match; [|done]. split; [done|]. intros p Hp. cbn.
  by rewrite lookup_insert_ne.
Qed.

Lemma remove_frame target fs0 :
  dirs (QFile.remove target fs0).2 = dirs fs0
  ∧ ∀ p, p ≠ target →
      files (QFile.remove target fs0).2 !! p = files fs0 !! p.
Proof.
  unfold QFile.remove. case_match; [|done]. split; [done|].
  intros p Hp. cbn. by rewrite lookup_delete_ne.
Qed.

(** A step changes no directory and no file but its target. *)
Lemma run_frame src target fs0 :
  dirs (run src target fs0).2 = dirs fs0
  ∧ ∀ p, p ≠ target → files (run src target fs0).2 !! p = files fs0 !! p.
Proof.
  unfold run. destruct (QFile.exists_ fs0 target); [|apply copy_frame].
  destruct (copy_frame src target (QFile.remove target fs0).2) as [Hd Hf].
  destruct (remove_frame target fs0) as [Hd' Hf'].
  split; [congruence|]. intros p Hp. by rewrite Hf, Hf'.
Qed.


(** A stale target that cannot be removed: the copy is attempted on the
    unchanged file system. *)
Lemma run_remove_failed src target fs0 :
  QFile.exists_ fs0 target = true →
  (QFile.remove target fs0).1 = false →
  run src target fs0 = QFile.copy src target fs0.
Proof.
  intros Hex Hrm. unfold run. rewrite Hex.
  unfold QFile.remove in *. rewrite Hex in *.
  by destruct (parentWritable fs0 target).
Qed.

End ProvisionFacts.

Module Provisioning.
Import Provision ProvisionFacts PathFacts.

#[local] Arguments QFile.copy : simpl never.
#[local] Arguments QFile.remove : simpl never.
#[local] Arguments QFile.exists_ : simpl never.

Lemma efiFw_split h m :
  efiFw h m
  = (applicationDirPath h +:+ "/efi/" +:+ arch m) +:+ String c_slash "code.fd".
Proof. unfold efiFw. by rewrite !append_assoc. Qed.

Lemma efiVars_split h m :
  ∃ n, Path.slashless n ∧ n ≠ "efi.fd" ∧ n ≠ "efi_nvram.fd"
       ∧ efiVars h m
         = (applicationDirPath h +:+ "/share/qemu") +:+ String c_slash n.
Proof.
  unfold efiVars. destruct (String.eqb (arch m) "aarch64").
  - exists "edk2-arm-vars.fd". by rewrite append_assoc.
  - exists "edk2-i386-vars.fd". by rewrite append_assoc.
Qed.

(** The sources and the targets of the two steps are four different
    paths. *)
Lemma paths_distinct h m :
  efiFw h m ≠ efiFwTarget m ∧ efiFw h m ≠ efiVarsTarget m
  ∧ efiVars h m ≠ efiFwTarget m ∧ efiVars h m ≠ efiVarsTarget m
  ∧ efiFwTarget m ≠ efiVarsTarget m.
Proof.
  destruct (efiVars_split h m) as (n & Hn & Hn1 & Hn2 & ->).
  rewrite efiFw_split. unfold efiFwTarget, efiVarsTarget.
  repeat split; by apply append_ne.
Qed.






End Provisioning.

Module Store.
Import Provision ProvisionFacts PathFacts Provisioning.

#[local] Arguments QFile.copy : simpl never.
#[local] Arguments QFile.remove : simpl never.
#[local] Arguments QFile.exists_ : simpl never.
#[local] Arguments QFile.openReadWrite : simpl never.
#[local] Arguments QFile.write : simpl never.
#[local] Arguments QDir.mkpath : simpl never.
#[local] Arguments createVM_directory : simpl never.
#[local] Arguments createVM_hdd : simpl never.
#[local] Arguments createVM_metadata : simpl never.
#[local] Arguments resetEFIFirmware : simpl never.
#[local] Arguments resetEFINVRAM : simpl never.
#[local] Arguments machineToJSON : simpl never.
#[local] Arguments String.append : simpl never.

Lemma mkdir_files p fs0 : files (QDir.mkdir p fs0).2 = files fs0.
Proof. unfold QDir.mkdir. by repeat case_match. Qed.

(** Creating directories writes no file. *)
Lemma mkpath_files p fs0 : files (QDir.mkpath p fs0).2 = files fs0.
Proof.
  unfold QDir.mkpath.
  generalize (QDir.chain EmptyString EmptyString p). intros l.
  change fs0 with ((true, fs0).2) at 2. generalize (true, fs0).
  induction l as [|q l IH]; intros acc; [done|].
  cbn [foldl]. rewrite IH. destruct acc as [[|] fs1]; [|done].
  apply mkdir_files.
Qed.

Lemma createVM_directory_files dir w :
  files (fs (createVM_directory dir w).2) = files (fs w).
Proof.
  unfold createVM_directory. run_io.
  destruct (QDir.exists_ (fs w) dir); run_io; [done|].
  pose proof (mkpath_files dir (fs w)) as H.
  by destruct (QDir.mkpath dir (fs w)).
Qed.

Lemma createVM_hdd_storage h dir m w :
  storage (createVM_hdd h dir m w).1.2 = storage m
  ∧ arch (createVM_hdd h dir m w).1.2 = arch m.
Proof.
  unfold createVM_hdd. run_io.
  destruct (runProcess h _ _ (fs w)) as [[code err] fs1]. run_io.
  by destruct (code =? 0).
Qed.

(** A firmware step leaves alone every directory and every file but its
    target. *)
Lemma resetEFIFirmware_frame h m w :
  dirs (fs (resetEFIFirmware h m w).2) = dirs (fs w)
  ∧ ∀ p, p ≠ efiFwTarget m →
      files (fs (resetEFIFirmware h m w).2) !! p = files (fs w) !! p.
Proof.
  destruct (resetEFIFirmware_run h m w) as (_ & -> & _). apply run_frame.
Qed.

Lemma resetEFINVRAM_frame h m w :
  dirs (fs (resetEFINVRAM h m w).2) = dirs (fs w)
  ∧ ∀ p, p ≠ efiVarsTarget m →
      files (fs (resetEFINVRAM h m w).2) !! p = files (fs w) !! p.
Proof.
  destruct (resetEFINVRAM_run h m w) as (_ & -> & _). apply run_frame.
Qed.

Lemma resetEFIFirmware_machine h m w :
  storage (resetEFIFirmware h m w).1.2 = storage m
  ∧ arch (resetEFIFirmware h m w).1.2 = arch m.
Proof.
  destruct (resetEFIFirmware_run h m w) as (-> & _). cbn. by case_match.
Qed.

(** [createVM] as the sequence of its steps. *)
Lemma createVM_steps h m w :
  createVM h (Some m) w =
  let vmDirPath := appDataLocation h +:+ "/" +:+ createUuid h (uuids w) in
  let m0 := set_storage vmDirPath m in
  let w0 := (createVM_directory vmDirPath (nextUuid h w).2).2 in
  let '((okDisk, m1), w1) := createVM_hdd h vmDirPath m0 w0 in
  if negb okDisk then ((false, Some m1), w1)
  else
    let '((okCode, m2), w2) := resetEFIFirmware h m1 w1 in
    if negb okCode then ((false, Some m2), w2)
    else
      let '((okVars, m3), w3) := resetEFINVRAM h m2 w2 in
      if negb okVars then ((false, Some m3), w3)
      else
        let '(ret, w4) := createVM_metadata vmDirPath m3 w3 in
        ((ret, Some m3), w4).
Proof.
  unfold createVM. run_io.
  destruct (createVM_directory _ _) as [[] w0]. cbn [snd].
  destruct (createVM_hdd _ _ _ _) as [[[|] m1] w1]; cbn [negb]; [|done].
  destruct (resetEFIFirmware _ _ _) as [[[|] m2] w2]; cbn [negb]; [|done].
  destruct (resetEFINVRAM _ _ _) as [[[|] m3] w3]; cbn [negb]; [|done].
  by destruct (createVM_metadata _ _ _).
Qed.

(** The directory block makes the directory when it is not there, and does
    nothing else. *)
Lemma directory_block_fs dir w :
  fs (createVM_directory dir w).2
  = if QDir.exists_ (fs w) dir then fs w else (QDir.mkpath dir (fs w)).2.
Proof.
  unfold createVM_directory. run_io.
  destruct (QDir.exists_ (fs w) dir); run_io; [done|].
  by destruct (QDir.mkpath dir (fs w)).
Qed.

(** The disk block starts qemu-img once; its result is the test of the
    exit code, and the file system is the one the tool leaves. *)
Lemma disk_block_run h dir m w :
  let qemuImg :=
    runProcess h (applicationDirPath h +:+ "/bin/qemu-img")
      ["create"; "-f"; "qcow2"; dir +:+ "/hdd.qcow2";
       QString.number (hddSize m) +:+ "G"] (fs w) in
  (createVM_hdd h dir m w).1
    = (qemuImg.1.1 =? 0,
       if qemuImg.1.1 =? 0 then set_hdd (dir +:+ "/hdd.qcow2") m else m)
  ∧ fs (createVM_hdd h dir m w).2 = qemuImg.2.
Proof.
  unfold createVM_hdd. run_io.
  destruct (runProcess h _ _ (fs w)) as [[code err] fs1]. run_io.
  by destruct (code =? 0).
Qed.

(** C4.  [createVM] makes the directory, starts qemu-img, copies the
    firmware code and then the firmware NVRAM, and writes the metadata
    last.  Each failure is stated by the event of the source: the exit
    code of qemu-img is not 0, or [QFile::copy] of the firmware code
    returns [false], or that of the NVRAM does.  In each case the call
    returns [false] and its file system is the one the failing operation
    left: the metadata block is not reached and nothing is undone.  With a
    failing disk tool the file system is exactly what qemu-img left of the
    one with the new directory.  With a failing copy, compared with what
    qemu-img left, no directory has changed (the new directory is still
    there), the metadata file is as it was, as is every file but the two
    firmware targets (the disk image stays), and a firmware-code file
    already copied stays when the NVRAM copy fails.  Creating the
    directory writes no file either. *)
Theorem createVM_provisioning_failure (h : Host) (m : Machine) (w : World) :
  let pwd := applicationDirPath h in
  let vmDirPath := appDataLocation h +:+ "/" +:+ createUuid h (uuids w) in
  let jsonFilePath := vmDirPath +:+ "/info.json" in
  let hddPath := vmDirPath +:+ "/hdd.qcow2" in
  let efiFw := pwd +:+ "/efi/" +:+ arch m +:+ "/code.fd" in
  let efiFwTarget := vmDirPath +:+ "/efi.fd" in
  let efiVars :=
    pwd +:+ "/share/qemu/edk2-"
      +:+ (if String.eqb (arch m) "aarch64" then "arm" else "i386")
      +:+ "-vars.fd" in
  let efiVarsTarget := vmDirPath +:+ "/efi_nvram.fd" in
  let fs0 :=
    if QDir.exists_ (fs w) vmDirPath then fs w
    else (QDir.mkpath vmDirPath (fs w)).2 in
  let '((exitCode, standardError), fs1) :=
    runProcess h (pwd +:+ "/bin/qemu-img")
      ["create"; "-f"; "qcow2"; hddPath;
       QString.number (hddSize m) +:+ "G"] fs0 in
  let '(copiedFw, fs2) :=
    QFile.copy efiFw efiFwTarget
      (if QFile.exists_ fs1 efiFwTarget
       then (QFile.remove efiFwTarget fs1).2 else fs1) in
  let '(copiedVars, fs3) :=
    QFile.copy efiVars efiVarsTarget
      (if QFile.exists_ fs2 efiVarsTarget
       then (QFile.remove efiVarsTarget fs2).2 else fs2) in
  let m0 := set_storage vmDirPath m in
  let m1 := set_hdd hddPath m0 in
  let m2 := set_flash1 efiFwTarget m1 in
  let kept (fs' : FileSystem) :=
    dirs fs' = dirs fs1
    ∧ files fs' !! jsonFilePath = files fs1 !! jsonFilePath
    ∧ files fs' !! hddPath = files fs1 !! hddPath
    ∧ ∀ p, p ≠ efiFwTarget → p ≠ efiVarsTarget →
           files fs' !! p = files fs1 !! p in
  let result := createVM h (Some m) w in
  files fs0 = files (fs w)
  ∧ (exitCode ≠ 0 →
       result.1 = (false, Some m0) ∧ fs result.2 = fs1)
  ∧ (exitCode = 0 → copiedFw = false →
       result.1 = (false, Some m1) ∧ fs result.2 = fs2 ∧ kept fs2)
  ∧ (exitCode = 0 → copiedFw = true → copiedVars = false →
       result.1 = (false, Some m2) ∧ fs result.2 = fs3 ∧ kept fs3
       ∧ files fs3 !! efiFwTarget = files fs2 !! efiFwTarget).
Proof.
  cbv zeta.
  set (vmDirPath := appDataLocation h +:+ "/" +:+ createUuid h (uuids w)).
  set (m0 := set_storage vmDirPath m).
  rewrite createVM_steps. cbv zeta. fold vmDirPath. fold m0.
  pose proof (directory_block_fs vmDirPath (nextUuid h w).2) as Hfs0.
  change (fs (nextUuid h w).2) with (fs w) in Hfs0.
  pose proof (createVM_directory_files vmDirPath (nextUuid h w).2) as Hfiles0.
  change (fs (nextUuid h w).2) with (fs w) in Hfiles0.
  set (w0 := (createVM_directory vmDirPath (nextUuid h w).2).2) in *.
  rewrite <- Hfs0.
  pose proof (disk_block_run h vmDirPath m0 w0) as [Hr1 Hf1].
  cbv zeta in Hr1, Hf1. change (hddSize m0) with (hddSize m) in Hr1, Hf1.
  destruct (runProcess h _ _ (fs w0)) as [[exitCode standardError] fs1].
  cbn [fst snd] in Hr1, Hf1.
  destruct (createVM_hdd h vmDirPath m0 w0) as [[okDisk m1] w1].
  cbn [fst snd] in Hr1, Hf1. injection Hr1 as -> ->. subst fs1.
  destruct (Z.eqb_spec exitCode 0) as [->|Hcode]; cbn [negb].
  2: { destruct (QFile.copy _ _ _) as [copiedFw fs2].
       destruct (QFile.copy _ _ _) as [copiedVars fs3].
       split; [done|]. split; [done|]. split; intros; done. }
  set (m1 := set_hdd (vmDirPath +:+ "/hdd.qcow2") m0).
  pose proof (resetEFIFirmware_run h m1 w1) as (Hr2 & Hf2 & _).
  pose proof (run_frame (efiFw h m1) (efiFwTarget m1) (fs w1)) as [Hd2 Hk2].
  unfold run in Hr2, Hf2, Hd2, Hk2. cbv zeta in Hr2, Hf2.
  change (efiFw h m1)
    with (applicationDirPath h +:+ "/efi/" +:+ arch m +:+ "/code.fd") in *.
  change (efiFwTarget m1) with (vmDirPath +:+ "/efi.fd") in *.
  destruct (QFile.copy _ (vmDirPath +:+ "/efi.fd") _) as [copiedFw fs2].
  cbn [fst snd] in Hr2, Hf2, Hd2, Hk2.
  destruct (resetEFIFirmware h m1 w1) as [[okCode m2] w2].
  cbn [fst snd] in Hr2, Hf2. injection Hr2 as -> ->. subst fs2.
  assert (vmDirPath +:+ "/info.json" ≠ vmDirPath +:+ "/efi.fd"
          ∧ vmDirPath +:+ "/info.json" ≠ vmDirPath +:+ "/efi_nvram.fd"
          ∧ vmDirPath +:+ "/hdd.qcow2" ≠ vmDirPath +:+ "/efi.fd"
          ∧ vmDirPath +:+ "/hdd.qcow2" ≠ vmDirPath +:+ "/efi_nvram.fd"
          ∧ vmDirPath +:+ "/efi.fd" ≠ vmDirPath +:+ "/efi_nvram.fd")
    as (J1 & J2 & H1 & H2 & N12).
  { repeat split; by apply append_ne. }
  destruct copiedFw; cbn [negb].
  2: { destruct (QFile.copy _ _ _) as [copiedVars fs3].
       split; [done|]. split; [done|]. split; [|done].
       intros _ _. split; [done|]. split; [done|].
       split; [done|]. split; [by apply Hk2|]. split; [by apply Hk2|].
       intros p Hp _. by apply Hk2. }
  set (m2 := set_flash1 (vmDirPath +:+ "/efi.fd") m1).
  pose proof (resetEFINVRAM_run h m2 w2) as (Hr3 & Hf3 & _).
  pose proof (run_frame (efiVars h m2) (efiVarsTarget m2) (fs w2))
    as [Hd3 Hk3].
  unfold run in Hr3, Hf3, Hd3, Hk3. cbv zeta in Hr3, Hf3.
  change (efiVars h m2)
    with (applicationDirPath h +:+ "/share/qemu/edk2-"
            +:+ (if String.eqb (arch m) "aarch64" then "arm" else "i386")
            +:+ "-vars.fd") in *.
  change (efiVarsTarget m2) with (vmDirPath +:+ "/efi_nvram.fd") in *.
  destruct (QFile.copy _ (vmDirPath +:+ "/efi_nvram.fd") _)
    as [copiedVars fs3].
  cbn [fst snd] in Hr3, Hf3, Hd3, Hk3.
  destruct (resetEFINVRAM h m2 w2) as [[okVars m3] w3].
  cbn [fst snd] in Hr3, Hf3. injection Hr3 as -> ->. subst fs3.
  split; [done|]. split; [done|]. split; [done|].
  intros _ _ ->. cbn [negb]. split; [done|]. split; [done|].
  split; [|by apply Hk3].
  split; [congruence|]. split; [by rewrite Hk3, Hk2|].
  split; [by rewrite Hk3, Hk2|].
  intros p Hp1 Hp2. by rewrite Hk3, Hk2.
Qed.

#[local] Arguments listEntryForJSON : simpl never.
#[local] Arguments QDirIterator.entries : simpl never.

Lemma overwrite_empty bytes : QFile.overwrite bytes EmptyString = bytes.
Proof. induction bytes as [|c r IH]; [done|]. cbn. by rewrite IH. Qed.

Lemma openReadWrite_frame truncate path fs0 :
  dirs (QFile.openReadWrite truncate path fs0).2 = dirs fs0
  ∧ (∀ p, p ≠ path →
       files (QFile.openReadWrite truncate path fs0).2 !! p = files fs0 !! p)
  ∧ ((QFile.openReadWrite truncate path fs0).1 = false →
       (QFile.openReadWrite truncate path fs0).2 = fs0)
  ∧ ((QFile.openReadWrite truncate path fs0).1 = true → truncate = true →
       f_data <$> files (QFile.openReadWrite truncate path fs0).2 !! path
       = Some EmptyString).
Proof.
  unfold QFile.openReadWrite.
  destruct (files fs0 !! path) as [f|] eqn:Hf.
  - destruct (f_readable f && f_writable f); [|done].
    destruct truncate; cbn; repeat split; try done.
    + intros p Hp. by rewrite lookup_insert_ne.
    + by rewrite lookup_insert_eq.
  - destruct (parentWritable fs0 path); [|done].
    cbn; repeat split; try done.
    + intros p Hp. by rewrite lookup_insert_ne.
    + by rewrite lookup_insert_eq.
Qed.

Lemma write_frame path bytes fs0 :
  dirs (QFile.write path bytes fs0) = dirs fs0
  ∧ (∀ p, p ≠ path →
       files (QFile.write path bytes fs0) !! p = files fs0 !! p)
  ∧ (f_data <$> files fs0 !! path = Some EmptyString →
       QFile.readAll (QFile.write path bytes fs0) path = bytes).
Proof.
  unfold QFile.write, QFile.readAll. cbn. repeat split.
  - intros p Hp. by rewrite lookup_alter_ne.
  - rewrite lookup_alter_eq.
    destruct (files fs0 !! path) as [f|]; [|done]. cbn.
    intros [= ->]. apply overwrite_empty.
Qed.

(** C10.  [editVM] returns what opening the metadata file for writing
    returns: it fails exactly when the file cannot be opened.  Whatever the
    outcome, no directory changes and no file but the metadata file does:
    the disk image, the firmware code and the firmware NVRAM of the VM are
    as they were, as is any file elsewhere (a DVD image).  On success the
    metadata file holds the encoding of the record; on failure the file
    system is unchanged. *)
Theorem editVM_rewrites_only_metadata (m : Machine) (w : World) :
  let jsonFilePath := storage m +:+ "/info.json" in
  let '(ok, w') := editVM (Some m) w in
  ok = (QFile.openReadWrite true jsonFilePath (fs w)).1
  ∧ dirs (fs w') = dirs (fs w)
  ∧ (∀ p, p ≠ jsonFilePath → files (fs w') !! p = files (fs w) !! p)
  ∧ (∀ p, p ∈ [storage m +:+ "/hdd.qcow2"; storage m +:+ "/efi.fd";
               storage m +:+ "/efi_nvram.fd"] →
          files (fs w') !! p = files (fs w) !! p)
  ∧ (ok = true → QFile.readAll (fs w') jsonFilePath = machineToJSON m)
  ∧ (ok = false → fs w' = fs w).
Proof.
  intros jsonFilePath.
  destruct (openReadWrite_frame true jsonFilePath (fs w))
    as (Hd & Hf & Hfail & Htrunc).
  unfold editVM. fold jsonFilePath. run_io.
  destruct (QFile.openReadWrite true jsonFilePath (fs w)) as [[|] fs1];
    cbn [fst snd] in *; run_io.
  - destruct (write_frame jsonFilePath (machineToJSON m) fs1)
      as (Hd' & Hf' & Hdata).
    assert (∀ p, p ≠ jsonFilePath →
              files (QFile.write jsonFilePath (machineToJSON m) fs1) !! p
              = files (fs w) !! p) as Hframe.
    { intros p Hp. by rewrite Hf', Hf. }
    repeat split; try done; try congruence.
    + intros p Hp. apply Hframe. unfold jsonFilePath.
      apply elem_of_cons in Hp as [->|Hp]; [by apply append_ne|].
      apply elem_of_cons in Hp as [->|Hp]; [by apply append_ne|].
      apply list_elem_of_singleton in Hp as ->. by apply append_ne.
    + intros _. apply Hdata. by apply Htrunc.
  - rewrite Hfail by done. by repeat split.
Qed.

Lemma refresh_loop (fs0 : FileSystem) (paths : list string) :
  ∀ acc,
    foldl (λ (vms : list (gmap string QVariant)) filePath,
             match listEntryForJSON fs0 filePath
                     (QFileInfo.canonicalPath fs0 filePath) with
             | inl _ => vms
             | inr vm => (vms ++ [vm])%list
             end) acc paths
    = (acc ++ omap (Spec.decoded fs0) paths)%list.
Proof.
  induction paths as [|p paths IH]; intros acc; cbn [foldl omap list_omap].
  - by rewrite app_nil_r.
  - rewrite IH. unfold Spec.decoded at 2.
    destruct (listEntryForJSON fs0 p _); [done|]. by rewrite <- app_assoc.
Qed.

Lemma setRefreshing_vms value this w :
  m_vms (setRefreshing value this w).1 = m_vms this
  ∧ m_refreshing (setRefreshing value this w).1 = value
  ∧ fs (setRefreshing value this w).2 = fs w.
Proof.
  unfold setRefreshing.
  destruct (Bool.eqb (m_refreshing this) value) eqn:E; run_io; [|done].
  by apply Bool.eqb_prop in E.
Qed.

(** C7.  [refreshVMs] visits every metadata file the iterator yields and
    keeps the entries that decode: the catalog is the list of the
    successful decodings, in the order of the scan.  A file whose decoding
    throws contributes nothing and stops nothing: every entry that decodes
    is in the catalog, and everything in the catalog is such an entry.  The
    scan changes no file. *)
Theorem refreshVMs_skips_failures (h : Host) (this : VMManager) (w : World) :
  let found := QDirIterator.entries (fs w) (appDataLocation h) "info.json" in
  let '(this', w') := refreshVMs h this w in
  m_vms this' = omap (Spec.decoded (fs w)) found
  ∧ (∀ p vm, p ∈ found →
       listEntryForJSON (fs w) p (QFileInfo.canonicalPath (fs w) p) = inr vm →
       vm ∈ m_vms this')
  ∧ (∀ vm, vm ∈ m_vms this' →
       ∃ p, p ∈ found
            ∧ listEntryForJSON (fs w) p (QFileInfo.canonicalPath (fs w) p)
              = inr vm)
  ∧ fs w' = fs w.
Proof.
  intros found.
  assert (∀ p vm, Spec.decoded (fs w) p = Some vm ↔
            listEntryForJSON (fs w) p (QFileInfo.canonicalPath (fs w) p)
            = inr vm) as Hdec.
  { intros p vm. unfold Spec.decoded.
    destruct (listEntryForJSON _ _ _); split; congruence. }
  unfold refreshVMs. fold found. run_io.
  pose proof (setRefreshing_vms true this w) as (_ & _ & F1).
  destruct (setRefreshing true this w) as [this1 w1]. cbn [fst snd] in F1.
  rewrite F1, refresh_loop. cbn [app].
  match goal with
  | |- context [setRefreshing false ?t ?u] =>
      pose proof (setRefreshing_vms false t u) as (V2 & _ & F2);
      destruct (setRefreshing false t u) as [this2 w2]
  end.
  cbn in V2, F2. rewrite V2, F2. fold found. repeat split; try done.
  - intros p vm Hp Hvm. apply list_elem_of_omap. exists p.
    split; [done|]. by apply Hdec.
  - intros vm Hvm. apply list_elem_of_omap in Hvm as (p & Hp & Hd).
    exists p. split; [done|]. by apply Hdec.
Qed.

(** Creating a VM for an architecture without firmware: the disk image is
    made, the firmware step fails, the call returns [false]; the new
    directory and the disk image are on disk, the metadata file is not. *)
Example createVM_without_firmware :
  let r := createVM Sample.host (Some Sample.riscvDraft) Sample.world in
  r.1.1 = false
  ∧ files (fs r.2) !! Sample.infoPath = None
  ∧ files (fs r.2) !! (Sample.vmDir +:+ "/hdd.qcow2")
    = Some (mkFile "QFI 4G" true true)
  ∧ dirs (fs r.2) !! Sample.vmDir = Some true.
Proof. by vm_compute. Qed.

(** Creating a VM when qemu-img fails: the call returns [false] after the
    warning, the new directory is on disk, and neither a disk image nor
    a firmware file nor the metadata file has been written. *)
Example createVM_without_disk :
  let r := createVM Sample.fullDiskHost (Some Sample.draft) Sample.world in
  r.1.1 = false
  ∧ dirs (fs Sample.world) !! Sample.vmDir = None
  ∧ dirs (fs r.2) !! Sample.vmDir = Some true
  ∧ files (fs r.2) !! (Sample.vmDir +:+ "/hdd.qcow2") = None
  ∧ files (fs r.2) !! (Sample.vmDir +:+ "/efi.fd") = None
  ∧ files (fs r.2) !! Sample.infoPath = None
  ∧ last (log r.2)
    = Some (QtWarningMsg, ["qemu-img failed:"; "qemu-img: No space left"]).
Proof. by vm_compute. Qed.

(** The scenario of the specification: create a VM with two cores,
    2048 MiB and an 8 GiB disk; the directory then holds the disk image,
    both firmware files and a metadata file that decodes to the record. *)
Example createVM_end_to_end :
  let r := createVM Sample.host (Some Sample.draft) Sample.world in
  r.1 = (true, Some Sample.record)
  ∧ QFile.exists_ (fs r.2) (Sample.vmDir +:+ "/hdd.qcow2") = true
  ∧ QFile.exists_ (fs r.2) (Sample.vmDir +:+ "/efi.fd") = true
  ∧ QFile.exists_ (fs r.2) (Sample.vmDir +:+ "/efi_nvram.fd") = true
  ∧ match listEntryForJSON (fs r.2) Sample.infoPath Sample.vmDir with
    | inr vm => fromQml Sample.draft vm = Sample.record
    | inl _ => False
    end.
Proof. by vm_compute. Qed.

(** A storage root with one valid VM and one VM whose metadata file is
    empty: the catalog has exactly the valid one. *)
Example refreshVMs_skips_empty_metadata :
  let r := refreshVMs Sample.host (mkVMManager false []) Sample.twoVMs in
  length (QDirIterator.entries (fs Sample.twoVMs) Sample.appData "info.json")
  = 2%nat
  ∧ (λ vm, QVariant.value vm KEY_STORAGE) <$> m_vms r.1
    = [VString Sample.vmDir].
Proof. by vm_compute. Qed.

End Store.

(** ** The capability prober *)

Module Prober.
Import ProvisionFacts.

#[local] Arguments QFile.exists_ : simpl never.

(** C6.  [canVirtualize] returns [true] exactly when /dev/kvm exists, can
    be read and written by the current user, and the requested architecture
    is the host's, "arm64" being read as "aarch64"; without the device it
    returns [false] whatever the architectures.  It changes no file. *)
Theorem canVirtualize_iff (h : Host) (arch : string) (w : World) :
  let machineType :=
    if String.eqb (currentCpuArchitecture h) "arm64" then "aarch64"
    else currentCpuArchitecture h in
  let '(ok, w') := canVirtualize h arch w in
  (ok = true ↔
     QFile.exists_ (fs w) "/dev/kvm" = true
     ∧ QFileInfo.isReadable (fs w) "/dev/kvm" = true
     ∧ QFileInfo.isWritable (fs w) "/dev/kvm" = true
     ∧ arch = machineType)
  ∧ (QFile.exists_ (fs w) "/dev/kvm" = false → ok = false)
  ∧ fs w' = fs w.
Proof.
  intros machineType. unfold canVirtualize. fold machineType. run_io.
  destruct (QFile.exists_ (fs w) "/dev/kvm"); run_io;
    [|by repeat split; try done; intros (? & _)].
  destruct (QFileInfo.isReadable (fs w) "/dev/kvm"); run_io;
    [|by repeat split; try done; intros (_ & ? & _)].
  destruct (QFileInfo.isWritable (fs w) "/dev/kvm"); run_io;
    [|by repeat split; try done; intros (_ & _ & ? & _)].
  split; [|done]. split.
  - intros Heq. repeat split. symmetry. by apply String.eqb_eq.
  - intros (_ & _ & _ & ->). apply String.eqb_refl.
Qed.

(** An arm64 host without /dev/kvm cannot virtualize aarch64; with the
    device it can. *)
Example canVirtualize_needs_device :
  (canVirtualize Sample.host "aarch64" Sample.noKvm).1 = false
  ∧ (canVirtualize Sample.host "aarch64" Sample.world).1 = true
  ∧ (canVirtualize Sample.host "x86_64" Sample.world).1 = false.
Proof. by vm_compute. Qed.

End Prober.

(** ** The decoder, case by case *)

Module Decoder.
Import Codec.

Lemma contains_Some (o : gmap string QJsonValue) k v :
  o !! k = Some v → QJsonObject.contains o k = true.
Proof. intros H. unfold QJsonObject.contains. by rewrite H. Qed.

Lemma contains_None (o : gmap string QJsonValue) k :
  o !! k = None → QJsonObject.contains o k = false.
Proof.
  intros H. unfold QJsonObject.contains. rewrite H.
  apply bool_decide_eq_false_2. by intros [? ?].
Qed.

Lemma contains_value (o : gmap string QJsonValue) k :
  QJsonObject.contains o k = false → QJsonObject.value o k = JNull.
Proof.
  unfold QJsonObject.contains, QJsonObject.value.
  destruct (o !! k); [|done]. intros H.
  apply bool_decide_eq_false_1 in H. by destruct H.
Qed.

Lemma holds_object_inj fs path o1 o2 :
  Spec.holds_object fs path o1 → Spec.holds_object fs path o2 → o1 = o2.
Proof. intros (_ & _ & H1) (_ & _ & H2). congruence. Qed.

(** The payload behind an entry. *)
Lemma accepted_payload fs path storage0 vm :
  listEntryForJSON fs path storage0 = inr vm →
  ∃ o, Spec.holds_object fs path o ∧ Spec.first_missing o = None
       ∧ Spec.arch_of o ∈ VALID_ARCHES.
Proof.
  unfold listEntryForJSON.
  destruct (QFile.exists_ fs path) eqn:Hex; cbn [negb]; [|done].
  destruct (QFile.openReadOnly fs path) eqn:Hop; cbn [negb]; [|done].
  destruct (Parser.fromJson (QFile.readAll fs path)) as [e d] eqn:Hparse.
  destruct e; try done. destruct d as [| |o]; cbn [isObject negb object];
    try done.
  fold (Spec.arch_of o). intros Hvm. exists o.
  repeat (match type of Hvm with
          | context [negb (QJsonObject.contains o ?key)] =>
              let E := fresh "E" in
              destruct (QJsonObject.contains o key) eqn:E;
              cbn [negb] in Hvm; [|discriminate Hvm]
          | context [negb (bool_decide ?P)] =>
              let E := fresh "E" in
              destruct (bool_decide P) eqn:E;
              cbn [negb] in Hvm; [|discriminate Hvm]
          end).
  split; [done|]. split.
  - unfold Spec.first_missing, Spec.required_fields. cbn [find].
    by repeat (match goal with
               | E : QJsonObject.contains o _ = true |- _ =>
                   rewrite E; clear E
               end).
  - match goal with
    | E : bool_decide (_ ∈ VALID_ARCHES) = true |- _ =>
        by apply bool_decide_eq_true_1 in E
    end.
Qed.

Ltac lookup_entry :=
  unfold Spec.arch_of, KEY_STORAGE, KEY_DESC, KEY_ARCH, KEY_CORES, KEY_MEM,
    KEY_DVD, KEY_HDD, KEY_FLASH1, KEY_FLASH2, KEY_ENABLEFILESHARING,
    KEY_VIRGLRENDERER, KEY_EXTERNAL_WINDOW_ONLY;
  repeat (rewrite lookup_insert_eq || rewrite lookup_insert_ne by done);
  try done.

(** The entry made from an accepted payload, member by member. *)
Lemma accepted_entry fs path storage0 o :
  Spec.holds_object fs path o →
  Spec.first_missing o = None →
  Spec.arch_of o ∈ VALID_ARCHES →
  ∃ vm, listEntryForJSON fs path storage0 = inr vm
    ∧ vm !! "path" = Some (VString path)
    ∧ vm !! KEY_STORAGE = Some (VString storage0)
    ∧ (∀ k, k ∈ Spec.required_fields →
         vm !! k
         = Some (VString (QJsonValue.toString (QJsonObject.value o k))))
    ∧ (∀ k, k ∈ [KEY_VIRGLRENDERER; KEY_ENABLEFILESHARING] →
         vm !! k = Some (VBool (QJsonValue.toBool (QJsonObject.value o k))))
    ∧ vm !! KEY_EXTERNAL_WINDOW_ONLY
      = (if QJsonObject.contains o KEY_EXTERNAL_WINDOW_ONLY
         then Some (VBool (QJsonValue.toBool
                             (QJsonObject.value o KEY_EXTERNAL_WINDOW_ONLY)))
         else None)
    ∧ (∀ k, is_Some (vm !! k) →
         k ∈ ["path"; KEY_STORAGE; KEY_DESC; KEY_ARCH; KEY_CORES; KEY_MEM;
              KEY_HDD; KEY_DVD; KEY_FLASH1; KEY_FLASH2; KEY_VIRGLRENDERER;
              KEY_ENABLEFILESHARING; KEY_EXTERNAL_WINDOW_ONLY]).
Proof.
  intros H Hk Ha. decode_begin H.
  unfold Spec.first_missing, Spec.required_fields in Hk. cbn [find] in Hk.
  fold (Spec.arch_of o).
  repeat (match type of Hk with
          | context [QJsonObject.contains o ?key] =>
              let E := fresh "E" in
              destruct (QJsonObject.contains o key) eqn:E;
              cbn [negb] in Hk; [|discriminate Hk]
          end).
  cbn [negb]. rewrite bool_decide_eq_true_2 by done. cbn [negb].
  eexists; split; [reflexivity|].
  destruct (QJsonObject.contains o KEY_VIRGLRENDERER) eqn:O1;
    destruct (QJsonObject.contains o KEY_ENABLEFILESHARING) eqn:O2;
    destruct (QJsonObject.contains o KEY_EXTERNAL_WINDOW_ONLY) eqn:O3;
    (split; [by lookup_entry|]);
    (split; [by lookup_entry|]);
    (split;
       [intros k Hin; repeat (apply elem_of_cons in Hin as [->|Hin]);
          [by lookup_entry.. | by apply elem_of_nil in Hin]|]);
    (split;
       [intros k Hin; repeat (apply elem_of_cons in Hin as [->|Hin]);
          [rewrite ?(contains_value o KEY_VIRGLRENDERER) by done;
           rewrite ?(contains_value o KEY_ENABLEFILESHARING) by done;
           by lookup_entry..
          | by apply elem_of_nil in Hin]|]);
    (split; [by lookup_entry|]);
    intros k [v Hv];
    repeat (apply lookup_insert_Some in Hv as [[<- _]|[_ Hv]];
            [repeat (first [apply list_elem_of_here
                           | apply list_elem_of_further])|]);
    by rewrite lookup_empty in Hv.
Qed.

Lemma rejected_architecture fs path storage0 o :
  Spec.holds_object fs path o →
  QJsonObject.contains o KEY_DESC = true →
  QJsonObject.contains o KEY_ARCH = true →
  Spec.arch_of o ∉ VALID_ARCHES →
  listEntryForJSON fs path storage0
  = inl (ThrowLiteral "Invalid architecture").
Proof.
  intros H Hd Ha Hn. decode_begin H. rewrite Hd, Ha. cbn [negb].
  fold (Spec.arch_of o). by rewrite bool_decide_eq_false_2.
Qed.



(** The message thrown for some metadata files the reader rejects: a file
    cut short inside an object, inside a number and after a complete
    document, and a file with a member that has no colon. *)
Example decode_rejected_texts :
  let thrown (bytes : string) :=
    listEntryForJSON (Sample.diskWith bytes) Sample.infoPath Sample.vmDir in
  let member := String c_quote ("cores" +:+ String c_quote EmptyString) in
  thrown "{" = inl (ThrowString "unterminated object")
  ∧ thrown ("{" +:+ member +:+ ":1")
    = inl (ThrowString "invalid termination by number")
  ∧ thrown ("{" +:+ member +:+ " 1}")
    = inl (ThrowString "missing name separator")
  ∧ thrown ("{" +:+ member +:+ ":1,}")
    = inl (ThrowString "object is missing after a comma")
  ∧ thrown "{} {}" = inl (ThrowString "garbage at the end of the document")
  ∧ thrown "[1]" = inl (ThrowLiteral "Invalid VM information").
Proof. by vm_compute. Qed.

(** X2.  [listEntryForJSON] returns an entry exactly when the file exists,
    can be read, holds a JSON object with the eight required members, and
    the [arch] member is a string of [VALID_ARCHES]; nothing else is
    checked (not the type of the other members, not the text of [cores]
    and [mem]). *)
Theorem decode_accepts_iff (fs : FileSystem) (path storage0 : string) :
  (∃ vm, listEntryForJSON fs path storage0 = inr vm)
  ↔ ∃ o, Spec.holds_object fs path o
         ∧ (∀ k, k ∈ Spec.required_fields → is_Some (o !! k))
         ∧ ∃ a, o !! KEY_ARCH = Some (JString a) ∧ a ∈ VALID_ARCHES.
Proof.
  assert (∀ o, Spec.first_missing o = None ↔
               ∀ k, k ∈ Spec.required_fields → is_Some (o !! k)) as Hreq.
  { intros o. unfold Spec.first_missing. split.
    - intros H k Hk. rewrite list_elem_of_In in Hk.
      apply (find_none _ _ H) in Hk.
      apply negb_false_iff in Hk. by apply bool_decide_eq_true_1 in Hk.
    - intros H.
      destruct (find _ Spec.required_fields) as [k|] eqn:E; [|done].
      apply find_some in E as [Hk E]. rewrite <- list_elem_of_In in Hk.
      apply negb_true_iff, bool_decide_eq_false_1 in E.
      by destruct E; apply H. }
  assert (∀ o, Spec.arch_of o ∈ VALID_ARCHES ↔
               ∃ a, o !! KEY_ARCH = Some (JString a) ∧ a ∈ VALID_ARCHES)
    as Harch.
  { intros o. unfold Spec.arch_of, QJsonObject.value. split.
    - destruct (o !! KEY_ARCH) as [[]|]; cbn; intros Ha;
        try (by repeat (apply elem_of_cons in Ha as [Ha|Ha];
                          [discriminate Ha|]); apply elem_of_nil in Ha).
      eauto.
    - by intros (a & -> & Ha). }
  split.
  - intros [vm Hvm].
    destruct (accepted_payload _ _ _ _ Hvm) as (o & Ho & Hk & Ha).
    exists o. split; [done|]. split; [by apply Hreq | by apply Harch].
  - intros (o & Ho & Hk & Ha).
    destruct (accepted_entry fs path storage0 o) as (vm & Hvm & _);
      [done | by apply Hreq | by apply Harch |]. eauto.
Qed.

Ltac in_list :=
  repeat (first [apply list_elem_of_here | apply list_elem_of_further]).

(** X3.  The entry made from an accepted payload: [path] and [storage] are
    the arguments of the call (members of these names in the payload are
    not read), every required member is entered as a string, a member
    that is not a JSON string as the empty string, and the entry has no
    key besides these and the three optional ones. *)
Theorem entry_of_accepted_payload (fs : FileSystem) (path storage0 : string)
    (o : gmap string QJsonValue) :
  Spec.holds_object fs path o →
  Spec.first_missing o = None →
  Spec.arch_of o ∈ VALID_ARCHES →
  ∃ vm, listEntryForJSON fs path storage0 = inr vm
    ∧ vm !! "path" = Some (VString path)
    ∧ vm !! KEY_STORAGE = Some (VString storage0)
    ∧ (∀ k v, k ∈ Spec.required_fields → o !! k = Some v →
         vm !! k = Some (VString (QJsonValue.toString v))
         ∧ ((∀ s, v ≠ JString s) → vm !! k = Some (VString EmptyString)))
    ∧ (∀ k, is_Some (vm !! k) →
         k ∈ ["path"; KEY_STORAGE; KEY_DESC; KEY_ARCH; KEY_CORES; KEY_MEM;
              KEY_HDD; KEY_DVD; KEY_FLASH1; KEY_FLASH2; KEY_VIRGLRENDERER;
              KEY_ENABLEFILESHARING; KEY_EXTERNAL_WINDOW_ONLY]).
Proof.
  intros H Hk Ha.
  destruct (accepted_entry fs path storage0 o H Hk Ha)
    as (vm & Hvm & Hp & Hs & Hreq & _ & _ & Hdom).
  exists vm. repeat split; try done.
  - rewrite (Hreq k) by done. unfold QJsonObject.value.
    by match goal with Hv : o !! k = Some v |- _ => rewrite Hv end.
  - intros Hv. rewrite (Hreq k) by done. unfold QJsonObject.value.
    match goal with Hv : o !! k = Some v |- _ => rewrite Hv end.
    destruct v; try done. by destruct (Hv s).
Qed.

Lemma flat_insert k v o :
  JsonText.scalar v → JsonText.flat o → JsonText.flat (<[k:=v]> o).
Proof.
  intros Hv Ho k' v' Hk'.
  apply lookup_insert_Some in Hk' as [[_ <-]|[_ Hk']]; [done|].
  by apply (Ho k').
Qed.

Lemma entry_of_accepted_payload_witness :
  let o := <[KEY_CORES := JNull]> (Sample.minimal "x86_64") in
  ∃ vm, listEntryForJSON (Sample.diskWith (Sample.payload o))
          Sample.infoPath Sample.vmDir = inr vm
    ∧ vm !! "path" = Some (VString Sample.infoPath)
    ∧ vm !! KEY_STORAGE = Some (VString Sample.vmDir)
    ∧ vm !! KEY_CORES = Some (VString EmptyString).
Proof.
  intros o.
  destruct (entry_of_accepted_payload (Sample.diskWith (Sample.payload o))
              Sample.infoPath Sample.vmDir o)
    as (vm & Hvm & Hp & Hs & Hreq & _).
  - apply holds_payload, flat_insert; [done | apply flat_minimal].
  - by vm_compute.
  - rewrite list_elem_of_In. vm_compute. auto.
  - exists vm. split; [exact Hvm|]. split; [exact Hp|].
    split; [exact Hs|].
    apply (Hreq KEY_CORES JNull); [in_list | by vm_compute | done].
Defined.

(** X4.  The optional members of an accepted payload: a member that is
    present is entered with its boolean value, and as [false] when its value
    is not a JSON boolean (the string "true" reads as [false]). *)
Theorem optional_members_as_booleans (fs : FileSystem)
    (path storage0 : string) (o : gmap string QJsonValue) :
  Spec.holds_object fs path o →
  Spec.first_missing o = None →
  Spec.arch_of o ∈ VALID_ARCHES →
  ∃ vm, listEntryForJSON fs path storage0 = inr vm
    ∧ ∀ k v,
        k ∈ [KEY_VIRGLRENDERER; KEY_ENABLEFILESHARING;
             KEY_EXTERNAL_WINDOW_ONLY] →
        o !! k = Some v →
        vm !! k = Some (VBool (QJsonValue.toBool v))
        ∧ ((∀ b, v ≠ JBool b) → vm !! k = Some (VBool false)).
Proof.
  intros H Hk Ha.
  destruct (accepted_entry fs path storage0 o H Hk Ha)
    as (vm & Hvm & _ & _ & _ & Hopt & Hext & _).
  exists vm. split; [done|]. intros k v Hin Hv.
  assert (vm !! k = Some (VBool (QJsonValue.toBool v))) as Hvm'.
  { apply elem_of_cons in Hin as [->|Hin];
      [|apply elem_of_cons in Hin as [->|Hin]].
    - rewrite (Hopt KEY_VIRGLRENDERER) by in_list.
      unfold QJsonObject.value. by rewrite Hv.
    - rewrite (Hopt KEY_ENABLEFILESHARING) by in_list.
      unfold QJsonObject.value. by rewrite Hv.
    - apply list_elem_of_singleton in Hin as ->.
      rewrite Hext, (contains_Some _ _ _ Hv).
      unfold QJsonObject.value. by rewrite Hv. }
  split; [done|]. intros Hb. rewrite Hvm'.
  destruct v; try done. by destruct (Hb b).
Qed.

Lemma optional_members_as_booleans_witness :
  let o := <[KEY_EXTERNAL_WINDOW_ONLY := JString "true"]>
             (<[KEY_VIRGLRENDERER := JBool true]> (Sample.minimal "x86_64")) in
  ∃ vm, listEntryForJSON (Sample.diskWith (Sample.payload o))
          Sample.infoPath Sample.vmDir = inr vm
    ∧ vm !! KEY_VIRGLRENDERER = Some (VBool true)
    ∧ vm !! KEY_EXTERNAL_WINDOW_ONLY = Some (VBool false).
Proof.
  intros o.
  destruct (optional_members_as_booleans
              (Sample.diskWith (Sample.payload o))
              Sample.infoPath Sample.vmDir o)
    as (vm & Hvm & Hopt).
  - apply holds_payload, flat_insert; [done|].
    apply flat_insert; [done | apply flat_minimal].
  - by vm_compute.
  - rewrite list_elem_of_In. vm_compute. auto.
  - exists vm. split; [exact Hvm|]. split.
    + apply (Hopt KEY_VIRGLRENDERER (JBool true)); [in_list | by vm_compute].
    + apply (Hopt KEY_EXTERNAL_WINDOW_ONLY (JString "true"));
        [in_list | by vm_compute | done].
Defined.

End Decoder.

(** ** From the payload to the record, and back to the text *)

Module Records.
Import Codec Decoder.

Lemma variant_toInt_is_int v : QString.is_int (QVariant.toInt v).
Proof.
  destruct v as [|[]|s]; cbn [QVariant.toInt];
    [by vm_compute.. | apply Numbers.to_int_range].
Qed.

(** What [QVariant::toInt] makes of the decimal text of a number: the
    number converted to [int] when it fits a [qlonglong], 0 otherwise. *)
Lemma variant_toInt_number n :
  QVariant.toInt (VString (QString.number n))
  = if bool_decide (QString.LLONG_MIN <= n <= QString.LLONG_MAX)
    then to_int n else 0.
Proof.
  cbn [QVariant.toInt]. case_bool_decide as Hn.
  - by rewrite Numbers.toLongLong_number.
  - by rewrite Numbers.toLongLong_number_overflow.
Qed.

(** The machine [fromQml] makes of the entry of an accepted payload. *)
Lemma decoded_machine (fs : FileSystem) (path storage0 : string)
    (o : gmap string QJsonValue) (fresh : Machine) :
  Spec.holds_object fs path o →
  Spec.first_missing o = None →
  Spec.arch_of o ∈ VALID_ARCHES →
  ∃ vm, listEntryForJSON fs path storage0 = inr vm
    ∧ fromQml fresh vm
      = {| storage := storage0;
           name := QJsonValue.toString (QJsonObject.value o KEY_DESC);
           arch := QJsonValue.toString (QJsonObject.value o KEY_ARCH);
           cores := to_int (QString.toLongLong
                      (QJsonValue.toString (QJsonObject.value o KEY_CORES)));
           mem := to_int (QString.toLongLong
                    (QJsonValue.toString (QJsonObject.value o KEY_MEM)));
           hdd := QJsonValue.toString (QJsonObject.value o KEY_HDD);
           dvd := QJsonValue.toString (QJsonObject.value o KEY_DVD);
           flash1 := QJsonValue.toString (QJsonObject.value o KEY_FLASH1);
           flash2 := QJsonValue.toString (QJsonObject.value o KEY_FLASH2);
           hddSize := hddSize fresh;
           useVirglrenderer :=
             QJsonValue.toBool (QJsonObject.value o KEY_VIRGLRENDERER);
           enableFileSharing :=
             QJsonValue.toBool (QJsonObject.value o KEY_ENABLEFILESHARING);
           externalWindowOnly :=
             QJsonValue.toBool (QJsonObject.value o KEY_EXTERNAL_WINDOW_ONLY)
        |}.
Proof.
  intros H Hk Ha.
  destruct (accepted_entry fs path storage0 o H Hk Ha)
    as (vm & Hvm & _ & Hs & Hreq & Hopt & Hext & _).
  exists vm. split; [done|].
  unfold fromQml, QVariant.value.
  rewrite Hs, (Hreq KEY_DESC), (Hreq KEY_ARCH), (Hreq KEY_CORES),
    (Hreq KEY_MEM), (Hreq KEY_HDD), (Hreq KEY_DVD), (Hreq KEY_FLASH1),
    (Hreq KEY_FLASH2), (Hopt KEY_VIRGLRENDERER),
    (Hopt KEY_ENABLEFILESHARING), Hext by in_list.
  cbn [from_option id QVariant.toString QVariant.toInt QVariant.toBool].
  f_equal.
  destruct (QJsonObject.contains o KEY_EXTERNAL_WINDOW_ONLY) eqn:E;
    [done|]. by rewrite (contains_value _ _ E).
Qed.

(** X5.  Decoding an accepted payload into a [Machine], member by member:
    [storage] is the directory handed to [listEntryForJSON], the strings
    are the payload's, [cores] and [mem] are the payload's text read as
    [QVariant::toInt] reads a string (with [toLongLong], the result then
    converted to [int]), [hddSize] is not read, and each optional boolean
    is the payload's, [false] when the member is missing.  So [cores] and
    [mem] are 0 for a JSON number or any other value that is not a string,
    and for the decimal text of a number [n] they are [n] converted to
    [int] when [n] fits a [qlonglong] (the text "4294967297" gives 1) and
    0 when it does not. *)
Theorem decode_to_machine (fs : FileSystem) (path storage0 : string)
    (o : gmap string QJsonValue) (fresh : Machine) :
  Spec.holds_object fs path o →
  Spec.first_missing o = None →
  Spec.arch_of o ∈ VALID_ARCHES →
  ∃ vm, listEntryForJSON fs path storage0 = inr vm
    ∧ fromQml fresh vm
      = {| storage := storage0;
           name := QJsonValue.toString (QJsonObject.value o KEY_DESC);
           arch := QJsonValue.toString (QJsonObject.value o KEY_ARCH);
           cores := to_int (QString.toLongLong
                      (QJsonValue.toString (QJsonObject.value o KEY_CORES)));
           mem := to_int (QString.toLongLong
                    (QJsonValue.toString (QJsonObject.value o KEY_MEM)));
           hdd := QJsonValue.toString (QJsonObject.value o KEY_HDD);
           dvd := QJsonValue.toString (QJsonObject.value o KEY_DVD);
           flash1 := QJsonValue.toString (QJsonObject.value o KEY_FLASH1);
           flash2 := QJsonValue.toString (QJsonObject.value o KEY_FLASH2);
           hddSize := hddSize fresh;
           useVirglrenderer :=
             QJsonValue.toBool (QJsonObject.value o KEY_VIRGLRENDERER);
           enableFileSharing :=
             QJsonValue.toBool (QJsonObject.value o KEY_ENABLEFILESHARING);
           externalWindowOnly :=
             QJsonValue.toBool (QJsonObject.value o KEY_EXTERNAL_WINDOW_ONLY)
        |}
    ∧ (∀ v, o !! KEY_CORES = Some v → (∀ s, v ≠ JString s) →
         cores (fromQml fresh vm) = 0)
    ∧ (∀ v, o !! KEY_MEM = Some v → (∀ s, v ≠ JString s) →
         mem (fromQml fresh vm) = 0)
    ∧ (∀ n, o !! KEY_CORES = Some (JString (QString.number n)) →
         cores (fromQml fresh vm)
         = if bool_decide (QString.LLONG_MIN <= n <= QString.LLONG_MAX)
           then to_int n else 0)
    ∧ (∀ n, o !! KEY_MEM = Some (JString (QString.number n)) →
         mem (fromQml fresh vm)
         = if bool_decide (QString.LLONG_MIN <= n <= QString.LLONG_MAX)
           then to_int n else 0).
Proof.
  intros H Hk Ha.
  destruct (decoded_machine fs path storage0 o fresh H Hk Ha)
    as (vm & Hvm & Hm).
  exists vm. split; [done|]. split; [exact Hm|].
  split; [|split; [|split]].
  1, 2: intros v Hv Hnot; rewrite Hm; cbn [cores mem];
    unfold QJsonObject.value; rewrite Hv; cbn [from_option id];
    (destruct v; try done; by destruct (Hnot s)).
  all: intros n Hn; rewrite Hm; cbn [cores mem];
    unfold QJsonObject.value; rewrite Hn;
    cbn [from_option id QJsonValue.toString];
    apply (variant_toInt_number n).
Qed.

Lemma decode_to_machine_witness :
  let o := <[KEY_CORES := JString "4294967297"]>
             (<[KEY_MEM := JNull]> (Sample.minimal "x86_64")) in
  ∃ vm, listEntryForJSON (Sample.diskWith (Sample.payload o))
          Sample.infoPath Sample.vmDir = inr vm
    ∧ cores (fromQml Sample.fresh vm) = 1
    ∧ mem (fromQml Sample.fresh vm) = 0
    ∧ externalWindowOnly (fromQml Sample.fresh vm) = false.
Proof.
  intros o.
  destruct (decode_to_machine (Sample.diskWith (Sample.payload o))
              Sample.infoPath Sample.vmDir o Sample.fresh)
    as (vm & Hvm & Hm & _).
  - apply holds_payload, flat_insert; [done|].
    apply flat_insert; [done | apply flat_minimal].
  - by vm_compute.
  - rewrite list_elem_of_In. vm_compute. auto.
  - exists vm. split; [exact Hvm|]. rewrite Hm. vm_compute.
    repeat split.
Defined.

(** X6.  What [fromQml] makes of [cores] and [mem] in any map.  The value
    is converted as [QVariant::toInt] does: for the decimal text of a
    number [n] the member is [n] when [n] fits an [int]; when [n] fits a
    [qlonglong] and not an [int] it wraps around modulo 2^32 (the text of
    2^32 + [k] reads as [k], that of 2^31 as -2^31); when [n] does not fit
    a [qlonglong] it is 0.  A boolean reads as 1 or 0 and a missing key as
    0.  In every case the member is within the range of [int], and
    [hddSize] is left as [new Machine()] set it. *)
Theorem fromQml_sizes_wrap (fresh : Machine) (vm : gmap string QVariant) :
  let reads (key : string) (member : Machine → Z) :=
    (∀ n, vm !! key = Some (VString (QString.number n)) →
       (QString.is_int n → member (fromQml fresh vm) = n)
       ∧ (QString.LLONG_MIN <= n <= QString.LLONG_MAX →
            member (fromQml fresh vm) = (n + 2 ^ 31) mod 2 ^ 32 - 2 ^ 31)
       ∧ (∀ k, QString.is_int k → n = 2 ^ 32 + k →
            member (fromQml fresh vm) = k)
       ∧ (n < QString.LLONG_MIN ∨ QString.LLONG_MAX < n →
            member (fromQml fresh vm) = 0))
    ∧ (∀ b : bool, vm !! key = Some (VBool b) →
         member (fromQml fresh vm) = if b then 1 else 0)
    ∧ (vm !! key = None → member (fromQml fresh vm) = 0)
    ∧ QString.is_int (member (fromQml fresh vm)) in
  reads KEY_CORES cores ∧ reads KEY_MEM mem
  ∧ hddSize (fromQml fresh vm) = hddSize fresh.
Proof.
  assert (∀ v,
    (∀ n, v = Some (VString (QString.number n)) →
       (QString.is_int n → QVariant.toInt (default VInvalid v) = n)
       ∧ (QString.LLONG_MIN <= n <= QString.LLONG_MAX →
            QVariant.toInt (default VInvalid v)
            = (n + 2 ^ 31) mod 2 ^ 32 - 2 ^ 31)
       ∧ (∀ k, QString.is_int k → n = 2 ^ 32 + k →
            QVariant.toInt (default VInvalid v) = k)
       ∧ (n < QString.LLONG_MIN ∨ QString.LLONG_MAX < n →
            QVariant.toInt (default VInvalid v) = 0))
    ∧ (∀ b : bool, v = Some (VBool b) →
         QVariant.toInt (default VInvalid v) = if b then 1 else 0)
    ∧ (v = None → QVariant.toInt (default VInvalid v) = 0)
    ∧ QString.is_int (QVariant.toInt (default VInvalid v))) as Hread.
  { intros v. split; [|split; [|split]].
    - intros n ->. cbn [default from_option id].
      rewrite variant_toInt_number.
      unfold QString.is_int, QString.INT_MIN, QString.INT_MAX,
        QString.LLONG_MIN, QString.LLONG_MAX.
      split; [|split; [|split]].
      + intros Hn. rewrite bool_decide_eq_true_2 by lia.
        by apply Numbers.to_int_of_int.
      + intros Hn. by rewrite bool_decide_eq_true_2.
      + intros k Hk ->. rewrite bool_decide_eq_true_2 by lia.
        unfold to_int.
        replace (2 ^ 32 + k + 2 ^ 31) with (k + 2 ^ 31 + 1 * 2 ^ 32) by lia.
        rewrite Z.mod_add by lia. rewrite Z.mod_small; lia.
      + intros Hn. rewrite bool_decide_eq_false_2; [done | lia].
    - by intros b ->.
    - by intros ->.
    - apply variant_toInt_is_int. }
  cbv zeta. split; [|split; [|done]].
  - apply (Hread (vm !! KEY_CORES)).
  - apply (Hread (vm !! KEY_MEM)).
Qed.

(** Texts an edited metadata file can hold for a size: a number past
    the range of [int] wraps around, one past the range of [qlonglong]
    and a text that is no number read as 0. *)
Example fromQml_reads_sizes :
  let read (s : string) :=
    cores (fromQml Sample.fresh (<[KEY_CORES := VString s]> ∅)) in
  read "4" = 4 ∧ read " 4 " = 4 ∧ read "4294967297" = 1
  ∧ read "2147483648" = -2147483648 ∧ read "-2147483649" = 2147483647
  ∧ read "9223372036854775808" = 0 ∧ read "four" = 0
  ∧ read EmptyString = 0.
Proof. by vm_compute. Qed.

Lemma number_inj n1 n2 : QString.number n1 = QString.number n2 → n1 = n2.
Proof.
  intros Hn. apply (f_equal NilZero.int_of_string) in Hn.
  rewrite !Numbers.int_of_string_number in Hn. injection Hn as Hn.
  apply (f_equal Z.of_int) in Hn. by rewrite !DecimalZ.of_to in Hn.
Qed.

(** X7.  [machineToJSON] separates records: two machines have the same
    encoding exactly when they agree on every member but [storage] and
    [hddSize], the two members that are not written. *)
Theorem machineToJSON_injective (m1 m2 : Machine) :
  machineToJSON m1 = machineToJSON m2
  ↔ set_storage (storage m2) (set_hddSize (hddSize m2) m1) = m2.
Proof.
  split.
  - intros Heq. apply (f_equal Parser.fromJson) in Heq.
    rewrite !fromJson_machineToJSON in Heq.
    apply (f_equal (λ r, object r.2)) in Heq. cbn [snd object] in Heq.
    assert (∀ k, machineObject m1 !! k = machineObject m2 !! k) as Hk
      by (intros k; by rewrite Heq).
    pose proof (Hk KEY_DESC) as H1. pose proof (Hk KEY_ARCH) as H2.
    pose proof (Hk KEY_CORES) as H3. pose proof (Hk KEY_MEM) as H4.
    pose proof (Hk KEY_DVD) as H5. pose proof (Hk KEY_HDD) as H6.
    pose proof (Hk KEY_FLASH1) as H7. pose proof (Hk KEY_FLASH2) as H8.
    pose proof (Hk KEY_VIRGLRENDERER) as H9.
    pose proof (Hk KEY_ENABLEFILESHARING) as H10.
    pose proof (Hk KEY_EXTERNAL_WINDOW_ONLY) as H11.
    clear Hk Heq.
    destruct m1 as [s1 n1 a1 c1 r1 h1 d1 p1 q1 z1 v1 e1 x1].
    destruct m2 as [s2 n2 a2 c2 r2 h2 d2 p2 q2 z2 v2 e2 x2].
    vm_compute in H1, H2, H5, H6, H7, H8, H9, H10, H11.
    change (Some (JString (QString.number c1))
            = Some (JString (QString.number c2))) in H3.
    change (Some (JString (QString.number r1))
            = Some (JString (QString.number r2))) in H4.
    injection H3 as H3%number_inj. injection H4 as H4%number_inj.
    unfold set_storage, set_hddSize. cbn. congruence.
  - intros <-. by destruct m1.
Qed.

End Records.

(** ** The catalog *)

Module Catalog.
Import Provision ProvisionFacts PathFacts Codec Decoder Records Store.

#[local] Arguments listEntryForJSON : simpl never.
#[local] Arguments QDirIterator.entries : simpl never.
#[local] Arguments String.append : simpl never.

(** [refreshVMs], run. *)
Lemma refreshVMs_run h this w :
  refreshVMs h this w
  = (mkVMManager false
       (omap (Spec.decoded (fs w))
          (QDirIterator.entries (fs w) (appDataLocation h) "info.json")),
     mkWorld (fs w) (uuids w) (log w)
       (emitted w
        ++ (if m_refreshing this then [] else [refreshingChanged])
        ++ [vmsChanged; refreshingChanged])).
Proof.
  unfold refreshVMs, setRefreshing. destruct this as [[|] vms]; run_io;
    rewrite refresh_loop; cbn [app]; by rewrite <- !app_assoc.
Qed.

(** X8.  The signals of a refresh: [vmsChanged] is emitted exactly once,
    whether or not the catalog changed; [refreshingChanged] is emitted
    before it unless the manager was refreshing already, and once after it.
    The manager ends not refreshing, and nothing is logged. *)
Theorem refreshVMs_signals (h : Host) (this : VMManager) (w : World) :
  let '(this', w') := refreshVMs h this w in
  m_refreshing this' = false
  ∧ emitted w'
    = (emitted w
       ++ (if m_refreshing this then [] else [refreshingChanged])
       ++ [vmsChanged; refreshingChanged])%list
  ∧ log w' = log w
  ∧ uuids w' = uuids w.
Proof. by rewrite refreshVMs_run. Qed.

Lemma elem_of_entries fs0 root nameFilter p :
  p ∈ QDirIterator.entries fs0 root nameFilter
  ↔ is_Some (files fs0 !! p) ∧ Path.below root p = true
    ∧ QDirIterator.nameMatches nameFilter p = true.
Proof.
  unfold QDirIterator.entries. rewrite list_elem_of_filter, list_elem_of_fmap.
  split.
  - intros (Hp & [q f] & -> & Hq). apply elem_of_map_to_list in Hq.
    cbn in *. apply andb_prop_elim in Hp as [H1 H2].
    split; [by eexists|]. split; by apply Is_true_eq_true.
  - intros ([f Hf] & H1 & H2). split.
    + rewrite H1, H2. done.
    + exists (p, f). split; [done|]. by apply elem_of_map_to_list.
Qed.

Lemma NoDup_entries fs0 root nameFilter :
  NoDup (QDirIterator.entries fs0 root nameFilter).
Proof.
  unfold QDirIterator.entries. apply NoDup_filter, NoDup_fst_map_to_list.
Qed.

Lemma decoded_at fs0 p vm :
  Spec.decoded fs0 p = Some vm → vm !! "path" = Some (VString p).
Proof.
  unfold Spec.decoded.
  destruct (listEntryForJSON fs0 p _) as [|vm'] eqn:Hvm; [done|].
  intros [= ->].
  destruct (accepted_payload _ _ _ _ Hvm) as (o & Ho & Hk & Ha).
  destruct (accepted_entry _ _ (QFileInfo.canonicalPath fs0 p) _ Ho Hk Ha)
    as (vm' & Hvm' & Hpath & _).
  rewrite Hvm in Hvm'. by injection Hvm' as <-.
Qed.

Lemma NoDup_decoded_paths fs0 l :
  NoDup l →
  NoDup (omap (λ vm : gmap string QVariant, vm !! "path")
           (omap (Spec.decoded fs0) l)).
Proof.
  induction 1 as [|p l Hp Hl IH]; cbn [omap list_omap]; [constructor|].
  destruct (Spec.decoded fs0 p) as [vm|] eqn:Hd; [|done].
  cbn [omap list_omap]. rewrite (decoded_at _ _ _ Hd).
  constructor; [|done]. intros Hin.
  apply list_elem_of_omap in Hin as (vm' & Hvm' & Hpath).
  apply list_elem_of_omap in Hvm' as (q & Hq & Hdq).
  rewrite (decoded_at _ _ _ Hdq) in Hpath. by injection Hpath as <-.
Qed.

(** X9.  Every entry of the catalog stands for a readable file below the
    application's data directory whose name is "info.json" in any mix of
    cases, at any depth; the entry's [path] is that file and its [storage]
    is the directory that holds the file.  No two entries have the same
    [path]. *)
Theorem catalog_entries_located (h : Host) (this : VMManager) (w : World) :
  let '(this', w') := refreshVMs h this w in
  (∀ vm, vm ∈ m_vms this' →
     ∃ p, vm !! "path" = Some (VString p)
          ∧ vm !! KEY_STORAGE = Some (VString (Path.path p))
          ∧ Path.below (appDataLocation h) p = true
          ∧ QString.toLower (Path.fileName p) = "info.json"
          ∧ QFile.openReadOnly (fs w) p = true)
  ∧ NoDup (omap (λ vm : gmap string QVariant, vm !! "path") (m_vms this')).
Proof.
  rewrite refreshVMs_run. cbn [m_vms].
  split; [|apply NoDup_decoded_paths, NoDup_entries].
  intros vm Hvm.
  apply list_elem_of_omap in Hvm as (p & Hp & Hd).
  apply elem_of_entries in Hp as (Hf & Hbelow & Hname).
  unfold Spec.decoded in Hd.
  destruct (listEntryForJSON (fs w) p _) as [|vm'] eqn:Hvm; [done|].
  injection Hd as ->.
  destruct (accepted_payload _ _ _ _ Hvm) as (o & Ho & Hk & Ha).
  destruct (accepted_entry _ _ (QFileInfo.canonicalPath (fs w) p) _ Ho Hk Ha)
    as (vm' & Hvm' & Hpath & Hstorage & _).
  rewrite Hvm in Hvm'. injection Hvm' as <-.
  exists p. split; [done|]. split.
  { rewrite Hstorage. unfold QFileInfo.canonicalPath.
    by rewrite (proj1 Ho). }
  split; [done|]. split; [|apply Ho].
  unfold QDirIterator.nameMatches in Hname.
  by apply String.eqb_eq in Hname.
Qed.

End Catalog.

(** ** Editing, provisioning and creating, end to end *)

Module Lifecycle.
Import Provision ProvisionFacts PathFacts Provisioning Codec Decoder Records
  Store.

#[local] Arguments QFile.copy : simpl never.
#[local] Arguments QFile.remove : simpl never.
#[local] Arguments QFile.exists_ : simpl never.
#[local] Arguments QFile.openReadWrite : simpl never.
#[local] Arguments QFile.write : simpl never.
#[local] Arguments QDir.mkpath : simpl never.
#[local] Arguments createVM_directory : simpl never.
#[local] Arguments createVM_hdd : simpl never.
#[local] Arguments createVM_metadata : simpl never.
#[local] Arguments resetEFIFirmware : simpl never.
#[local] Arguments resetEFINVRAM : simpl never.
#[local] Arguments machineToJSON : simpl never.
#[local] Arguments listEntryForJSON : simpl never.
#[local] Arguments String.append : simpl never.

(** The members of the object [machineToJSON] writes. *)
Lemma value_machineObject m :
  QJsonObject.value (machineObject m) KEY_DESC = JString (name m)
  ∧ QJsonObject.value (machineObject m) KEY_ARCH = JString (arch m)
  ∧ QJsonObject.value (machineObject m) KEY_CORES
    = JString (QString.number (cores m))
  ∧ QJsonObject.value (machineObject m) KEY_MEM
    = JString (QString.number (mem m))
  ∧ QJsonObject.value (machineObject m) KEY_HDD = JString (hdd m)
  ∧ QJsonObject.value (machineObject m) KEY_DVD = JString (dvd m)
  ∧ QJsonObject.value (machineObject m) KEY_FLASH1 = JString (flash1 m)
  ∧ QJsonObject.value (machineObject m) KEY_FLASH2 = JString (flash2 m)
  ∧ QJsonObject.value (machineObject m) KEY_VIRGLRENDERER
    = JBool (useVirglrenderer m)
  ∧ QJsonObject.value (machineObject m) KEY_ENABLEFILESHARING
    = JBool (enableFileSharing m)
  ∧ QJsonObject.value (machineObject m) KEY_EXTERNAL_WINDOW_ONLY
    = JBool (externalWindowOnly m).
Proof. by repeat split. Qed.

Lemma first_missing_machineObject m :
  Spec.first_missing (machineObject m) = None.
Proof. reflexivity. Qed.

(** A file that holds the encoding of [m], read back. *)
Lemma decode_written fs0 path storage0 m fresh :
  files fs0 !! path = Some (mkFile (machineToJSON m) true true) →
  (arch m ∈ VALID_ARCHES →
     ∃ vm, listEntryForJSON fs0 path storage0 = inr vm
           ∧ (QString.is_int (cores m) → QString.is_int (mem m) →
              fromQml fresh vm
              = set_storage storage0 (set_hddSize (hddSize fresh) m)))
  ∧ (arch m ∉ VALID_ARCHES →
     listEntryForJSON fs0 path storage0
     = inl (ThrowLiteral "Invalid architecture")).
Proof.
  intros Hfile.
  assert (Spec.holds_object fs0 path (machineObject m)) as Ho.
  { unfold Spec.holds_object, QFile.exists_, QFile.openReadOnly,
      QFile.readAll. rewrite Hfile. cbn [f_readable f_data].
    split; [by apply bool_decide_eq_true_2|]. split; [done|].
    apply fromJson_machineToJSON. }
  split; intros Ha.
  - destruct (decoded_machine fs0 path storage0 (machineObject m) fresh Ho
                (first_missing_machineObject m) Ha) as (vm & Hvm & Hm).
    exists vm. split; [done|]. intros Hc Hr. rewrite Hm.
    destruct (value_machineObject m)
      as (-> & -> & -> & -> & -> & -> & -> & -> & -> & -> & ->).
    cbn [QJsonValue.toString QJsonValue.toBool].
    rewrite !Numbers.toInt_number by done. by destruct m.
  - by apply (rejected_architecture fs0 path storage0 (machineObject m)).
Qed.

Lemma openReadWrite_truncated path fs0 :
  (QFile.openReadWrite true path fs0).1 = true →
  files (QFile.openReadWrite true path fs0).2 !! path
  = Some (mkFile EmptyString true true).
Proof.
  unfold QFile.openReadWrite.
  destruct (files fs0 !! path) as [f|].
  - destruct (f_readable f && f_writable f); [|done].
    intros _. cbn. by rewrite lookup_insert_eq.
  - destruct (parentWritable fs0 path); [|done].
    intros _. cbn. by rewrite lookup_insert_eq.
Qed.

Lemma editVM_written m w :
  (editVM (Some m) w).1 = true →
  files (fs (editVM (Some m) w).2) !! (storage m +:+ "/info.json")
  = Some (mkFile (machineToJSON m) true true).
Proof.
  unfold editVM. run_io.
  pose proof (openReadWrite_truncated (storage m +:+ "/info.json") (fs w))
    as Hopen.
  destruct (QFile.openReadWrite true _ (fs w)) as [[|] fs1];
    cbn [fst snd] in *; run_io; [|done].
  intros _. unfold QFile.write. cbn [files set_files].
  rewrite lookup_alter_eq, Hopen by done. cbn.
  by rewrite overwrite_empty.
Qed.

(** X10.  What [editVM] wrote, read back.  After a successful [editVM] the
    metadata file decodes to the record that was written, [hddSize] apart,
    when the record's architecture is one of [VALID_ARCHES] and its sizes
    are [int]s.  [editVM] itself does not look at the architecture: a record
    with any other architecture is written all the same, and the file is
    rejected from then on. *)
Theorem editVM_then_decode (m fresh : Machine) (w : World) :
  (editVM (Some m) w).1 = true →
  let fs' := fs (editVM (Some m) w).2 in
  let jsonFilePath := storage m +:+ "/info.json" in
  (arch m ∈ VALID_ARCHES →
     ∃ vm, listEntryForJSON fs' jsonFilePath (storage m) = inr vm
           ∧ (QString.is_int (cores m) → QString.is_int (mem m) →
              fromQml fresh vm = set_hddSize (hddSize fresh) m))
  ∧ (arch m ∉ VALID_ARCHES →
     listEntryForJSON fs' jsonFilePath (storage m)
     = inl (ThrowLiteral "Invalid architecture")).
Proof.
  intros Hok fs' jsonFilePath.
  destruct (decode_written fs' jsonFilePath (storage m) m fresh
              (editVM_written m w Hok)) as [Hvalid Hinvalid].
  split; [|done]. intros Ha. destruct (Hvalid Ha) as (vm & Hvm & Hm).
  exists vm. split; [done|]. intros Hc Hr. rewrite Hm by done.
  by destruct m.
Qed.

Lemma editVM_then_decode_witness :
  let fs' := fs (editVM (Some Sample.record) Sample.vmWorld).2 in
  let jsonFilePath := storage Sample.record +:+ "/info.json" in
  (arch Sample.record ∈ VALID_ARCHES →
     ∃ vm, listEntryForJSON fs' jsonFilePath (storage Sample.record) = inr vm
           ∧ (QString.is_int (cores Sample.record) →
              QString.is_int (mem Sample.record) →
              fromQml Sample.fresh vm
              = set_hddSize (hddSize Sample.fresh) Sample.record))
  ∧ (arch Sample.record ∉ VALID_ARCHES →
     listEntryForJSON fs' jsonFilePath (storage Sample.record)
     = inl (ThrowLiteral "Invalid architecture")).
Proof.
  apply (editVM_then_decode Sample.record Sample.fresh Sample.vmWorld).
  by vm_compute.
Defined.

Lemma run_unreadable src target fs0 :
  QFile.openReadOnly fs0 src = false → src ≠ target →
  run src target fs0
  = (false,
     if QFile.exists_ fs0 target then (QFile.remove target fs0).2 else fs0).
Proof.
  intros Hsrc Hne. unfold run.
  set (fs1 := if QFile.exists_ fs0 target then _ else _).
  assert (files fs1 !! src = files fs0 !! src) as Hsame.
  { unfold fs1. destruct (QFile.exists_ fs0 target); [|done].
    by apply remove_frame. }
  unfold QFile.copy. rewrite Hsame.
  unfold QFile.openReadOnly in Hsrc.
  destruct (files fs0 !! src) as [f|]; [|done]. by rewrite Hsrc.
Qed.

Lemma remove_gone target fs0 :
  parentWritable fs0 target = true →
  QFile.exists_
    (if QFile.exists_ fs0 target then (QFile.remove target fs0).2 else fs0)
    target = false.
Proof.
  intros Hpw. destruct (QFile.exists_ fs0 target) eqn:Hex; [|done].
  unfold QFile.remove. rewrite Hex, Hpw. cbn [andb snd].
  unfold QFile.exists_, set_files. cbn [files].
  rewrite lookup_delete_eq. apply bool_decide_eq_false_2. by intros [? ?].
Qed.

(** X11.  A firmware step whose source cannot be read fails, and the machine
    keeps its [flash1] (or [flash2]); but the target was removed before the
    copy was tried: where the directory accepts the removal, the firmware
    file (or the NVRAM file, with the settings the guest stored in it) that
    the VM had is gone.  No other file changes. *)
Theorem reset_without_source (h : Host) (m : Machine) (w : World) :
  (QFile.openReadOnly (fs w) (efiFw h m) = false →
     let r := resetEFIFirmware h m w in
     r.1 = (false, m)
     ∧ (parentWritable (fs w) (efiFwTarget m) = true →
        QFile.exists_ (fs r.2) (efiFwTarget m) = false)
     ∧ ∀ p, p ≠ efiFwTarget m → files (fs r.2) !! p = files (fs w) !! p)
  ∧ (QFile.openReadOnly (fs w) (efiVars h m) = false →
     let r := resetEFINVRAM h m w in
     r.1 = (false, m)
     ∧ (parentWritable (fs w) (efiVarsTarget m) = true →
        QFile.exists_ (fs r.2) (efiVarsTarget m) = false)
     ∧ ∀ p, p ≠ efiVarsTarget m → files (fs r.2) !! p = files (fs w) !! p).
Proof.
  destruct (paths_distinct h m) as (N1 & _ & _ & N4 & _).
  split; intros Hsrc r.
  - destruct (resetEFIFirmware_run h m w) as (R & F & _).
    rewrite run_unreadable in R, F by done. cbn [fst snd] in R, F.
    fold r in R, F. split; [done|]. split.
    + intros Hpw. rewrite F. by apply remove_gone.
    + intros p Hp. by apply resetEFIFirmware_frame.
  - destruct (resetEFINVRAM_run h m w) as (R & F & _).
    rewrite run_unreadable in R, F by done. cbn [fst snd] in R, F.
    fold r in R, F. split; [done|]. split.
    + intros Hpw. rewrite F. by apply remove_gone.
    + intros p Hp. by apply resetEFINVRAM_frame.
Qed.

(** A VM whose architecture was changed to one without firmware: the
    reset fails and the firmware file is lost. *)
Example reset_without_source_loses_firmware :
  let w := (createVM Sample.host (Some Sample.draft) Sample.world).2 in
  let m := mkMachine Sample.vmDir "Debian" "riscv64" 2 2048 EmptyString
             EmptyString (Sample.vmDir +:+ "/efi.fd") EmptyString 8 false
             false false in
  QFile.exists_ (fs w) (Sample.vmDir +:+ "/efi.fd") = true
  ∧ (resetEFIFirmware Sample.host m w).1 = (false, m)
  ∧ QFile.exists_ (fs (resetEFIFirmware Sample.host m w).2)
      (Sample.vmDir +:+ "/efi.fd") = false.
Proof. by vm_compute. Qed.

End Lifecycle.

Module Creation.
Import Provision ProvisionFacts PathFacts Provisioning Codec Decoder Records
  Store Catalog Lifecycle.

#[local] Arguments QFile.copy : simpl never.
#[local] Arguments QFile.remove : simpl never.
#[local] Arguments QFile.exists_ : simpl never.
#[local] Arguments QFile.openReadWrite : simpl never.
#[local] Arguments QFile.write : simpl never.
#[local] Arguments QDir.mkpath : simpl never.
#[local] Arguments createVM_directory : simpl never.
#[local] Arguments createVM_hdd : simpl never.
#[local] Arguments createVM_metadata : simpl never.
#[local] Arguments resetEFIFirmware : simpl never.
#[local] Arguments resetEFINVRAM : simpl never.
#[local] Arguments machineToJSON : simpl never.
#[local] Arguments listEntryForJSON : simpl never.
#[local] Arguments QDirIterator.entries : simpl never.
#[local] Arguments String.append : simpl never.

Lemma overwrite_prefix new old :
  String.prefix new (QFile.overwrite new old) = true.
Proof.
  revert old. induction new as [|c r IH]; intros old; [by destruct old|].
  cbn [QFile.overwrite String.prefix]. destruct (ascii_dec c c); [|done].
  apply IH.
Qed.

Lemma createVM_directory_uuids dir w :
  uuids (createVM_directory dir w).2 = uuids w.
Proof.
  unfold createVM_directory. run_io.
  destruct (QDir.exists_ (fs w) dir); run_io; [done|].
  by destruct (QDir.mkpath dir (fs w)).
Qed.

Lemma createVM_hdd_ok h dir m w :
  uuids (createVM_hdd h dir m w).2 = uuids w
  ∧ ((createVM_hdd h dir m w).1.1 = true →
     (createVM_hdd h dir m w).1.2 = set_hdd (dir +:+ "/hdd.qcow2") m).
Proof.
  unfold createVM_hdd. run_io.
  destruct (runProcess h _ _ _) as [[code err] fs1].
  by destruct (code =? 0); run_io.
Qed.

Lemma createVM_metadata_ok dir m w :
  uuids (createVM_metadata dir m w).2 = uuids w
  ∧ dirs (fs (createVM_metadata dir m w).2) = dirs (fs w)
  ∧ (∀ p, p ≠ dir +:+ "/info.json" →
       files (fs (createVM_metadata dir m w).2) !! p = files (fs w) !! p)
  ∧ ((createVM_metadata dir m w).1 = true →
     ∃ old,
       files (fs (createVM_metadata dir m w).2) !! (dir +:+ "/info.json")
       = Some (mkFile (QFile.overwrite (machineToJSON m) old) true true)
       ∧ (QFile.exists_ (fs w) (dir +:+ "/info.json") = false →
          old = EmptyString)).
Proof.
  unfold createVM_metadata.
  set (path := dir +:+ "/info.json"). run_io.
  destruct (openReadWrite_frame false path (fs w)) as (Hd & Hf & Hfail & _).
  assert ((QFile.openReadWrite false path (fs w)).1 = true →
          ∃ old, files (QFile.openReadWrite false path (fs w)).2 !! path
                 = Some (mkFile old true true)
                 ∧ (QFile.exists_ (fs w) path = false → old = EmptyString))
    as Hopen.
  { unfold QFile.openReadWrite, QFile.exists_.
    destruct (files (fs w) !! path) as [[data [|] [|]]|] eqn:E;
      cbn; try done.
    - intros _. by exists data.
    - destruct (parentWritable (fs w) path); [|done]. intros _.
      exists EmptyString. cbn. by rewrite lookup_insert_eq. }
  destruct (QFile.openReadWrite false path (fs w)) as [[|] fs1];
    cbn [fst snd] in *; run_io.
  - destruct (write_frame path (machineToJSON m) fs1) as (Hd' & Hf' & _).
    split; [done|]. split; [congruence|]. split.
    { intros p Hp. by rewrite Hf', Hf. }
    intros _. destruct (Hopen eq_refl) as (old & Hold & Hfresh).
    exists old. split; [|done].
    unfold QFile.write. cbn [files set_files].
    by rewrite lookup_alter_eq, Hold.
  - rewrite Hfail by done. by repeat split.
Qed.

Lemma run_copied src target fs0 :
  (run src target fs0).1 = true → src ≠ target →
  ∃ f, f_readable f = true
       ∧ files (run src target fs0).2 !! target = Some f
       ∧ files (run src target fs0).2 !! src = Some f.
Proof.
  intros Hok Hne. unfold run in *.
  set (fs1 := if QFile.exists_ fs0 target then _ else _) in *.
  unfold QFile.copy in *.
  destruct (files fs1 !! src) as [f|] eqn:Hsrc; [|done].
  destruct (f_readable f) eqn:Hr; [|done]. cbn [andb] in *.
  destruct (negb (QFile.exists_ fs1 target) && parentWritable fs1 target);
    [|done].
  exists f. cbn. rewrite lookup_insert_eq, lookup_insert_ne by done.
  by repeat split.
Qed.

Lemma efiFw_ne_json h m dir : efiFw h m ≠ dir +:+ "/info.json".
Proof. rewrite efiFw_split. by apply append_ne. Qed.

Lemma efiVars_ne_json h m dir : efiVars h m ≠ dir +:+ "/info.json".
Proof.
  assert (∃ n, Path.slashless n ∧ n ≠ "info.json"
               ∧ efiVars h m
                 = (applicationDirPath h +:+ "/share/qemu")
                     +:+ String c_slash n) as (n & Hn & Hne & ->).
  { unfold efiVars. destruct (String.eqb (arch m) "aarch64").
    - exists "edk2-arm-vars.fd". by rewrite append_assoc.
    - exists "edk2-i386-vars.fd". by rewrite append_assoc. }
  by apply append_ne.
Qed.

(** A successful [createVM], step by step; [w1] is the world the disk
    tool left. *)
Lemma createVM_ok (h : Host) (m : Machine) (w : World) :
  (createVM h (Some m) w).1.1 = true →
  let vmDirPath := appDataLocation h +:+ "/" +:+ createUuid h (uuids w) in
  let jsonFilePath := vmDirPath +:+ "/info.json" in
  let m' := set_flash2 (vmDirPath +:+ "/efi_nvram.fd")
              (set_flash1 (vmDirPath +:+ "/efi.fd")
                 (set_hdd (vmDirPath +:+ "/hdd.qcow2")
                    (set_storage vmDirPath m))) in
  let w1 := (createVM_hdd h vmDirPath (set_storage vmDirPath m)
               (createVM_directory vmDirPath (nextUuid h w).2).2).2 in
  let w' := (createVM h (Some m) w).2 in
  (createVM h (Some m) w).1.2 = Some m'
  ∧ uuids w' = S (uuids w)
  ∧ (∃ code, f_readable code = true
       ∧ files (fs w') !! (vmDirPath +:+ "/efi.fd") = Some code
       ∧ files (fs w') !! efiFw h m = Some code)
  ∧ (∃ vars, f_readable vars = true
       ∧ files (fs w') !! (vmDirPath +:+ "/efi_nvram.fd") = Some vars
       ∧ files (fs w') !! efiVars h m = Some vars)
  ∧ (∃ old, files (fs w') !! jsonFilePath
            = Some (mkFile (QFile.overwrite (machineToJSON m') old)
                      true true)
            ∧ (QFile.exists_ (fs w1) jsonFilePath = false →
               old = EmptyString)).
Proof.
  intros Hok vmDirPath jsonFilePath m' w1 w'. subst w1 w'.
  revert Hok. rewrite createVM_steps. cbv zeta.
  fold vmDirPath. set (m0 := set_storage vmDirPath m).
  set (w0 := (createVM_directory vmDirPath (nextUuid h w).2).2).
  assert (uuids w0 = S (uuids w)) as U0
    by (unfold w0; by rewrite createVM_directory_uuids).
  destruct (createVM_hdd_ok h vmDirPath m0 w0) as [U1 M1].
  destruct (createVM_hdd h vmDirPath m0 w0) as [[okDisk m1] w1].
  cbn [fst snd] in U1, M1 |- *.
  destruct okDisk; cbn [negb]; [|done]. rewrite M1 by done. clear M1 m1.
  set (m1 := set_hdd (vmDirPath +:+ "/hdd.qcow2") m0).
  destruct (paths_distinct h m1) as (N1 & N2 & N3 & N4 & N5).
  pose proof (efiFw_ne_json h m1 vmDirPath) as J1.
  pose proof (efiVars_ne_json h m1 vmDirPath) as J2.
  assert (efiFwTarget m1 ≠ vmDirPath +:+ "/info.json"
          ∧ efiVarsTarget m1 ≠ vmDirPath +:+ "/info.json") as [J3 J4]
    by (split; by apply append_ne).
  (* firmware code *)
  destruct (resetEFIFirmware_run h m1 w1) as (R1 & F1 & V1).
  pose proof (run_copied (efiFw h m1) (efiFwTarget m1) (fs w1)) as C1.
  pose proof (run_frame (efiFw h m1) (efiFwTarget m1) (fs w1)) as [_ Fr1].
  destruct (resetEFIFirmware h m1 w1) as [[okCode m2] w2].
  cbn [fst snd] in R1, F1, V1. injection R1 as -> ->.
  destruct (run (efiFw h m1) (efiFwTarget m1) (fs w1)) as [[|] fsA];
    cbn [fst snd negb] in *; [|done].
  destruct (C1 eq_refl N1) as (code & Hrc & Hct & Hcs). clear C1.
  set (m2 := set_flash1 (efiFwTarget m1) m1).
  (* NVRAM *)
  destruct (resetEFINVRAM_run h m2 w2) as (R2 & F2 & V2).
  pose proof (run_copied (efiVars h m2) (efiVarsTarget m2) (fs w2)) as C2.
  pose proof (run_frame (efiVars h m2) (efiVarsTarget m2) (fs w2))
    as [_ Fr2].
  destruct (resetEFINVRAM h m2 w2) as [[okVars m3] w3].
  cbn [fst snd] in R2, F2, V2. injection R2 as -> ->.
  destruct (run (efiVars h m2) (efiVarsTarget m2) (fs w2)) as [[|] fsB];
    cbn [fst snd negb] in *; [|done].
  destruct (C2 eq_refl N4) as (vars & Hrv & Hvt & Hvs). clear C2.
  (* metadata *)
  destruct (createVM_metadata_ok vmDirPath m' w3)
    as (U4 & _ & Fr4 & M4).
  change (set_flash2 (efiVarsTarget m2) m2) with m'.
  destruct (createVM_metadata vmDirPath m' w3) as [ret w4].
  cbn [fst snd] in *. intros ->.
  change (vmDirPath +:+ "/efi.fd") with (efiFwTarget m1).
  change (vmDirPath +:+ "/efi_nvram.fd") with (efiVarsTarget m2).
  change (efiFw h m) with (efiFw h m1).
  change (efiVars h m) with (efiVars h m2).
  change (efiVars h m2) with (efiVars h m1) in *.
  change (efiVarsTarget m2) with (efiVarsTarget m1) in *.
  assert (∀ p, p ≠ vmDirPath +:+ "/info.json" → p ≠ efiVarsTarget m1 →
            files (fs w4) !! p = files fsA !! p) as Fr.
  { intros p Hp1 Hp2. by rewrite Fr4, F2, Fr2, F1. }
  split; [done|]. split; [congruence|].
  split; [exists code|split; [exists vars|]].
  - by rewrite !Fr.
  - by rewrite !Fr4, F2.
  - destruct (M4 eq_refl) as (old & Hold & Hfresh). exists old.
    split; [done|]. intros Hex. apply Hfresh.
    unfold QFile.exists_ in *. by rewrite F2, Fr2, F1, Fr1.
Qed.

(** X12.  What a successful [createVM] leaves.  The machine has its four
    paths set, in the directory named by the identifier drawn for the
    call, and is otherwise the machine that was passed.  The firmware
    code and the NVRAM file are readable copies of the files the
    application ships for the machine's architecture.  The metadata file
    can be read and starts with the encoding of the machine; as the file
    is opened without [QFile::Truncate], the bytes of a longer file found
    there stay behind the encoding. *)
Theorem createVM_success (h : Host) (m : Machine) (w : World) :
  (createVM h (Some m) w).1.1 = true →
  let vmDirPath := appDataLocation h +:+ "/" +:+ createUuid h (uuids w) in
  let jsonFilePath := vmDirPath +:+ "/info.json" in
  let m' := set_flash2 (vmDirPath +:+ "/efi_nvram.fd")
              (set_flash1 (vmDirPath +:+ "/efi.fd")
                 (set_hdd (vmDirPath +:+ "/hdd.qcow2")
                    (set_storage vmDirPath m))) in
  let w' := (createVM h (Some m) w).2 in
  (createVM h (Some m) w).1.2 = Some m'
  ∧ uuids w' = S (uuids w)
  ∧ (∃ code, f_readable code = true
       ∧ files (fs w') !! (vmDirPath +:+ "/efi.fd") = Some code
       ∧ files (fs w') !! efiFw h m = Some code)
  ∧ (∃ vars, f_readable vars = true
       ∧ files (fs w') !! (vmDirPath +:+ "/efi_nvram.fd") = Some vars
       ∧ files (fs w') !! efiVars h m = Some vars)
  ∧ QFile.openReadOnly (fs w') jsonFilePath = true
  ∧ String.prefix (machineToJSON m') (QFile.readAll (fs w') jsonFilePath)
    = true.
Proof.
  intros Hok vmDirPath jsonFilePath m' w'.
  destruct (createVM_ok h m w Hok)
    as (Hm & Hu & Hcode & Hvars & old & Hjson & _).
  fold vmDirPath jsonFilePath m' w' in Hm, Hu, Hcode, Hvars, Hjson.
  repeat (split; [done|]).
  unfold QFile.openReadOnly, QFile.readAll. rewrite Hjson.
  split; [done|]. apply overwrite_prefix.
Qed.

Lemma createVM_success_witness :
  let r := createVM Sample.host (Some Sample.draft) Sample.world in
  r.1.2 = Some Sample.record
  ∧ uuids r.2 = 1%nat
  ∧ QFile.openReadOnly (fs r.2) Sample.infoPath = true
  ∧ String.prefix (machineToJSON Sample.record)
      (QFile.readAll (fs r.2) Sample.infoPath) = true.
Proof.
  intros r.
  destruct (createVM_success Sample.host Sample.draft Sample.world)
    as (Hm & Hu & _ & _ & Hopen & Hprefix); [by vm_compute|].
  split; [exact Hm|]. split; [exact Hu|].
  split; [exact Hopen | exact Hprefix].
Defined.

Lemma prefix_append a b : String.prefix a (a +:+ b) = true.
Proof.
  induction a as [|c a IH]; [by destruct b|].
  change (String c a +:+ b) with (String c (a +:+ b)).
  cbn [String.prefix]. by destruct (ascii_dec c c).
Qed.

Lemma createVM_hdd_fs h dir m w :
  fs (createVM_hdd h dir m w).2
  = (runProcess h (applicationDirPath h +:+ "/bin/qemu-img")
       ["create"; "-f"; "qcow2"; dir +:+ "/hdd.qcow2";
        QString.number (hddSize m) +:+ "G"] (fs w)).2.
Proof.
  unfold createVM_hdd. run_io.
  destruct (runProcess h _ _ _) as [[code err] fs1].
  by destruct (code =? 0); run_io.
Qed.

(** X13.  Create, then refresh.  When [createVM] succeeds for a machine
    with an architecture of [VALID_ARCHES] and sizes that are [int]s, no
    metadata file was in the way and the disk tool left that path alone,
    then the next [refreshVMs] lists the new VM: the catalog has an entry
    that [fromQml] turns into the machine [createVM] left, [hddSize]
    apart. *)
Theorem createVM_then_refreshVMs (h : Host) (m fresh : Machine)
    (this : VMManager) (w : World) :
  let vmDirPath := appDataLocation h +:+ "/" +:+ createUuid h (uuids w) in
  let jsonFilePath := vmDirPath +:+ "/info.json" in
  let m' := set_flash2 (vmDirPath +:+ "/efi_nvram.fd")
              (set_flash1 (vmDirPath +:+ "/efi.fd")
                 (set_hdd (vmDirPath +:+ "/hdd.qcow2")
                    (set_storage vmDirPath m))) in
  (createVM h (Some m) w).1.1 = true →
  arch m ∈ VALID_ARCHES →
  QString.is_int (cores m) → QString.is_int (mem m) →
  QFile.exists_ (fs w) jsonFilePath = false →
  (∀ fs0,
     files (runProcess h (applicationDirPath h +:+ "/bin/qemu-img")
              ["create"; "-f"; "qcow2"; vmDirPath +:+ "/hdd.qcow2";
               QString.number (hddSize m) +:+ "G"] fs0).2 !! jsonFilePath
     = files fs0 !! jsonFilePath) →
  ∃ vm, vm ∈ m_vms (refreshVMs h this (createVM h (Some m) w).2).1
        ∧ fromQml fresh vm = set_hddSize (hddSize fresh) m'.
Proof.
  intros vmDirPath jsonFilePath m' Hok Ha Hc Hr Hfresh Htool.
  destruct (createVM_ok h m w Hok) as (_ & _ & _ & _ & old & Hjson & Hold).
  fold vmDirPath jsonFilePath m' in Hjson, Hold.
  rewrite Hold, overwrite_empty in Hjson.
  2:{ unfold QFile.exists_ in *.
      rewrite createVM_hdd_fs. cbn [hddSize set_storage].
      by rewrite Htool, createVM_directory_files. }
  set (w' := (createVM h (Some m) w).2) in *.
  assert (vmDirPath ≠ EmptyString) as Hdir
    by (unfold vmDirPath; by destruct (appDataLocation h)).
  assert (QFileInfo.canonicalPath (fs w') jsonFilePath = vmDirPath) as Hcan.
  { unfold QFileInfo.canonicalPath, QFile.exists_. rewrite Hjson.
    rewrite bool_decide_eq_true_2 by done.
    by apply (path_append vmDirPath "info.json"). }
  destruct (decode_written (fs w') jsonFilePath vmDirPath m' fresh Hjson)
    as [Hvalid _].
  destruct (Hvalid Ha) as (vm & Hvm & Hm). exists vm. split.
  - rewrite refreshVMs_run. cbn [fst m_vms].
    apply list_elem_of_omap. exists jsonFilePath. split.
    + apply elem_of_entries. split; [by rewrite Hjson|]. split.
      * unfold Path.below, jsonFilePath, vmDirPath.
        rewrite !append_assoc, <- (append_assoc (appDataLocation h)).
        apply prefix_append.
      * unfold QDirIterator.nameMatches.
        change jsonFilePath with (vmDirPath +:+ String c_slash "info.json").
        by rewrite fileName_append.
    + unfold Spec.decoded. by rewrite Hcan, Hvm.
  - by rewrite Hm.
Qed.

Lemma createVM_then_refreshVMs_witness :
  ∃ vm, vm ∈ m_vms (refreshVMs Sample.host (mkVMManager false [])
                      (createVM Sample.host (Some Sample.draft)
                         Sample.world).2).1
        ∧ fromQml Sample.fresh vm
          = set_hddSize (hddSize Sample.fresh) Sample.record.
Proof.
  apply (createVM_then_refreshVMs Sample.host Sample.draft Sample.fresh
           (mkVMManager false []) Sample.world).
  - by vm_compute.
  - rewrite list_elem_of_In. vm_compute. auto.
  - by vm_compute.
  - by vm_compute.
  - by vm_compute.
  - intros fs0. cbn [runProcess Sample.host]. unfold Sample.qemu_img.
    destruct (parentWritable fs0 _); [|done].
    cbn [snd files set_files]. by rewrite lookup_insert_ne.
Defined.

End Creation.

(** ** The last step of a creation *)

Module LastStep.
Import Provision ProvisionFacts PathFacts Provisioning Store Creation.

#[local] Arguments QFile.copy : simpl never.
#[local] Arguments QFile.remove : simpl never.
#[local] Arguments QFile.exists_ : simpl never.
#[local] Arguments QFile.openReadWrite : simpl never.
#[local] Arguments QFile.write : simpl never.
#[local] Arguments createVM_directory : simpl never.
#[local] Arguments createVM_hdd : simpl never.
#[local] Arguments createVM_metadata : simpl never.
#[local] Arguments resetEFIFirmware : simpl never.
#[local] Arguments resetEFINVRAM : simpl never.
#[local] Arguments machineToJSON : simpl never.
#[local] Arguments String.append : simpl never.

Lemma run_parent src target fs0 :
  (run src target fs0).1 = true →
  parentWritable (run src target fs0).2 target = true.
Proof.
  unfold run.
  set (fs1 := if QFile.exists_ fs0 target then _ else _).
  unfold QFile.copy.
  destruct (files fs1 !! src) as [f|]; [|done].
  destruct (f_readable f); [|done]. cbn [andb].
  destruct (negb (QFile.exists_ fs1 target)); [|done]. cbn [andb].
  by destruct (parentWritable fs1 target) eqn:E.
Qed.

Lemma createVM_metadata_result dir m w :
  (createVM_metadata dir m w).1
  = (QFile.openReadWrite false (dir +:+ "/info.json") (fs w)).1
  ∧ ((createVM_metadata dir m w).1 = false →
     fs (createVM_metadata dir m w).2 = fs w).
Proof.
  unfold createVM_metadata. run_io.
  destruct (openReadWrite_frame false (dir +:+ "/info.json") (fs w))
    as (_ & _ & Hfail & _).
  destruct (QFile.openReadWrite false _ (fs w)) as [[|] fs1];
    cbn [fst snd] in *; run_io; [done|].
  split; [done|]. intros _. by apply Hfail.
Qed.

(** X24.  The last step of [createVM].  Once the disk image and both
    firmware files are in place, writing the metadata fails, and with it
    the call, only when a metadata file is already in the new directory
    and cannot be both read and written; the file system is then as the
    NVRAM step left it, the disk image and the firmware files included. *)
Theorem createVM_last_step (h : Host) (m : Machine) (w : World) :
  let vmDirPath := appDataLocation h +:+ "/" +:+ createUuid h (uuids w) in
  let jsonFilePath := vmDirPath +:+ "/info.json" in
  let m0 := set_storage vmDirPath m in
  let w0 := (createVM_directory vmDirPath (nextUuid h w).2).2 in
  let '((okDisk, m1), w1) := createVM_hdd h vmDirPath m0 w0 in
  let '((okCode, m2), w2) := resetEFIFirmware h m1 w1 in
  let '((okVars, m3), w3) := resetEFINVRAM h m2 w2 in
  okDisk = true → okCode = true → okVars = true →
  ((createVM h (Some m) w).1.1 = false
   ↔ ∃ f, files (fs w3) !! jsonFilePath = Some f
          ∧ f_readable f && f_writable f = false)
  ∧ ((createVM h (Some m) w).1.1 = false →
     fs (createVM h (Some m) w).2 = fs w3).
Proof.
  rewrite createVM_steps. cbv zeta.
  set (vmDirPath := appDataLocation h +:+ "/" +:+ createUuid h (uuids w)).
  set (m0 := set_storage vmDirPath m).
  set (w0 := (createVM_directory vmDirPath (nextUuid h w).2).2).
  assert (vmDirPath ≠ EmptyString) as Hdir
    by (unfold vmDirPath; by destruct (appDataLocation h)).
  pose proof (createVM_hdd_storage h vmDirPath m0 w0) as [Hs1 _].
  destruct (createVM_hdd h vmDirPath m0 w0) as [[okDisk m1] w1].
  cbn [fst snd] in Hs1.
  pose proof (resetEFIFirmware_machine h m1 w1) as [Hs2 _].
  destruct (resetEFIFirmware h m1 w1) as [[okCode m2] w2].
  cbn [fst snd] in Hs2.
  destruct (resetEFINVRAM_run h m2 w2) as (R3 & F3 & _).
  pose proof (run_parent (efiVars h m2) (efiVarsTarget m2) (fs w2)) as P3.
  destruct (resetEFINVRAM h m2 w2) as [[okVars m3] w3].
  cbn [fst snd] in R3, F3. intros -> -> ->. cbn [negb].
  injection R3 as R3 ->. rewrite <- R3 in P3. rewrite <- F3 in P3.
  specialize (P3 eq_refl). rewrite <- R3.
  assert (parentWritable (fs w3) (vmDirPath +:+ "/info.json") = true)
    as Hpw.
  { revert P3. unfold parentWritable, efiVarsTarget.
    rewrite Hs2, Hs1. cbn [storage m0 set_storage].
    change (vmDirPath +:+ "/efi_nvram.fd")
      with (vmDirPath +:+ String c_slash "efi_nvram.fd").
    change (vmDirPath +:+ "/info.json")
      with (vmDirPath +:+ String c_slash "info.json").
    by rewrite !path_append. }
  set (m3 := set_flash2 (efiVarsTarget m2) m2).
  destruct (createVM_metadata_result vmDirPath m3 w3) as [Hret Hkeep].
  destruct (createVM_metadata vmDirPath m3 w3) as [ret w4].
  cbn [fst snd] in *. split; [|done]. rewrite Hret.
  unfold QFile.openReadWrite. rewrite Hpw.
  destruct (files (fs w3) !! (vmDirPath +:+ "/info.json")) as [f|].
  - destruct (f_readable f && f_writable f) eqn:E; cbn [fst].
    + split; [done|]. intros (f' & [= <-] & E'). congruence.
    + split; [|done]. intros _. by exists f.
  - cbn [fst]. split; [done|]. by intros (f & Hf & _).
Qed.

(** A metadata file that the disk tool leaves behind, read-only: the
    call fails at its last step. *)
Example createVM_fails_at_metadata :
  let tool (program : string) (args : list string) (fs0 : FileSystem) :=
    ((0, EmptyString),
     set_files (insert Sample.infoPath (mkFile "{}" true false)) fs0) in
  let h := mkHost Sample.appData Sample.appDir "arm64"
             (createUuid Sample.host) tool in
  let r := createVM h (Some Sample.draft) Sample.world in
  r.1.1 = false
  ∧ QFile.exists_ (fs r.2) (Sample.vmDir +:+ "/efi.fd") = true
  ∧ QFile.exists_ (fs r.2) (Sample.vmDir +:+ "/efi_nvram.fd") = true
  ∧ QFile.readAll (fs r.2) Sample.infoPath = "{}".
Proof. vm_compute. by repeat split. Qed.

End LastStep.

(** ** Deleting a VM *)

Module Removal.
Import ProvisionFacts PathFacts Codec Decoder Records Store Catalog Creation.
Import Tree.

#[local] Arguments listEntryForJSON : simpl never.
#[local] Arguments QDirIterator.entries : simpl never.
#[local] Arguments QFile.openReadWrite : simpl never.
#[local] Arguments String.append : simpl never.

Lemma prefix_iff a b : String.prefix a b = true ↔ ∃ c, b = a +:+ c.
Proof.
  revert b. induction a as [|x a IH]; intros b.
  - split; [intros _; by exists b | by destruct b].
  - destruct b as [|y b].
    + split; [done | by intros [c Hc]].
    + cbn [String.prefix]. destruct (ascii_dec x y) as [->|Hne].
      * rewrite IH. split; intros [c Hc]; exists c.
        -- by rewrite Hc.
        -- change (String y a +:+ c) with (String y (a +:+ c)) in Hc.
           by injection Hc.
      * split; [done|]. intros [c Hc].
        change (String x a +:+ c) with (String x (a +:+ c)) in Hc.
        injection Hc as -> _. done.
Qed.

Lemma below_trans d q p :
  Path.below d q = true → Path.below q p = true → Path.below d p = true.
Proof.
  unfold Path.below. rewrite !prefix_iff. intros [c ->] [e ->].
  exists (c +:+ "/" +:+ e). by rewrite !append_assoc.
Qed.

Lemma below_irrefl d : Path.below d d = false.
Proof.
  unfold Path.below. apply not_true_is_false. rewrite prefix_iff.
  intros [c Hc]. apply (f_equal String.length) in Hc.
  rewrite !length_append in Hc. cbn in Hc. lia.
Qed.

Lemma elem_of_belowIn {A} d (m : gmap string A) p :
  p ∈ belowIn d m ↔ is_Some (m !! p) ∧ Path.below d p = true.
Proof.
  unfold belowIn. rewrite list_elem_of_filter, list_elem_of_fmap. split.
  - intros (Hp & [q x] & -> & Hq). apply elem_of_map_to_list in Hq.
    cbn in *. split; [by eexists | by apply Is_true_eq_true].
  - intros ([x Hx] & Hp). split; [by rewrite Hp|].
    exists (p, x). split; [done|]. by apply elem_of_map_to_list.
Qed.

Lemma clearable_iff fs0 d :
  clearable fs0 d = true
  ↔ parentWritable fs0 d = true
    ∧ (∀ p, is_Some (files fs0 !! p) → Path.below d p = true →
         parentWritable fs0 p = true)
    ∧ (∀ q, is_Some (dirs fs0 !! q) → Path.below d q = true →
         parentWritable fs0 q = true).
Proof.
  unfold clearable. rewrite !andb_true_iff, !forallb_forall.
  setoid_rewrite <- list_elem_of_In. setoid_rewrite elem_of_belowIn.
  split.
  - intros [[Hd Hf] Hq]. split; [done|].
    split; intros p Hp Hb; [by apply Hf | by apply Hq].
  - intros (Hd & Hf & Hq). split; [split; [done|]|];
      intros p [Hp Hb]; [by apply Hf | by apply Hq].
Qed.

Lemma clearable_below fs0 d q :
  clearable fs0 d = true → is_Some (dirs fs0 !! q) →
  Path.below d q = true → clearable fs0 q = true.
Proof.
  rewrite !clearable_iff. intros (Hd & Hf & Hq) Hdir Hbelow.
  split; [by apply Hq|]. split.
  - intros p Hp Hpq. apply Hf; [done|]. by apply (below_trans d q).
  - intros p Hp Hpq. apply Hq; [done|]. by apply (below_trans d q).
Qed.

Lemma removeRecursively_missing d fs0 :
  QDir.exists_ fs0 d = false → removeRecursively d fs0 = (true, fs0).
Proof. intros H. unfold removeRecursively. by rewrite H. Qed.

Lemma removeRecursively_files d fs0 p :
  QDir.exists_ fs0 d = true →
  files (removeRecursively d fs0).2 !! p
  = files fs0 !! p ≫= λ f,
      if Path.below d p then
        if parentWritable fs0 p then None
        else Some (mkFile (f_data f) (f_readable f) true)
      else Some f.
Proof.
  intros H. unfold removeRecursively. rewrite H. cbn.
  by rewrite map_lookup_imap.
Qed.

Lemma removeRecursively_dirs d fs0 q :
  QDir.exists_ fs0 d = true →
  dirs (removeRecursively d fs0).2 !! q
  = dirs fs0 !! q ≫= λ b,
      if within d q && clearable fs0 q then None else Some b.
Proof.
  intros H. unfold removeRecursively. rewrite H. cbn.
  by rewrite map_lookup_imap.
Qed.

Lemma removeRecursively_result d fs0 :
  QDir.exists_ fs0 d = true → (removeRecursively d fs0).1 = clearable fs0 d.
Proof. intros H. unfold removeRecursively. by rewrite H. Qed.

Lemma within_refl d : within d d = true.
Proof. unfold within. by rewrite String.eqb_refl. Qed.

Lemma within_below d p : Path.below d p = true → within d p = true.
Proof. unfold within. intros ->. by rewrite orb_true_r. Qed.

(** [deleteVM], run. *)
Lemma deleteVM_run s m w :
  let d := absolutePath (currentPath s) (storage m) in
  (deleteVM s m w).1 = (removeRecursively d (fs w)).1
  ∧ fs (deleteVM s m w).2 = (removeRecursively d (fs w)).2
  ∧ uuids (deleteVM s m w).2 = uuids w
  ∧ emitted (deleteVM s m w).2 = emitted w
  ∧ log (deleteVM s m w).2
    = (log w ++ [(QtDebugMsg, ["Deleting:"; storage m])])%list.
Proof.
  intros d. unfold deleteVM. fold d. run_io.
  by destruct (removeRecursively d (fs w)).
Qed.

Lemma append_inj a b c : a +:+ b = a +:+ c → b = c.
Proof.
  induction a as [|x a IH]; [done|].
  change (String x a +:+ b) with (String x (a +:+ b)).
  change (String x a +:+ c) with (String x (a +:+ c)).
  intros [= H]. by apply IH.
Qed.

Lemma below_append d t : Path.below d (d +:+ t) = String.prefix "/" t.
Proof.
  unfold Path.below. apply eq_true_iff_eq. rewrite !prefix_iff. split.
  - intros [c Hc]. rewrite append_assoc in Hc. apply append_inj in Hc.
    by exists c.
  - intros [c ->]. exists c. by rewrite append_assoc.
Qed.

Lemma deleteVM_outside s m w p :
  Path.below (absolutePath (currentPath s) (storage m)) p = false →
  files (fs (deleteVM s m w).2) !! p = files (fs w) !! p.
Proof.
  intros Hp. destruct (deleteVM_run s m w) as (_ & -> & _).
  destruct (QDir.exists_ (fs w) (absolutePath (currentPath s) (storage m)))
    eqn:Hex.
  - rewrite removeRecursively_files, Hp by done.
    by destruct (files (fs w) !! p).
  - by rewrite removeRecursively_missing.
Qed.

(** X14.  What [deleteVM] leaves alone, whatever its result: every file
    that is not below the machine's storage directory (a file in a
    directory whose name merely starts with the same text is not below
    it), and every directory that is neither that directory nor below it.
    Nothing is created, and no file that stays has its bytes changed.
    The call draws no identifier and emits no signal. *)
Theorem deleteVM_frame (s : System) (m : Machine) (w : World) :
  let d := absolutePath (currentPath s) (storage m) in
  let w' := (deleteVM s m w).2 in
  (∀ p, Path.below d p = false → files (fs w') !! p = files (fs w) !! p)
  ∧ (∀ t, String.prefix "/" t = false →
       files (fs w') !! (d +:+ t) = files (fs w) !! (d +:+ t))
  ∧ (∀ q, within d q = false → dirs (fs w') !! q = dirs (fs w) !! q)
  ∧ (∀ p f, files (fs w') !! p = Some f →
       f_data <$> files (fs w) !! p = Some (f_data f))
  ∧ (∀ q b, dirs (fs w') !! q = Some b → dirs (fs w) !! q = Some b)
  ∧ uuids w' = uuids w
  ∧ emitted w' = emitted w.
Proof.
  intros d w'. destruct (deleteVM_run s m w) as (_ & F & U & E & _).
  fold d w' in F, U, E.
  pose proof (deleteVM_outside s m w) as Hfiles. fold d w' in Hfiles.
  rewrite F in *.
  split; [done|]. split.
  { intros t Ht. apply Hfiles. by rewrite below_append. }
  destruct (QDir.exists_ (fs w) d) eqn:Hex.
  - split; [|split; [|split]]; try done.
    + intros q Hq. rewrite removeRecursively_dirs, Hq by done.
      by destruct (dirs (fs w) !! q).
    + intros p f. rewrite removeRecursively_files by done.
      destruct (files (fs w) !! p) as [f0|]; [|done]. cbn.
      repeat case_match; try done; by intros [= <-].
    + intros q b. rewrite removeRecursively_dirs by done.
      destruct (dirs (fs w) !! q) as [b0|]; [|done]. cbn.
      by case_match.
  - rewrite removeRecursively_missing by done. cbn [snd].
    split; [done|]. split; [|done]. intros p f ->. done.
Qed.

(** What a removal that returns [true] leaves of an existing directory:
    nothing. *)
Lemma removed_all d fs0 :
  QDir.exists_ fs0 d = true → (removeRecursively d fs0).1 = true →
  (∀ p, Path.below d p = true →
     files (removeRecursively d fs0).2 !! p = None)
  ∧ (∀ q, within d q = true → dirs (removeRecursively d fs0).2 !! q = None).
Proof.
  intros Hex Hok. rewrite removeRecursively_result in Hok by done.
  pose proof Hok as (Hd & Hf & Hq)%clearable_iff. split.
  - intros p Hp. rewrite removeRecursively_files, Hp by done.
    destruct (files fs0 !! p) as [f|] eqn:E; [|done]. cbn.
    by rewrite Hf.
  - intros q Hin. rewrite removeRecursively_dirs, Hin by done.
    destruct (dirs fs0 !! q) as [b|] eqn:E; [|done]. cbn.
    unfold within in Hin. apply orb_true_iff in Hin as [Heq|Hbelow].
    + apply String.eqb_eq in Heq as ->. by rewrite Hok.
    + by rewrite (clearable_below fs0 d q).
Qed.

Lemma deleteVM_gone s m w :
  let d := absolutePath (currentPath s) (storage m) in
  QDir.exists_ (fs w) d = true →
  (deleteVM s m w).1 = true →
  (∀ p, Path.below d p = true → files (fs (deleteVM s m w).2) !! p = None)
  ∧ (∀ q, within d q = true → dirs (fs (deleteVM s m w).2) !! q = None).
Proof.
  intros d Hex Hok.
  destruct (deleteVM_run s m w) as (R & F & _). fold d in R, F.
  rewrite R in Hok. rewrite F. by apply removed_all.
Qed.

(** X15.  A [deleteVM] that returns [true] for a directory that existed
    left nothing of it: no file below it, no directory below it, and not
    the directory itself.  Deleting again returns [true] and changes
    nothing. *)
Theorem deleteVM_complete (s : System) (m : Machine) (w : World) :
  let d := absolutePath (currentPath s) (storage m) in
  let w' := (deleteVM s m w).2 in
  QDir.exists_ (fs w) d = true →
  (deleteVM s m w).1 = true →
  (∀ p, Path.below d p = true → files (fs w') !! p = None)
  ∧ (∀ q, within d q = true → dirs (fs w') !! q = None)
  ∧ (deleteVM s m w').1 = true
  ∧ fs (deleteVM s m w').2 = fs w'.
Proof.
  intros d w' Hex Hok.
  destruct (deleteVM_gone s m w Hex Hok) as [Hf Hd]. fold d w' in Hf, Hd.
  split; [done|]. split; [done|].
  destruct (deleteVM_run s m w') as (R' & F' & _). fold d in R', F'.
  rewrite R', F', removeRecursively_missing; [done|].
  unfold QDir.exists_. rewrite (Hd d (within_refl d)).
  apply bool_decide_eq_false_2. by intros [? ?].
Qed.

Lemma deleteVM_complete_witness :
  let w' := (deleteVM Sample.system Sample.record Sample.vmWorld).2 in
  (∀ p, Path.below Sample.vmDir p = true → files (fs w') !! p = None)
  ∧ (∀ q, within Sample.vmDir q = true → dirs (fs w') !! q = None)
  ∧ (deleteVM Sample.system Sample.record w').1 = true
  ∧ fs (deleteVM Sample.system Sample.record w').2 = fs w'.
Proof.
  apply (deleteVM_complete Sample.system Sample.record Sample.vmWorld);
    by vm_compute.
Defined.

(** X16.  [deleteVM] keeps going after a failure.  For a directory that
    exists, the result tells whether the directory and everything below
    it could be removed; whatever the result, every file below it whose
    directory accepts the removal is gone, and a file that could not be
    removed stays with the write permission it was given for the second
    try.  When the result is [false] the storage directory itself is
    still there. *)
Theorem deleteVM_partial (s : System) (m : Machine) (w : World) :
  let d := absolutePath (currentPath s) (storage m) in
  let w' := (deleteVM s m w).2 in
  QDir.exists_ (fs w) d = true →
  ((deleteVM s m w).1 = true
   ↔ parentWritable (fs w) d = true
     ∧ (∀ p, is_Some (files (fs w) !! p) → Path.below d p = true →
          parentWritable (fs w) p = true)
     ∧ (∀ q, is_Some (dirs (fs w) !! q) → Path.below d q = true →
          parentWritable (fs w) q = true))
  ∧ (∀ p, Path.below d p = true → parentWritable (fs w) p = true →
       files (fs w') !! p = None)
  ∧ (∀ p f, Path.below d p = true → parentWritable (fs w) p = false →
       files (fs w) !! p = Some f →
       files (fs w') !! p = Some (mkFile (f_data f) (f_readable f) true))
  ∧ ((deleteVM s m w).1 = false → dirs (fs w') !! d = dirs (fs w) !! d).
Proof.
  intros d w' Hex.
  destruct (deleteVM_run s m w) as (R & F & _). fold d w' in R, F.
  rewrite R, F, removeRecursively_result by done.
  split; [apply clearable_iff|]. split; [|split].
  - intros p Hp Hpw. rewrite removeRecursively_files, Hp, Hpw by done.
    by destruct (files (fs w) !! p).
  - intros p f Hp Hpw Hf.
    by rewrite removeRecursively_files, Hp, Hpw, Hf.
  - intros Hno. rewrite removeRecursively_dirs, Hno, andb_false_r by done.
    by destruct (dirs (fs w) !! d).
Qed.

Lemma deleteVM_partial_witness :
  let w := mkWorld (set_dirs (insert Sample.appData false)
                      (fs Sample.vmWorld)) 1 [] [] in
  let w' := (deleteVM Sample.system Sample.record w).2 in
  (deleteVM Sample.system Sample.record w).1 = false
  ∧ files (fs w') !! Sample.infoPath = None
  ∧ dirs (fs w') !! Sample.vmDir = Some true.
Proof.
  intros w w'.
  destruct (deleteVM_partial Sample.system Sample.record w)
    as (_ & Hgone & _ & Hstays); [by vm_compute|].
  assert ((deleteVM Sample.system Sample.record w).1 = false) as Hno
    by (by vm_compute).
  split; [exact Hno|]. split.
  - apply Hgone; by vm_compute.
  - transitivity (dirs (fs w) !! Sample.vmDir);
      [exact (Hstays Hno) | by vm_compute].
Defined.

(** X17.  A machine whose [storage] is empty (one that was never created):
    [QDir] takes the empty path for the current directory of the process,
    so [deleteVM] removes what it can below the current directory. *)
Theorem deleteVM_empty_storage (s : System) (m : Machine) (w : World) :
  storage m = EmptyString →
  QDir.exists_ (fs w) (currentPath s) = true →
  (deleteVM s m w).1 = (removeRecursively (currentPath s) (fs w)).1
  ∧ ∀ p, Path.below (currentPath s) p = true →
         parentWritable (fs w) p = true →
         files (fs (deleteVM s m w).2) !! p = None.
Proof.
  intros Hm Hex.
  destruct (deleteVM_run s m w) as (R & F & _).
  unfold absolutePath in R, F. rewrite Hm in R, F. cbn in R, F.
  split; [done|]. intros p Hp Hpw.
  rewrite F, removeRecursively_files, Hp, Hpw by done.
  by destruct (files (fs w) !! p).
Qed.

Lemma deleteVM_empty_storage_witness :
  let s := mkSystem Sample.appData 64 64 None 1 (λ _, None) in
  files (fs (deleteVM s Sample.fresh Sample.vmWorld).2) !! Sample.infoPath
  = None.
Proof.
  intros s.
  apply (deleteVM_empty_storage s Sample.fresh Sample.vmWorld);
    by vm_compute.
Defined.

(** Decoding looks at one file only. *)
Lemma decoded_ext fs1 fs2 p :
  files fs1 !! p = files fs2 !! p → Spec.decoded fs1 p = Spec.decoded fs2 p.
Proof.
  intros H.
  unfold Spec.decoded, listEntryForJSON, QFileInfo.canonicalPath,
    QFile.exists_, QFile.openReadOnly, QFile.readAll.
  by rewrite H.
Qed.

(** X18.  Delete, then refresh.  After a [deleteVM] that returned [true]
    for a directory that existed, the catalog of the next [refreshVMs] is
    the catalog a refresh would have given before, less the entries whose
    metadata file was below the deleted directory: the deleted VM is not
    listed, and every other VM is listed with the entry it had. *)
Theorem deleteVM_then_refreshVMs (h : Host) (s : System) (m : Machine)
    (this : VMManager) (w : World) :
  let d := absolutePath (currentPath s) (storage m) in
  QDir.exists_ (fs w) d = true →
  (deleteVM s m w).1 = true →
  ∀ vm,
    vm ∈ m_vms (refreshVMs h this (deleteVM s m w).2).1
    ↔ vm ∈ m_vms (refreshVMs h this w).1
      ∧ ∃ p, vm !! "path" = Some (VString p) ∧ Path.below d p = false.
Proof.
  intros d Hex Hok vm.
  destruct (deleteVM_gone s m w Hex Hok) as (Hgone & _).
  pose proof (deleteVM_outside s m w) as Hframe.
  fold d in Hgone, Hframe. set (w' := (deleteVM s m w).2) in *.
  rewrite !refreshVMs_run. cbn [fst m_vms].
  rewrite !list_elem_of_omap. split.
  - intros (p & Hp & Hd).
    apply elem_of_entries in Hp as (Hf & Hbelow & Hname).
    assert (Path.below d p = false) as Hout.
    { destruct (Path.below d p) eqn:E; [|done].
      rewrite (Hgone p E) in Hf. by destruct Hf. }
    rewrite (decoded_ext (fs w') (fs w)) in Hd by (by apply Hframe).
    split.
    + exists p. split; [|done]. apply elem_of_entries.
      by rewrite <- (Hframe p Hout).
    + exists p. split; [by apply (decoded_at (fs w))|done].
  - intros [(p & Hp & Hd) (p' & Hpath & Hout)].
    rewrite (decoded_at _ _ _ Hd) in Hpath. injection Hpath as <-.
    exists p. split.
    + apply elem_of_entries. rewrite (Hframe p Hout).
      by apply elem_of_entries.
    + by rewrite (decoded_ext (fs w') (fs w)) by (by apply Hframe).
Qed.

Lemma deleteVM_then_refreshVMs_witness :
  let before := m_vms (refreshVMs Sample.host (mkVMManager false [])
                         Sample.vmWorld).1 in
  let after := m_vms (refreshVMs Sample.host (mkVMManager false [])
                        (deleteVM Sample.system Sample.record
                           Sample.vmWorld).2).1 in
  let vm := default ∅ (head before) in
  (vm ∈ after
   ↔ vm ∈ before
     ∧ ∃ p, vm !! "path" = Some (VString p)
            ∧ Path.below Sample.vmDir p = false)
  ∧ vm ∈ before
  ∧ after = [].
Proof.
  split; [|split].
  - apply (deleteVM_then_refreshVMs Sample.host Sample.system
             Sample.record (mkVMManager false []) Sample.vmWorld);
      vm_compute; reflexivity.
  - vm_compute. left.
  - vm_compute. reflexivity.
Defined.

(** X19.  Delete, then edit.  After a [deleteVM] that returned [true] for
    the directory of a machine with an absolute storage path, [editVM] for
    that machine returns [false] and writes nothing: the metadata file is
    gone and the directory that held it no longer exists. *)
Theorem deleteVM_then_editVM (s : System) (m : Machine) (w : World) :
  String.prefix "/" (storage m) = true →
  QDir.exists_ (fs w) (storage m) = true →
  (deleteVM s m w).1 = true →
  let w' := (deleteVM s m w).2 in
  (editVM (Some m) w').1 = false
  ∧ fs (editVM (Some m) w').2 = fs w'.
Proof.
  intros Habs Hex Hok w'.
  assert (absolutePath (currentPath s) (storage m) = storage m) as Hd.
  { unfold absolutePath. rewrite Habs. by destruct (storage m). }
  assert (storage m ≠ EmptyString) as Hne by (by destruct (storage m)).
  pose proof (deleteVM_gone s m w) as Hgone. cbv zeta in Hgone.
  rewrite Hd in Hgone. destruct (Hgone Hex Hok) as [Hf Hq]. fold w' in Hf, Hq.
  set (path := storage m +:+ "/info.json").
  assert (QFile.openReadWrite true path (fs w') = (false, fs w')) as Hopen.
  { unfold QFile.openReadWrite, parentWritable.
    rewrite (Hf path) by (unfold path; by rewrite below_append).
    change path with (storage m +:+ String c_slash "info.json").
    rewrite path_append, (Hq _ (within_refl _)) by done.
    by rewrite bool_decide_eq_false_2. }
  unfold editVM. fold path. run_io. rewrite Hopen. by run_io.
Qed.

Lemma deleteVM_then_editVM_witness :
  let w' := (deleteVM Sample.system Sample.record Sample.vmWorld).2 in
  (editVM (Some Sample.record) w').1 = false
  ∧ fs (editVM (Some Sample.record) w').2 = fs w'.
Proof.
  apply (deleteVM_then_editVM Sample.system Sample.record Sample.vmWorld);
    by vm_compute.
Defined.

End Removal.

(** ** The limits offered to the user interface *)

Module Limits.

Lemma to_int_id x : - 2 ^ 31 <= x < 2 ^ 31 → to_int x = x.
Proof. intros Hx. unfold to_int. rewrite Z.mod_small; lia. Qed.

Lemma to_int_unsigned bits x :
  32 <= bits → to_int (to_unsigned bits x) = to_int x.
Proof.
  intros Hbits. unfold to_int, to_unsigned. f_equal.
  assert (2 ^ bits = 2 ^ 32 * 2 ^ (bits - 32)) as ->
    by (rewrite <- Z.pow_add_r by lia; f_equal; lia).
  assert (0 < 2 ^ (bits - 32)) by (apply Z.pow_pos_nonneg; lia).
  rewrite (Z.add_mod (x mod _)) by lia.
  rewrite Z.rem_mul_r by lia.
  rewrite (Z.mul_comm (2 ^ 32)), Z.mod_add by lia.
  rewrite Z.mod_mod by lia. by rewrite <- Z.add_mod by lia.
Qed.

Lemma div_megabytes t : t / 1024 / 1024 = t / 2 ^ 20.
Proof. rewrite Z.div_div by lia. reflexivity. Qed.

Lemma div_gigabytes t : t / 1024 / 1024 / 1024 = t / 2 ^ 30.
Proof. rewrite !Z.div_div by lia. reflexivity. Qed.

(** X20.  When [sysinfo] fails, [maxRam] is 4096.  When it succeeds on a
    system whose [unsigned long] has at least 32 bits, [maxRam] is
    [totalram] divided by 2^20, less 2048 (the total memory in MiB less
    2048, where [totalram] counts bytes): the wrap-around of the unsigned
    subtraction is undone by the conversion to [int], so that the result is
    negative when [totalram] is below 2^31. *)
Theorem maxRam_megabytes (s : System) :
  32 <= long_bits s →
  match sysinfo_totalram s with
  | None => maxRam s = 4096
  | Some totalram =>
      0 <= totalram →
      totalram / 2 ^ 20 < 2 ^ 31 + 2048 →
      maxRam s = totalram / 2 ^ 20 - 2048
      ∧ (maxRam s < 0 ↔ totalram < 2 ^ 31)
  end.
Proof.
  intros Hbits. unfold maxRam.
  destruct (sysinfo_totalram s) as [totalram|]; [|done]. intros Ht Hmax.
  rewrite to_int_unsigned, div_megabytes by done.
  assert (0 <= totalram / 2 ^ 20) by (apply Z.div_pos; lia).
  rewrite to_int_id by lia. split; [done|].
  assert (totalram / 2 ^ 20 < 2048 ↔ totalram < 2048 * 2 ^ 20) as Hlt.
  { split; intros Hlt.
    - apply Z.nle_gt. intros Hge.
      apply (Z.div_le_mono _ _ (2 ^ 20)) in Hge; [|lia].
      rewrite Z.div_mul in Hge by lia. lia.
    - apply Z.div_lt_upper_bound; lia. }
  change (2 ^ 31) with (2048 * 2 ^ 20). lia.
Qed.

Lemma maxRam_megabytes_witness :
  maxRam Sample.system32 = 1073741824 / 2 ^ 20 - 2048
  ∧ (maxRam Sample.system32 < 0 ↔ 1073741824 < 2 ^ 31).
Proof. apply (maxRam_megabytes Sample.system32); by vm_compute. Defined.

(** X21.  [maxCores] is one less than the number of configured processors:
    0 on a single-processor system, and -2 when [sysconf] fails with -1
    (there is no fallback value). *)
Theorem maxCores_processors (s : System) :
  -1 <= nprocessors_conf s <= 2 ^ 31 →
  maxCores s = nprocessors_conf s - 1
  ∧ (maxCores s < 1 ↔ nprocessors_conf s < 2)
  ∧ (nprocessors_conf s = -1 → maxCores s = -2).
Proof.
  intros Hn. unfold maxCores. rewrite to_int_id by lia. lia.
Qed.

Lemma maxCores_processors_witness :
  maxCores Sample.system = 8 - 1
  ∧ (maxCores Sample.system < 1 ↔ 8 < 2)
  ∧ (8 = -1 → maxCores Sample.system = -2).
Proof. apply (maxCores_processors Sample.system). by vm_compute. Defined.

(** X22.  When [statvfs] fails, [maxHddSize] is 32.  When it succeeds and
    the product of [f_bsize] and [f_bfree] fits the type it is computed in,
    [maxHddSize] is that product divided by 2^30 (the free space in GiB,
    where the blocks counted by [f_bfree] have [f_bsize] bytes), and is not
    negative. *)
Theorem maxHddSize_gigabytes (h : Host) (s : System) :
  let bits := Z.max (long_bits s) (fsblkcnt_bits s) in
  match statvfs s (appDataLocation h) with
  | None => maxHddSize h s = 32
  | Some (f_bsize, f_bfree) =>
      0 <= f_bsize * f_bfree < 2 ^ bits →
      f_bsize * f_bfree < 2 ^ 61 →
      maxHddSize h s = f_bsize * f_bfree / 2 ^ 30
      ∧ 0 <= maxHddSize h s
  end.
Proof.
  intros bits. unfold maxHddSize.
  destruct (statvfs s (appDataLocation h)) as [[f_bsize f_bfree]|]; [|done].
  intros Hfit Hmax. fold bits. unfold to_unsigned.
  rewrite Z.mod_small by done. rewrite div_gigabytes.
  assert (0 <= f_bsize * f_bfree / 2 ^ 30 < 2 ^ 31) as Hq.
  { split; [apply Z.div_pos; lia|]. apply Z.div_lt_upper_bound; lia. }
  rewrite to_int_id by lia. lia.
Qed.

Lemma maxHddSize_gigabytes_witness :
  maxHddSize Sample.host Sample.system = 4096 * 5000000 / 2 ^ 30
  ∧ 0 <= maxHddSize Sample.host Sample.system.
Proof.
  apply (maxHddSize_gigabytes Sample.host Sample.system); by vm_compute.
Defined.

(** X23.  The product of [f_bsize] and [f_bfree] wraps around in the type
    it is computed in: whatever the two values, [maxHddSize] is less than
    2^(bits - 30) when [statvfs] succeeds, hence at most 3 where
    [unsigned long] and [fsblkcnt_t] have 32 bits. *)
Theorem maxHddSize_wraps (h : Host) (s : System) :
  let bits := Z.max (long_bits s) (fsblkcnt_bits s) in
  30 <= bits <= 61 →
  is_Some (statvfs s (appDataLocation h)) →
  0 <= maxHddSize h s < 2 ^ (bits - 30).
Proof.
  intros bits Hbits [[f_bsize f_bfree] Hstat]. unfold maxHddSize.
  rewrite Hstat. fold bits.
  rewrite div_gigabytes. unfold to_unsigned.
  assert (0 < 2 ^ bits) by (apply Z.pow_pos_nonneg; lia).
  pose proof (Z.mod_pos_bound (f_bsize * f_bfree) (2 ^ bits) ltac:(lia)) as Hm.
  assert (2 ^ bits = 2 ^ (bits - 30) * 2 ^ 30) as Hsplit
    by (rewrite <- Z.pow_add_r by lia; f_equal; lia).
  assert (2 ^ (bits - 30) <= 2 ^ 31)
    by (apply Z.pow_le_mono_r; lia).
  assert (0 <= (f_bsize * f_bfree) mod 2 ^ bits / 2 ^ 30 < 2 ^ (bits - 30))
    as Hq.
  { split; [apply Z.div_pos; lia|]. apply Z.div_lt_upper_bound; lia. }
  rewrite to_int_id by lia. done.
Qed.

Lemma maxHddSize_wraps_witness :
  4096 * 5000000 / 2 ^ 30 = 19
  ∧ 0 <= maxHddSize Sample.host Sample.system32 < 4.
Proof.
  split; [reflexivity|].
  apply (maxHddSize_wraps Sample.host Sample.system32);
    [by vm_compute | by eexists].
Defined.

End Limits.
